(** * Absorb: line attribution of working-copy edits (sapling/ext/absorb)

    A shallow embedding of [filefixupstate] and its helpers from
    [eden/scm/sapling/ext/absorb/__init__.py], followed by the properties
    of the chunk classifier, the gap analysis, the fixup optimizer and the
    fixup applier.

    Conventions.
    - Python integers are [Z]; list indexing and slicing follow Python
      (negative indices count from the end, slices clamp, an index out of
      range raises [IndexError], modelled as [None]).
    - The gap positions [lineno + 0.5] are Python floats; every value that
      occurs is an integer plus one half, which binary floating point
      represents exactly, so they are modelled as exact rationals [Qc].
    - A function that can raise returns [option]. *)

From Stdlib Require Import QArith Qcanon Ascii String.
From stdpp Require Import base numbers list strings sorting.
From Equations Require Import Equations.

Local Open Scope Z_scope.

(** ** Python lists *)

Module Py.

(** [l[i]] *)
Definition index {A} (l : list A) (i : Z) : option A :=
  if 0 <=? i then l !! Z.to_nat i
  else if 0 <=? Z.of_nat (length l) + i then l !! Z.to_nat (Z.of_nat (length l) + i)
  else None.

(** Clamping of a slice bound. *)
Definition bound {A} (l : list A) (i : Z) : Z :=
  let n := Z.of_nat (length l) in
  if i <? 0 then Z.max 0 (n + i) else Z.min i n.

(** [l[a:b]] *)
Definition slice {A} (l : list A) (a b : Z) : list A :=
  let s := bound l a in
  let e := bound l b in
  take (Z.to_nat (e - s)) (drop (Z.to_nat s) l).

(** [range(a, b)] *)
Definition range (a b : Z) : list Z := seqZ a (b - a).

(** [list(set(l))]: the elements of [l] without repetition.  The order in
    which CPython iterates a set is not modelled; the callers below only
    look at the length of the result and, when that length is one, at its
    single element. *)
Definition set_list `{EqDecision A} (l : list A) : list A := remove_dups l.

End Py.

(** ** Annotated lines and fixups *)

(** One entry [(rev, linenum, pc, deleted)] of [linelog.checkout_lines]. *)
Record lineinfo := LineInfo {
  li_rev : Z;
  li_linenum : Z;
  li_pc : Z;
  li_deleted : bool
}.

(** A fixup [(rev, a1, a2, b1, b2)]. *)
Record fixup := Fixup {
  f_rev : Z;
  f_a1 : Z;
  f_a2 : Z;
  f_b1 : Z;
  f_b2 : Z
}.

(** A diff chunk [(a1, a2, b1, b2)]. *)
Definition chunk : Type := Z * Z * Z * Z.

#[global] Instance lineinfo_eq_dec : EqDecision lineinfo.
Proof. solve_decision. Defined.

#[global] Instance fixup_eq_dec : EqDecision fixup.
Proof. solve_decision. Defined.

(** ** Gap lines *)

(** The float [0.5]. *)
Definition half : Qc := Q2Qc (Qmake 1 2).

(** [lineno + 0.5] *)
Definition gap_after (lineno : Z) : Qc := (Qc_of_Z lineno + half)%Qc.

(** Loop state of [_calculate_gap_lines]:
    [(gap_lines, lineno, last_gap_line)]. *)
Definition gap_state : Type := list Qc * Z * Z.

(** Body of the [for] loop of [_calculate_gap_lines]. *)
Definition gap_step (st : gap_state) (ln : lineinfo) : gap_state :=
  let '(gap_lines, lineno, last_gap_line) := st in
  if li_deleted ln && negb (lineno =? last_gap_line) && (0 <=? lineno)
  then (gap_lines ++ [gap_after lineno], lineno, lineno)
  else (gap_lines, lineno + 1, last_gap_line).

(** [_calculate_gap_lines], from the result [all_lines] of
    [linelog.checkout_lines(rev, 0)]. *)
Definition gap_lines_of (all_lines : list lineinfo) : list Qc :=
  (fold_left gap_step all_lines ([], -1, -1)).1.1.

#[global] Instance Qc_inhabited : Inhabited Qc := populate (Qc_of_Z 0).

(** [bisect.bisect_left(a, x)] of the Python standard library: the loop
    [while lo < hi: mid = (lo + hi) // 2; if a[mid] < x: lo = mid + 1
    else: hi = mid]. *)
Equations? bisect_loop (a : list Qc) (x : Qc) (lo hi : nat) : nat
  by wf (hi - lo)%nat lt :=
  bisect_loop a x lo hi with decide (lo < hi)%nat := {
    | left _ with decide (a !!! ((lo + hi) / 2)%nat < x)%Qc := {
        | left _ => bisect_loop a x (S ((lo + hi) / 2)) hi
        | right _ => bisect_loop a x lo ((lo + hi) / 2)%nat }
    | right _ => lo }.
Proof.
  all: change (Nat.divmod (lo + hi) 1 0 1).1 with ((lo + hi) / 2)%nat.
  all: assert ((lo + hi) / 2 < hi ∧ lo ≤ (lo + hi) / 2)%nat as [??]
    by (split; [apply Nat.Div0.div_lt_upper_bound
               | apply Nat.div_le_lower_bound]; lia).
  all: lia.
Qed.

Definition bisect_left (a : list Qc) (x : Qc) : nat :=
  bisect_loop a x 0 (length a).

(** [filefixupstate._iscontinuous] *)
Definition _iscontinuous (gap_lines : list Qc) (a1 a2 : Z) : bool :=
  if a2 <=? a1 then true
  else
    let gap_index := bisect_left gap_lines (Qc_of_Z a1) in
    if (length gap_lines <=? gap_index)%nat then true
    else
      let gap := gap_lines !!! gap_index in
      bool_decide (Qc_of_Z a2 ≤ gap)%Qc.

(** ** The fixup optimizer *)

(** The initial [pcurrentchunk[0]], [[-1, -1, -1, -1, -1]]. *)
Definition nochunk : fixup := Fixup (-1) (-1) (-1) (-1) (-1).

(** The local function [pushchunk] of [_optimizefixups]. *)
Definition pushchunk (result : list fixup) (current : fixup) : list fixup :=
  if f_rev current =? -1 then result else result ++ [current].

(** The test that decides whether the current chunk is merged into
    [pcurrentchunk[0]]. *)
Definition mergeable (gap_lines : list Qc) (current chunk : fixup) : bool :=
  (f_a1 chunk =? f_a2 current)
  && (f_b1 chunk =? f_b2 current)
  && (f_rev chunk =? f_rev current)
  && _iscontinuous gap_lines (Z.max (f_a1 chunk - 1) 0) (f_a1 chunk).

(** Body of the [for] loop of [_optimizefixups], on the state
    [(result, pcurrentchunk[0])]. *)
Definition optimize_step (gap_lines : list Qc)
    (st : list fixup * fixup) (chunk : fixup) : list fixup * fixup :=
  let '(result, current) := st in
  if mergeable gap_lines current chunk
  then (result,
        Fixup (f_rev current) (f_a1 current) (f_a2 chunk)
              (f_b1 current) (f_b2 chunk))
  else (pushchunk result current, chunk).

(** [filefixupstate._optimizefixups] *)
Definition _optimizefixups (gap_lines : list Qc) (fixups : list fixup)
    : list fixup :=
  let '(result, current) :=
    fold_left (optimize_step gap_lines) fixups ([], nochunk) in
  pushchunk result current.

(** ** The chunk classifier *)

(** The list [involved] of [_analysediffchunk]: the annotated lines of
    [a1:a2], or for a pure insertion the nearby lines that do not belong to
    the first revision. *)
Definition involved_lines (annotated : list lineinfo) (a1 a2 : Z)
    : option (list lineinfo) :=
  let involved := Py.slice annotated a1 a2 in
  if bool_decide (involved = []) && negb (bool_decide (annotated = []))
  then
    let nearbylinenums := Py.set_list [a2; Z.max 0 (a1 - 1)] in
    nearby ← mapM (Py.index annotated) nearbylinenums;
    Some (filter (λ r, li_rev r ≠ 1) nearby)
  else Some involved.

(** The list [involvedrevs]. *)
Definition involved_revs (involved : list lineinfo) : list Z :=
  Py.set_list (li_rev <$> involved).

(** The fixup of one line [i] in the branch for a 1:1 mapping or a
    deletion. *)
Definition line_fixup (annotated : list lineinfo) (a1 b1 b2 : Z) (i : Z)
    : option (list fixup) :=
  r ← Py.index annotated i;
  if 1 <? li_rev r
  then
    let nb1 := if b1 =? b2 then 0 else b1 + i - a1 in
    let nb2 := if b1 =? b2 then 0 else nb1 + 1 in
    Some [Fixup (li_rev r + 1) i (i + 1) nb1 nb2]
  else Some [].

(** The list [newfixups] before it is optimized. *)
Definition new_fixups (gap_lines : list Qc) (c : chunk)
    (annotated : list lineinfo) : option (list fixup) :=
  let '(a1, a2, b1, b2) := c in
  involved ← involved_lines annotated a1 a2;
  let involvedrevs := involved_revs involved in
  if (length involvedrevs =? 1)%nat && _iscontinuous gap_lines a1 (a2 - 1)
  then
    rev ← involvedrevs !! 0%nat;
    if 1 <? rev then Some [Fixup (rev + 1) a1 a2 b1 b2] else Some []
  else if (a2 - a1 =? b2 - b1) || (b1 =? b2)
  then mjoin <$> mapM (line_fixup annotated a1 b1 b2) (Py.range a1 a2)
  else Some [].

(** [filefixupstate._analysediffchunk] *)
Definition _analysediffchunk (gap_lines : list Qc) (c : chunk)
    (annotated : list lineinfo) : option (list fixup) :=
  _optimizefixups gap_lines <$> new_fixups gap_lines c annotated.

(** ** The line log interface *)

(** The operations of [bindings.linelog.IntLineLog] that [filefixupstate]
    calls.  [edit_chunk] returns the new log, or [None] when it raises. *)
Class LineLog (L : Type) := {
  linelog_new : L;
  max_rev : L → Z;
  checkout_lines : L → Z → option Z → list lineinfo;
  edit_chunk : L → Z → Z → Z → Z → Z → Z → option L
}.

(** *** A line log that records its calls

    It stores the arguments of every [edit_chunk] call in order, and is
    used to state in which order [apply] edits the log. *)
Record edit_call := EditCall {
  c_a_rev : Z;
  c_a1 : Z;
  c_a2 : Z;
  c_b_rev : Z;
  c_b1 : Z;
  c_b2 : Z
}.

Record recorder := Recorder {
  rec_max_rev : Z;
  rec_calls : list edit_call
}.

#[global] Instance recorder_linelog : LineLog recorder := {|
  linelog_new := Recorder 0 [];
  max_rev r := rec_max_rev r;
  checkout_lines _ _ _ := [];
  edit_chunk r a_rev a1 a2 b_rev b1 b2 :=
    Some (Recorder (Z.max (rec_max_rev r) b_rev)
                   (rec_calls r ++ [EditCall a_rev a1 a2 b_rev b1 b2]))
|}.

(** *** The line log of the specification *)

Module IntLineLog.

(** Modelled from the spec: the line record of section 3.  A line that has
    ever existed in the log, with its origin revision and line number, and
    the revision from which it is deleted, if any. *)
Record entry := Entry {
  e_rev : Z;
  e_linenum : Z;
  e_del : option Z
}.

(** Modelled from the spec: the native line log
    [bindings.linelog.IntLineLog] is not part of the sources.  Following
    sections 3 and 4.1, the log is the ordered sequence of all lines that
    ever existed, each tagged with [(originRevision, originLineNumber)];
    an edit attributed to a revision is seen by that revision and every
    newer one, and by no older one. *)
Record t := Make {
  entries : list entry;
  maxrev : Z
}.

(** Modelled from the spec: line [e] is part of the content of revision
    [rev] when it was introduced at or below [rev] and is not deleted at
    [rev]. *)
Definition visible (rev : Z) (e : entry) : bool :=
  (e_rev e <=? rev)
  && match e_del e with Some d => rev <? d | None => true end.

(** Modelled from the spec: the specification does not mention the dummy
    line that ends every checkout; [diffwith] expects it ("the last dummy
    line") and asserts that there is exactly one.  It belongs to no content
    revision. *)
Definition end_line (pc : Z) : lineinfo := LineInfo 0 0 pc false.

(** Modelled from the spec: [checkout(revision)] gives the lines of the
    revision with their tags, and [checkoutFull] every line at or below
    the revision, the ones that the revision does not contain flagged
    [deleted].  The program counter of a line is its position in the
    log.  Both end with the dummy line.  A revision above the maximum is
    checked out like the newest one ([_checkoutlinelog] checks out the edit
    revision above the newest content whether or not a fixup landed
    there). *)
Definition checkout (l : t) (rev : Z) (start : option Z) : list lineinfo :=
  let tagged := imap (λ i e, (Z.of_nat i, e)) (entries l) in
  let info (p : Z * entry) :=
    LineInfo (e_rev p.2) (e_linenum p.2) p.1 (negb (visible rev p.2)) in
  let shown (p : Z * entry) : bool :=
    match start with
    | None => visible rev p.2
    | Some _ => e_rev p.2 <=? rev
    end in
  (info <$> filter (λ p, shown p = true) tagged)
    ++ [end_line (Z.of_nat (length (entries l)))].

(** Modelled from the spec: the lines [(b_rev, b1) .. (b_rev, b2 - 1)] that
    an edit inserts. *)
Definition inserted (b_rev b1 b2 : Z) : list entry :=
  (λ j, Entry b_rev j None) <$> Py.range b1 b2.

(** Modelled from the spec: deleting a line from revision [b_rev] on. *)
Definition delete_from (b_rev : Z) (e : entry) : entry :=
  Entry (e_rev e) (e_linenum e)
        (Some (match e_del e with Some d => Z.min d b_rev | None => b_rev end)).

(** Modelled from the spec: the walk of [editChunk] over the log; [k]
    counts the lines of revision [a_rev] passed so far.  The new lines go in front of line
    [a1] of revision [a_rev] (at the end when there is no such line), and
    the lines [a1 .. a2 - 1] of that revision are deleted from [b_rev]
    on. *)
Fixpoint edit_walk (a_rev a1 a2 b_rev : Z) (new : list entry)
    (k : Z) (es : list entry) : list entry :=
  match es with
  | [] => if k =? a1 then new else []
  | e :: es' =>
      if visible a_rev e
      then (if k =? a1 then new else [])
             ++ (if (a1 <=? k) && (k <? a2) then delete_from b_rev e else e)
             :: edit_walk a_rev a1 a2 b_rev new (k + 1) es'
      else e :: edit_walk a_rev a1 a2 b_rev new k es'
  end.

(** Modelled from the spec: [editChunk(asOfRevision, a1, a2,
    targetRevision, b1, b2)] deletes the lines [a1 .. a2 - 1] of
    [checkout(asOfRevision)] and inserts the target lines
    [b1 .. b2 - 1], attributed to [targetRevision]; it fails with
    [InvalidRange] if [a1 > a2], [b1 > b2] or [a2] exceeds the length of
    the content at [asOfRevision] (and for a negative [a1]). *)
Definition edit (l : t) (a_rev a1 a2 b_rev b1 b2 : Z) : option t :=
  let len := Z.of_nat (length (filter (λ e, visible a_rev e = true) (entries l))) in
  if (a1 <? 0) || (a2 <? a1) || (b2 <? b1) || (len <? a2) then None
  else Some (Make (edit_walk a_rev a1 a2 b_rev (inserted b_rev b1 b2) 0 (entries l))
                  (Z.max (maxrev l) b_rev)).

End IntLineLog.

#[global] Instance intlinelog_linelog : LineLog IntLineLog.t := {|
  linelog_new := IntLineLog.Make [] 0;
  max_rev := IntLineLog.maxrev;
  checkout_lines := IntLineLog.checkout;
  edit_chunk := IntLineLog.edit
|}.

(** ** Line splitting and the line diff *)

Module Mdiff.

(** The byte of a line feed. *)
Definition newline : ascii := ascii_of_nat 10.

(** Modelled from the spec: [mdiff.splitnewlines] is not part of the
    sources.  The content is split after every newline; each line keeps
    its terminator and a last line without one is kept as it is. *)
Fixpoint splitnewlines (text : string) : list string :=
  match text with
  | EmptyString => []
  | String c rest =>
      if decide (c = newline) then String c EmptyString :: splitnewlines rest
      else match splitnewlines rest with
           | [] => [String c EmptyString]
           | line :: lines => String c line :: lines
           end
  end.

(** Modelled from the spec: one step of a line-level edit script. *)
Inductive op := Keep | Delete | Insert.

#[global] Instance op_eq_dec : EqDecision op.
Proof. solve_decision. Defined.

Definition is_keep (o : op) : bool :=
  match o with Keep => true | _ => false end.

(** Modelled from the spec: the number of changed lines of a script. *)
Definition cost (s : list op) : nat :=
  length (filter (λ o, is_keep o = false) s).

(** Modelled from the spec: a shortest edit script from [xs] to [ys] (the
    complement of a longest common subsequence); a tie is resolved in
    favour of deleting first. *)
Fixpoint script (xs : list string) : list string → list op :=
  fix inner (ys : list string) : list op :=
    match xs, ys with
    | [], _ => (λ _, Insert) <$> ys
    | _, [] => (λ _, Delete) <$> xs
    | x :: xs', y :: ys' =>
        if decide (x = y) then Keep :: script xs' ys'
        else
          let d := Delete :: script xs' ys in
          let i := Insert :: inner ys' in
          if (cost d <=? cost i)%nat then d else i
    end.

(** Modelled from the spec: the block that is being collected, unless it
    is empty. *)
Definition close (same : bool) (a1 a2 b1 b2 : Z) : list (chunk * string) :=
  if (a1 =? a2) && (b1 =? b2) then []
  else [((a1, a2, b1, b2), if same then "=" else "!")].

(** Modelled from the spec: grouping of a script into maximal blocks of
    equal lines (["="]) and of changed lines (["!"]); [a1 .. a2] and [b1 .. b2] are the lines of
    the block that is being collected. *)
Fixpoint blocks (s : list op) (same : bool) (a1 a2 b1 b2 : Z)
    : list (chunk * string) :=
  match s with
  | [] => close same a1 a2 b1 b2
  | o :: s' =>
      let a2' := match o with Insert => a2 | _ => a2 + 1 end in
      let b2' := match o with Delete => b2 | _ => b2 + 1 end in
      if bool_decide (is_keep o = same) then blocks s' same a1 a2' b1 b2'
      else close same a1 a2 b1 b2 ++ blocks s' (is_keep o) a2 a2' b2 b2'
  end.

(** Modelled from the spec: [mdiff.allblocks] is not part of the sources.
    Section 4.3 asks for a standard line-level diff of the two contents,
    whose change hunks are the blocks of type ["!"]. *)
Definition allblocks (a b : string) (lines1 lines2 : list string)
    : list (chunk * string) :=
  blocks (script lines1 lines2) true 0 0 0 0.

End Mdiff.

(** ** The state of one file *)

(** The fields of [filefixupstate] that the core uses. *)
Record filefixupstate (L : Type) := FileFixupState {
  contents : list string;
  contentlines : list (list string);
  linelog : L;
  gap_lines : list Qc;
  chunkstats : Z * Z;
  targetlines : list string;
  fixups : list fixup;
  finalcontents : list string
}.
Arguments FileFixupState {L}.
Arguments contents {L}.
Arguments contentlines {L}.
Arguments linelog {L}.
Arguments gap_lines {L}.
Arguments chunkstats {L}.
Arguments targetlines {L}.
Arguments fixups {L}.
Arguments finalcontents {L}.

Section filefixupstate.
Context {L : Type} `{!LineLog L}.

(** [filefixupstate._alldiffchunks] *)
Definition _alldiffchunks (a b : string) (alines blines : list string)
    : list chunk :=
  fst <$> filter (λ p, p.2 = "!"%string) (Mdiff.allblocks a b alines blines).

(** [_calculate_gap_lines(linelog)] with the default [rev]. *)
Definition _calculate_gap_lines (llog : L) : list Qc :=
  let rev := max_rev llog in
  gap_lines_of (checkout_lines llog rev (Some 0)).

(** The inner loop of [_buildlinelog] over the chunks of one content. *)
Fixpoint build_chunks (llrev : Z) (chunks : list chunk) (llog : L)
    : option L :=
  match chunks with
  | [] => Some llog
  | (a1, a2, b1, b2) :: chunks' =>
      llog' ← edit_chunk llog llrev a1 a2 llrev b1 b2;
      build_chunks llrev chunks' llog'
  end.

(** The loop of [_buildlinelog] from index [i] on; [a] and [alines] are
    the previous content. *)
Fixpoint build_loop (i : Z) (items : list (string * list string))
    (llog : L) (a : string) (alines : list string) : option L :=
  match items with
  | [] => Some llog
  | (b, blines) :: items' =>
      let llrev := i * 2 + 1 in
      let chunks := _alldiffchunks a b alines blines in
      llog' ← build_chunks llrev (reverse chunks) llog;
      build_loop (i + 1) items' llog' b blines
  end.

(** [filefixupstate._buildlinelog] *)
Definition _buildlinelog (contents : list string)
    (contentlines : list (list string)) : option L :=
  build_loop 0 (zip contents contentlines) linelog_new EmptyString [].

(** [filefixupstate.__init__], from the data of [fctxs]; the [ui] is the
    default one, whose [debugflag] is off. *)
Definition init (fctxs : list string) : option (filefixupstate L) :=
  let contents := fctxs in
  let contentlines := Mdiff.splitnewlines <$> contents in
  llog ← _buildlinelog contents contentlines;
  Some (FileFixupState contents contentlines llog
          (_calculate_gap_lines llog) (0, 0) [] [] []).

(** The statement of [diffwith] that makes the last dummy line belong to
    the last actual line. *)
Definition fix_last_line (annotated : list lineinfo)
    : option (list lineinfo) :=
  if (1 <? length annotated)%nat
  then
    prev ← Py.index annotated (-2);
    last ← Py.index annotated (-1);
    Some (<[(length annotated - 1)%nat :=
             LineInfo (li_rev prev) (li_linenum prev)
                      (li_pc last) (li_deleted last)]> annotated)
  else Some annotated.

(** Body of the loop of [diffwith] over the diff chunks, on
    [(chunkstats, fixups)]. *)
Definition diff_step (gaps : list Qc) (annotated : list lineinfo)
    (acc : option (Z * Z * list fixup)) (c : chunk)
    : option (Z * Z * list fixup) :=
  '(adopted, total, fs) ← acc;
  newfixups ← _analysediffchunk gaps c annotated;
  Some (adopted + (if bool_decide (newfixups = []) then 0 else 1),
        total + 1, fs ++ newfixups).

(** [filefixupstate.diffwith] without a formatter ([fm] is [None]);
    [target] is the data of [targetfctx]. *)
Definition diffwith (st : filefixupstate L) (target : string)
    : option (filefixupstate L) :=
  a ← Py.index (contents st) (-1);
  alines ← Py.index (contentlines st) (-1);
  let b := target in
  let blines := Mdiff.splitnewlines b in
  annotated ← fix_last_line
    (checkout_lines (linelog st) (max_rev (linelog st)) None);
  if bool_decide (length annotated = (length alines + 1)%nat)
  then
    '(adopted, total, fs) ←
      fold_left (diff_step (gap_lines st) annotated)
        (_alldiffchunks a b alines blines)
        (Some ((chunkstats st).1, (chunkstats st).2, fixups st));
    Some (FileFixupState (contents st) (contentlines st) (linelog st)
            (gap_lines st) (adopted, total) blines fs (finalcontents st))
  else None.

(** [filefixupstate._getline] *)
Definition _getline (st : filefixupstate L) (lineinfo : lineinfo)
    : option string :=
  let rev := li_rev lineinfo in
  let linenum := li_linenum lineinfo in
  if Z.land rev 1 =? 0
  then Py.index (targetlines st) linenum
  else lines ← Py.index (contentlines st) (rev `div` 2);
       Py.index lines linenum.

(** [filefixupstate._checkoutlinelog] *)
Definition _checkoutlinelog (st : filefixupstate L) : option (list string) :=
  mapM (λ i,
          let rev := (i + 1) * 2 in
          let annotated := Py.slice (checkout_lines (linelog st) rev None) 0 (-1) in
          String.concat EmptyString <$> mapM (_getline st) annotated)
       (Py.range 0 (Z.of_nat (length (contents st)))).

(** The loop of [apply] over [reversed(self.fixups)]. *)
Fixpoint apply_loop (max_rev : Z) (fixups : list fixup) (llog : L)
    : option L :=
  match fixups with
  | [] => Some llog
  | f :: fixups' =>
      llog' ← edit_chunk llog max_rev (f_a1 f) (f_a2 f)
                         (f_rev f) (f_b1 f) (f_b2 f);
      apply_loop max_rev fixups' llog'
  end.

(** [filefixupstate.apply] with the default options ([edit_lines] is not
    set). *)
Definition apply (st : filefixupstate L) : option (filefixupstate L) :=
  let max_rev := max_rev (linelog st) in
  llog ← apply_loop max_rev (reverse (fixups st)) (linelog st);
  let st' := FileFixupState (contents st) (contentlines st) llog
               (gap_lines st) (chunkstats st) (targetlines st)
               (fixups st) (finalcontents st) in
  final ← _checkoutlinelog st';
  Some (FileFixupState (contents st) (contentlines st) llog
          (gap_lines st) (chunkstats st) (targetlines st)
          (fixups st) final).

End filefixupstate.

(** ** Reference descriptions used by the properties *)

(** Every deleted entry of a full checkout directly follows a retained
    one; [prev] tells whether the entry before [ls] is retained. *)
Fixpoint isolated_from (prev : bool) (ls : list lineinfo) : bool :=
  match ls with
  | [] => true
  | ln :: ls' =>
      if li_deleted ln then prev && isolated_from false ls'
      else isolated_from true ls'
  end.

Definition isolated_deletions (all_lines : list lineinfo) : bool :=
  isolated_from false all_lines.

(** The boundaries behind which a line was deleted: for every deleted
    entry, the position half a line after the last retained line in front
    of it, where [n] retained lines precede [ls]. *)
Fixpoint boundaries_from (n : Z) (ls : list lineinfo) : list Qc :=
  match ls with
  | [] => []
  | ln :: ls' =>
      if li_deleted ln then gap_after (n - 1) :: boundaries_from n ls'
      else boundaries_from (n + 1) ls'
  end.

Definition deletion_boundaries (all_lines : list lineinfo) : list Qc :=
  boundaries_from 0 all_lines.

(** The fixup that [_optimizefixups] makes of [last] and a following
    [chunk] that it merges. *)
Definition merged (last chunk : fixup) : fixup :=
  Fixup (f_rev last) (f_a1 last) (f_a2 chunk) (f_b1 last) (f_b2 chunk).

(** What the loop of [_calculate_gap_lines] maintains. *)
Definition gap_inv (st : gap_state) : Prop :=
  let '(gaps, lineno, last) := st in
  StronglySorted Qclt gaps
  ∧ Forall (λ g, ∃ k, g = gap_after k ∧ 0 ≤ k ≤ last) gaps
  ∧ -1 ≤ last ≤ lineno.

(** No recorded gap lies strictly between [a1] and [a2]. *)
Definition no_gap_inside (gap_lines : list Qc) (a1 a2 : Z) : Prop :=
  ∀ g, g ∈ gap_lines → ¬ (Qc_of_Z a1 < g ∧ g < Qc_of_Z a2)%Qc.

(** The order of [edit_chunk] calls by descending target revision, ties
    broken by descending [a1]. *)
Definition by_descending_revision (calls : list edit_call) : Prop :=
  StronglySorted
    (λ c d, c_b_rev d < c_b_rev c ∨ (c_b_rev d = c_b_rev c ∧ c_a1 d ≤ c_a1 c))
    calls.

(** The [edit_chunk] call that [apply] makes for a fixup. *)
Definition call_of (max_rev : Z) (f : fixup) : edit_call :=
  EditCall max_rev (f_a1 f) (f_a2 f) (f_rev f) (f_b1 f) (f_b2 f).

(** A content given by its lines, each ended by a newline. *)
Definition text (ls : list string) : string :=
  String.concat EmptyString
    ((λ l, (l ++ String Mdiff.newline EmptyString)%string) <$> ls).

(** The whole run on the line log of the specification: build the state
    from the contents of [fctxs], diff with [target], apply. *)
Definition absorb_file (fctxs : list string) (target : string)
    : option (filefixupstate IntLineLog.t) :=
  st ← init fctxs;
  st' ← diffwith st target;
  apply st'.

(** The same run with the fixups that [diffwith] recorded replaced by
    [fs] before [apply]. *)
Definition absorb_file_with (fctxs : list string) (target : string)
    (fs : list fixup) : option (filefixupstate IntLineLog.t) :=
  st ← init fctxs;
  st' ← diffwith st target;
  apply (FileFixupState (contents st') (contentlines st') (linelog st')
           (gap_lines st') (chunkstats st') (targetlines st') fs
           (finalcontents st')).

(** The number of lines of the old content that a script goes through, and
    the number of lines of the new content that it makes. *)
Definition consumed (s : list Mdiff.op) : Z :=
  Z.of_nat (length (filter (λ o, o ≠ Mdiff.Insert) s)).

Definition produced (s : list Mdiff.op) : Z :=
  Z.of_nat (length (filter (λ o, o ≠ Mdiff.Delete) s)).

(** The chunks of a list of blocks, as [_alldiffchunks] selects them. *)
Definition changed (bs : list (chunk * string)) : list chunk :=
  fst <$> filter (λ p, p.2 = "!"%string) bs.

(** The chunks follow each other between line [lo] and line [n] of the old
    content, and none has a negative length. *)
Fixpoint chain (lo : Z) (cs : list chunk) (n : Z) : Prop :=
  match cs with
  | [] => lo ≤ n
  | (a1, a2, b1, b2) :: cs' => lo ≤ a1 ≤ a2 ∧ b1 ≤ b2 ∧ chain a2 cs' n
  end.

(** The number of lines by which the chunks make the content grow. *)
Fixpoint growth (cs : list chunk) : Z :=
  match cs with
  | [] => 0
  | (a1, a2, b1, b2) :: cs' => (b2 - b1) - (a2 - a1) + growth cs'
  end.

(** The lines of the log that no revision has deleted. *)
Definition live (es : list IntLineLog.entry) : list IntLineLog.entry :=
  filter (λ e, IntLineLog.e_del e = None) es.

(** No line of the log is newer than [rev] or deleted from a revision
    above [rev]. *)
Definition settled (rev : Z) (es : list IntLineLog.entry) : Prop :=
  Forall (λ e, IntLineLog.e_rev e ≤ rev
               ∧ ∀ d, IntLineLog.e_del e = Some d → d ≤ rev) es.

(** ** Helpers of the stack assembly *)

From stdpp Require gmap.

Section uniq.
Context {A : Type} `{!EqDecision A, !countable.Countable A}.

(** Body of the loop of [uniq], on [(seen, result)]. *)
Definition uniq_step (st : gmap.gset A * list A) (x : A) : gmap.gset A * list A :=
  let '(seen, result) := st in
  if decide (x ∈ seen) then (seen, result)
  else ({[x]} ∪ seen, result ++ [x]).

(** [uniq] *)
Definition uniq (lst : list A) : list A :=
  (fold_left uniq_step lst (∅, [])).2.

End uniq.

(** The methods of a changeset context that [getdraftstack] calls. *)
Class ChangeCtx (C : Type) := {
  ispublic : C → bool;
  obsolete : C → bool;
  parents : C → list C;
  p1 : C → C
}.

Section getdraftstack.
Context {C : Type} `{!ChangeCtx C}.

(** The [while] loop of [getdraftstack]; [fuel] bounds the number of
    iterations, and [None] means that it did not suffice.  [limit] is
    [None] or an integer. *)
Fixpoint draftstack_loop (fuel : nat) (limit : option Z) (ctx : C)
    (result : list C) : option (list C) :=
  match fuel with
  | O => None
  | S fuel' =>
      if negb (ispublic ctx) && negb (obsolete ctx)
      then
        if match limit with
           | Some n => negb (n =? 0) && (n <=? Z.of_nat (length result))
           | None => false
           end
        then Some result
        else if (1 <? length (parents ctx))%nat then Some result
        else draftstack_loop fuel' limit (p1 ctx) (result ++ [ctx])
      else Some result
  end.

(** [getdraftstack] *)
Definition getdraftstack (fuel : nat) (headctx : C) (limit : option Z)
    : option (list C) :=
  reverse <$> draftstack_loop fuel limit headctx [].

End getdraftstack.

(** The list starts at [ctx] and every further entry is the first parent
    of the entry before it. *)
Fixpoint first_parent_chain {C : Type} `{!ChangeCtx C} (ctx : C)
    (l : list C) : Prop :=
  match l with
  | [] => True
  | c :: l' => c = ctx ∧ first_parent_chain (p1 c) l'
  end.

(** A changeset that [getdraftstack] may return: not public, not obsolete
    and not a merge. *)
Definition draft {C : Type} `{!ChangeCtx C} (c : C) : Prop :=
  ispublic c = false ∧ obsolete c = false ∧ (length (parents c) ≤ 1)%nat.

(** A linear history for examples: changeset [n] has the parent [n - 1],
    and changeset 0 is public. *)
#[local] Instance linear_history : ChangeCtx nat := {|
  ispublic n := bool_decide (n = 0%nat);
  obsolete _ := false;
  parents n := [pred n];
  p1 n := pred n
|}.

(** ** Measures of fixup lists *)

(** The number of lines that the fixups delete, and the number of target
    lines that they insert. *)
Definition deleted_lines (fs : list fixup) : Z :=
  foldr (λ f n, (f_a2 f - f_a1 f) + n) 0 fs.

Definition inserted_lines (fs : list fixup) : Z :=
  foldr (λ f n, (f_b2 f - f_b1 f) + n) 0 fs.

(** No entry of the list can be merged into the entry before it. *)
Definition unmergeable (gap_lines : list Qc) (fs : list fixup) : Prop :=
  ∀ (i : nat) (p c : fixup),
    fs !! i = Some p → fs !! S i = Some c → mergeable gap_lines p c = false.

(** The lines [a1 .. a2 - 1] that a fixup replaces are continuous. *)
Definition continuous_fixup (gap_lines : list Qc) (f : fixup) : Prop :=
  _iscontinuous gap_lines (f_a1 f) (f_a2 f - 1) = true.

(** The chunk [(a1, a2, b1, b2)] of a fixup. *)
Definition chunk_of (f : fixup) : chunk := (f_a1 f, f_a2 f, f_b1 f, f_b2 f).

(** The target lines of a fixup, when it has any, lie in [b1 .. b2]. *)
Definition targets_within (b1 b2 : Z) (f : fixup) : Prop :=
  f_b1 f ≤ f_b2 f ∧ (f_b1 f < f_b2 f → b1 ≤ f_b1 f ∧ f_b2 f ≤ b2).

(** ** Contents as lists of lines *)

(** The list [xs] with the lines [a1 .. a2 - 1] replaced by [new], for
    [0 ≤ a1 ≤ a2]. *)
Definition splice {A} (xs : list A) (a1 a2 : Z) (new : list A) : list A :=
  take (Z.to_nat a1) xs ++ new ++ drop (Z.to_nat a2) xs.

(** The chunks applied to [xs] from the last one to the first, each
    replacing the lines [a1 .. a2 - 1] by [new b1 b2]. *)
Definition patched {A} (new : Z → Z → list A) (cs : list chunk)
    (xs : list A) : list A :=
  foldr (λ (c : chunk) acc,
           let '(a1, a2, b1, b2) := c in splice acc a1 a2 (new b1 b2))
        xs cs.

(** The script [s] turns the lines [xs] into the lines [ys]. *)
Fixpoint transforms (s : list Mdiff.op) (xs ys : list string) : Prop :=
  match s with
  | [] => xs = [] ∧ ys = []
  | Mdiff.Keep :: s' =>
      match xs, ys with
      | x :: xs', y :: ys' => x = y ∧ transforms s' xs' ys'
      | _, _ => False
      end
  | Mdiff.Delete :: s' =>
      match xs with
      | x :: xs' => transforms s' xs' ys
      | [] => False
      end
  | Mdiff.Insert :: s' =>
      match ys with
      | y :: ys' => transforms s' xs ys'
      | [] => False
      end
  end.

(** The target lines of a chunk lie inside a content of [n] lines. *)
Definition targets_inside (n : Z) (c : chunk) : Prop :=
  let '(a1, a2, b1, b2) := c in 0 ≤ b1 ≤ b2 ∧ b2 ≤ n.

(** ** Contents of the revisions of a line log *)

(** The tag [(rev, linenum)] of a line of the log. *)
Definition key (e : IntLineLog.entry) : Z * Z :=
  (IntLineLog.e_rev e, IntLineLog.e_linenum e).

(** The tags of the lines of revision [r], in order. *)
Definition content_at (r : Z) (es : list IntLineLog.entry) : list (Z * Z) :=
  key <$> filter (λ e, IntLineLog.visible r e = true) es.

(** The text that [_getline] finds for a line with the tag
    [(rev, linenum)], from the lines of the contents and of the target. *)
Definition line_text (cl : list (list string)) (tl : list string)
    (tag : Z * Z) : option string :=
  if Z.land tag.1 1 =? 0 then Py.index tl tag.2
  else lines ← Py.index cl (tag.1 `div` 2); Py.index lines tag.2.

(** The lines with the tags [tags] have the texts [lines]. *)
Definition holds (cl : list (list string)) (tl : list string)
    (tags : list (Z * Z)) (lines : list string) : Prop :=
  Forall2 (λ tag s, line_text cl tl tag = Some s) tags lines.

(** [_getline] finds a text for the line [e] of the log. *)
Definition has_text (cl : list (list string)) (tl : list string)
    (e : IntLineLog.entry) : Prop :=
  is_Some (line_text cl tl (key e)).

(** ** The stack of file contexts *)

(** The methods of changeset and file contexts that [getfilestack] calls:
    [path in ctx], [ctx[path]], and the source path of [fctx.renamed()]
    when the file was renamed or copied. *)
Class FileCtx (C F : Type) := {
  has_path : C → string → bool;
  filectx : C → string → F;
  renamed : F → option string
}.

Section getfilestack.
Context {C F : Type} `{!ChangeCtx C, !FileCtx C F}.
Context `{!EqDecision C, !countable.Countable C}.
Context `{!EqDecision F, !countable.Countable F}.

(** The [for] loop of [getfilestack] over [reversed(stack)], on
    [(path, fctxs, fctxmap, pctx)]; it returns the state at the [break] or
    at the end of the stack.  A file context is [Some fctx]; [None] is the
    dummy [emptyfilecontext()]. *)
Fixpoint filestack_loop (seenfctxs : gmap.gset F) (ctxs : list C)
    (path : string) (fctxs : list (option F)) (fctxmap : gmap.gmap C F)
    (pctx : option C)
    : string * list (option F) * gmap.gmap C F * option C :=
  match ctxs with
  | [] => (path, fctxs, fctxmap, pctx)
  | ctx :: ctxs' =>
      if negb (has_path ctx path) then (path, fctxs, fctxmap, Some ctx)
      else
        let fctx := filectx ctx path in
        let fctxs := fctxs ++ [Some fctx] in
        if decide (fctx ∈ seenfctxs) then (path, fctxs, fctxmap, None)
        else
          let fctxmap := <[ctx := fctx]> fctxmap in
          match renamed fctx with
          | Some path' =>
              if has_path ctx path'
              then (path', fctxs, fctxmap, Some (p1 ctx))
              else filestack_loop seenfctxs ctxs' path' fctxs fctxmap pctx
          | None => filestack_loop seenfctxs ctxs' path fctxs fctxmap pctx
          end
  end.

(** [getfilestack]; [None] is the failed [assert stack]. *)
Definition getfilestack (stack : list C) (path : string)
    (seenfctxs : gmap.gset F) : option (list (option F) * gmap.gmap C F) :=
  match head stack, last stack with
  | Some bottom, Some top =>
      if negb (has_path top path) then Some ([], ∅)
      else
        let '(path', fctxs, fctxmap, pctx) :=
          filestack_loop seenfctxs (reverse stack) path [] ∅
            (Some (p1 bottom)) in
        let fctxs :=
          match pctx with
          | Some pctx =>
              fctxs ++ [if has_path pctx path' then Some (filectx pctx path')
                        else None]
          | None => fctxs
          end in
        Some (uniq (reverse fctxs), fctxmap)
  | _, _ => None
  end.

End getfilestack.

(** ** Patches of the working copy *)

(** A comparison function of a total order. *)
Class TotalCompare {A : Type} (cmp : A → A → comparison) := {
  compare_eq x y : cmp x y = Eq → x = y;
  compare_refl x : cmp x x = Eq;
  compare_opp x y : cmp y x = CompOpp (cmp x y);
  compare_lt_trans x y z : cmp x y = Lt → cmp y z = Lt → cmp x z = Lt
}.

(** Python's order on lists: lexicographic, by the order of the
    elements. *)
Fixpoint lex_compare {A} (cmp : A → A → comparison) (xs ys : list A)
    : comparison :=
  match xs, ys with
  | [], [] => Eq
  | [], _ :: _ => Lt
  | _ :: _, [] => Gt
  | x :: xs', y :: ys' =>
      match cmp x y with
      | Eq => lex_compare cmp xs' ys'
      | c => c
      end
  end.

(** A patch [(a1, a2, blines)], the second component of what
    [_parsechunk] returns. *)
Definition patch : Type := Z * Z * list string.

(** Python's order on the tuples [(a1, a2, blines)]; the lines are byte
    strings, compared byte by byte. *)
Definition patch_compare (p q : patch) : comparison :=
  match p.1.1 ?= q.1.1 with
  | Eq =>
      match p.1.2 ?= q.1.2 with
      | Eq => lex_compare String.compare p.2 q.2
      | c => c
      end
  | c => c
  end.

Definition patch_ge (p q : patch) : Prop := patch_compare p q ≠ Lt.

#[global] Instance patch_ge_dec : RelDecision patch_ge.
Proof.
  intros p q. unfold patch_ge.
  destruct (patch_compare p q); [left|right|left]; congruence.
Defined.

(** [lines[a1:a2] = blines]: the bounds are clamped like those of a
    slice, and a stop in front of the start is the start. *)
Definition set_slice {A} (lines : list A) (a1 a2 : Z) (blines : list A)
    : list A :=
  let start := Py.bound lines a1 in
  let stop := Z.max start (Py.bound lines a2) in
  take (Z.to_nat start) lines ++ blines ++ drop (Z.to_nat stop) lines.

(** The patches of one file in [overlaydiffcontext]:
    [patches.sort(reverse=True)] and the loop over the sorted patches. *)
Definition apply_patches (patches : list patch) (lines : list string)
    : list string :=
  fold_left (λ lines (p : patch), set_slice lines p.1.1 p.1.2 p.2)
    (merge_sort patch_ge patches) lines.

(** What [_parsechunk] returns for a hunk: [(path, (a1, a2, blines))], or
    [(None, None)] for a hunk of another type. *)
Definition parsed : Type := option string * option patch.

(** Body of the first loop of [overlaydiffcontext], on [patchmap]. *)
Definition patchmap_step (patchmap : gmap.gmap string (list patch))
    (c : parsed) : gmap.gmap string (list patch) :=
  match c with
  | (Some path, Some info) =>
      if decide (path = EmptyString) then patchmap
      else <[path := default [] (patchmap !! path) ++ [info]]> patchmap
  | _ => patchmap
  end.

(** [overlaydiffcontext], from the parsed hunks to [memworkingcopy];
    [data path] is the content of [ctx[path]], or [None] when the path is
    not in [ctx]. *)
Definition overlay_workingcopy (data : string → option string)
    (chunks : list parsed) : gmap.gmap string string :=
  fin_maps.map_imap
    (λ path patches,
       match data path with
       | Some content =>
           if decide (patches = []) then None
           else Some (String.concat EmptyString
                        (apply_patches patches (Mdiff.splitnewlines content)))
       | None => None
       end)
    (fold_left patchmap_step chunks ∅).

(** The patches that the hunks give for [path]. *)
Definition patches_of (path : string) (chunks : list parsed) : list patch :=
  omap (λ c : parsed,
          match c with
          | (Some p, Some info) =>
              if decide (p = path ∧ p ≠ EmptyString) then Some info else None
          | _ => None
          end) chunks.

(** The patches follow each other inside [lo .. n], each starting behind
    the start of the one before. *)
Fixpoint patch_chain (lo : Z) (ps : list patch) (n : Z) : Prop :=
  match ps with
  | [] => lo ≤ n
  | p :: ps' =>
      lo ≤ p.1.1 ≤ p.1.2 ∧ patch_chain (Z.max p.1.2 (p.1.1 + 1)) ps' n
  end.

(** ** Fixups applied to a content *)

(** The fixups applied to [xs] from the last one to the first, each
    replacing the lines [a1 .. a2 - 1] by [new f]. *)
Definition applied {A} (new : fixup → list A) (fs : list fixup)
    (xs : list A) : list A :=
  foldr (λ f acc, splice acc (f_a1 f) (f_a2 f) (new f)) xs fs.

(** Each fixup ends in front of the start of every later one, and starts
    in front of it. *)
Definition separated (fs : list fixup) : Prop :=
  StronglySorted (λ f g, f_a2 f ≤ f_a1 g ∧ f_a1 f < f_a1 g) fs.

(** The line [e] is part of revision [a_rev] exactly when no revision
    deleted it. *)
Definition clean (a_rev : Z) (e : IntLineLog.entry) : Prop :=
  IntLineLog.visible a_rev e = bool_decide (IntLineLog.e_del e = None).

(** The chunks start at line [lo] or behind it, and every chunk starts at
    least one line behind the end of the chunk before it. *)
Fixpoint gapped (lo : Z) (cs : list chunk) : Prop :=
  match cs with
  | [] => True
  | (a1, a2, _, _) :: cs' => lo ≤ a1 ∧ gapped (a2 + 1) cs'
  end.

(** * Properties *)

(** ** Half-integer positions *)

Section half_integers.
Implicit Types n m : Z.

Lemma gap_after_Q n :
  Qeq (this (gap_after n)) (Qplus (inject_Z n) (Qmake 1 2)).
Proof.
  change (this (gap_after n))
    with (Qred (Qplus (inject_Z n) (Qred (Qmake 1 2)))).
  rewrite !Qred_correct. reflexivity.
Qed.

Lemma gap_after_lt_int n m : (gap_after n < Qc_of_Z m)%Qc ↔ n < m.
Proof.
  unfold Qclt. rewrite gap_after_Q.
  change (this (Qc_of_Z m)) with (inject_Z m).
  unfold Qlt, Qplus, inject_Z. cbn. lia.
Qed.

Lemma int_lt_gap_after n m : (Qc_of_Z m < gap_after n)%Qc ↔ m ≤ n.
Proof.
  unfold Qclt. rewrite gap_after_Q.
  change (this (Qc_of_Z m)) with (inject_Z m).
  unfold Qlt, Qplus, inject_Z. cbn. lia.
Qed.

Lemma int_le_gap_after n m : (Qc_of_Z m ≤ gap_after n)%Qc ↔ m ≤ n.
Proof.
  unfold Qcle. rewrite gap_after_Q.
  change (this (Qc_of_Z m)) with (inject_Z m).
  unfold Qle, Qplus, inject_Z. cbn. lia.
Qed.

Lemma gap_after_lt n m : (gap_after n < gap_after m)%Qc ↔ n < m.
Proof.
  unfold Qclt. rewrite !gap_after_Q.
  unfold Qlt, Qplus, inject_Z. cbn. lia.
Qed.

Lemma gap_after_le n m : (gap_after n ≤ gap_after m)%Qc ↔ n ≤ m.
Proof.
  unfold Qcle. rewrite !gap_after_Q.
  unfold Qle, Qplus, inject_Z. cbn. lia.
Qed.

End half_integers.

(** ** The gap lines are strictly increasing half-integers *)

Lemma gap_step_inv st ln : gap_inv st → gap_inv (gap_step st ln).
Proof.
  destruct st as [[gaps lineno] last]. unfold gap_inv, gap_step.
  intros (Hs & Hk & Hl).
  destruct (li_deleted ln && negb (lineno =? last) && (0 <=? lineno)) eqn:E.
  - apply andb_prop in E as [E E3]. apply andb_prop in E as [_ E2].
    apply negb_true_iff, Z.eqb_neq in E2. apply Z.leb_le in E3.
    split; [|split; [|lia]].
    + apply StronglySorted_app; split_and!; [|done|repeat constructor].
      intros x1 x2 Hx1 ->%list_elem_of_singleton.
      rewrite Forall_forall in Hk. destruct (Hk _ Hx1) as (k & -> & ?).
      apply gap_after_lt. lia.
    + apply Forall_app. split.
      * eapply Forall_impl; [done|]. intros g (k & -> & ?). exists k. split; [done|lia].
      * constructor; [|done]. exists lineno. split; [done|lia].
  - split; [done|split; [done|lia]].
Qed.

Lemma gap_fold_inv all_lines st :
  gap_inv st → gap_inv (fold_left gap_step all_lines st).
Proof.
  revert st. induction all_lines as [|ln ls IH]; intros st Hst; [done|].
  cbn. apply IH, gap_step_inv, Hst.
Qed.

Lemma gap_lines_sorted all_lines : StronglySorted Qclt (gap_lines_of all_lines).
Proof.
  unfold gap_lines_of.
  pose proof (gap_fold_inv all_lines ([], -1, -1)) as H.
  destruct (fold_left gap_step all_lines ([], -1, -1)) as [[gaps lineno] last].
  apply H. split; [constructor|split; [constructor|lia]].
Qed.

Lemma gap_lines_half all_lines :
  Forall (λ g, ∃ k, g = gap_after k ∧ 0 ≤ k) (gap_lines_of all_lines).
Proof.
  unfold gap_lines_of.
  pose proof (gap_fold_inv all_lines ([], -1, -1)) as H.
  destruct (fold_left gap_step all_lines ([], -1, -1)) as [[gaps lineno] last].
  destruct H as (_ & H & _); [split; [constructor|split; [constructor|lia]]|].
  eapply Forall_impl; [done|]. intros g (k & -> & ?). exists k. split; [done|lia].
Qed.

(** ** Binary search *)

Lemma strongly_sorted_lookup (l : list Qc) (i j : nat) (z y : Qc) :
  StronglySorted Qclt l → (i < j)%nat →
  l !! i = Some z → l !! j = Some y → (z < y)%Qc.
Proof.
  intros Hs. revert i j.
  induction Hs as [|h t Ht IH Hall]; intros i j Hij Hz Hy; [done|].
  destruct j as [|j]; [lia|]. destruct i as [|i]; cbn in *.
  - assert (z = h) as -> by congruence. rewrite Forall_forall in Hall.
    apply Hall. eapply list_elem_of_lookup_2, Hy.
  - eapply (IH i j); [lia|done..].
Qed.

Section bisect.
Variables (a : list Qc) (x : Qc).
Hypothesis a_sorted : StronglySorted Qclt a.

Lemma sorted_lookup_lt (i j : nat) :
  (i < j < length a)%nat → (a !!! i < a !!! j)%Qc.
Proof using a_sorted.
  intros [Hij Hj].
  destruct (lookup_lt_is_Some_2 a j Hj) as [y Hy].
  destruct (lookup_lt_is_Some_2 a i ltac:(lia)) as [z Hz].
  rewrite (list_lookup_total_correct _ _ _ Hy), (list_lookup_total_correct _ _ _ Hz).
  eapply strongly_sorted_lookup; [exact a_sorted|exact Hij|exact Hz|exact Hy].
Qed.

Lemma sorted_lookup_le (i j : nat) :
  (i ≤ j < length a)%nat → (a !!! i ≤ a !!! j)%Qc.
Proof using a_sorted.
  intros [Hij Hj]. destruct (decide (i = j)) as [->|].
  - apply Qcle_refl.
  - apply Qclt_le_weak, sorted_lookup_lt. lia.
Qed.

(** The loop keeps everything below [lo] smaller than [x] and nothing
    from [hi] on smaller than [x], and ends between the two. *)
Lemma bisect_loop_spec (lo hi : nat) :
  (lo ≤ hi ≤ length a)%nat →
  (∀ i, (i < lo)%nat → (a !!! i < x)%Qc) →
  (∀ i, (hi ≤ i < length a)%nat → ¬ (a !!! i < x)%Qc) →
  let r := bisect_loop a x lo hi in
  (r ≤ length a)%nat
  ∧ (∀ i, (i < r)%nat → (a !!! i < x)%Qc)
  ∧ (∀ i, (r ≤ i < length a)%nat → ¬ (a !!! i < x)%Qc).
Proof using a_sorted.
  funelim (bisect_loop a x lo hi); intros Hb Hlo Hhi; cbn zeta.
  - split; [lia|]. split; [done|].
    intros i Hi. apply Hhi. lia.
  - assert ((lo + hi) / 2 < hi ∧ lo ≤ (lo + hi) / 2)%nat as [??]
      by (split; [apply Nat.Div0.div_lt_upper_bound
                 | apply Nat.div_le_lower_bound]; lia).
    apply H; [lia| |done].
    intros i Hi.
    destruct (decide (i = (lo + hi) / 2)%nat) as [->|]; [done|].
    eapply Qclt_trans; [|done].
    apply sorted_lookup_lt. lia.
  - assert ((lo + hi) / 2 < hi ∧ lo ≤ (lo + hi) / 2)%nat as [??]
      by (split; [apply Nat.Div0.div_lt_upper_bound
                 | apply Nat.div_le_lower_bound]; lia).
    apply H; [lia|done|].
    intros i Hi Hlt. apply n.
    eapply Qcle_lt_trans; [|done].
    apply sorted_lookup_le. lia.
Qed.

Lemma bisect_left_spec :
  let r := bisect_left a x in
  (r ≤ length a)%nat
  ∧ (∀ i, (i < r)%nat → (a !!! i < x)%Qc)
  ∧ (∀ i, (r ≤ i < length a)%nat → ¬ (a !!! i < x)%Qc).
Proof using a_sorted.
  apply bisect_loop_spec; [lia| |]; intros i Hi; lia.
Qed.

End bisect.

(** ** Continuity *)

Lemma Qclt_irrefl (x : Qc) : ¬ (x < x)%Qc.
Proof. apply (irreflexivity Qclt). Qed.

Lemma iscontinuous_no_gap (gap_lines : list Qc) (a1 a2 : Z) :
  StronglySorted Qclt gap_lines →
  Forall (λ g, ∃ k, g = gap_after k) gap_lines →
  _iscontinuous gap_lines a1 a2 = true ↔ no_gap_inside gap_lines a1 a2.
Proof.
  intros Hs Hh. unfold _iscontinuous, no_gap_inside.
  destruct (Z.leb_spec a2 a1) as [Hle|Hlt].
  { split; [|done]. intros _ g _ [H1 H2].
    assert (Qc_of_Z a1 < Qc_of_Z a2)%Qc as H by (eapply Qclt_trans; done).
    apply Z2Qc_inj_lt in H. lia. }
  destruct (bisect_left_spec gap_lines (Qc_of_Z a1) Hs) as (Hr & Hbelow & Habove).
  set (r := bisect_left gap_lines (Qc_of_Z a1)) in *.
  destruct (Nat.leb_spec (length gap_lines) r) as [Hlen|Hlen].
  { split; [|done]. intros _ g Hg [H1 _].
    apply list_elem_of_lookup in Hg as [i Hi].
    pose proof (lookup_lt_Some _ _ _ Hi).
    specialize (Hbelow i ltac:(lia)).
    rewrite (list_lookup_total_correct _ _ _ Hi) in Hbelow.
    apply (Qclt_irrefl g). eapply Qclt_trans; [exact Hbelow|exact H1]. }
  rewrite bool_decide_eq_true. split.
  - intros Hge g Hg [H1 H2].
    apply list_elem_of_lookup in Hg as [i Hi].
    pose proof (lookup_lt_Some _ _ _ Hi).
    rewrite <- (list_lookup_total_correct _ _ _ Hi) in H1, H2.
    destruct (decide (i < r)%nat) as [Hir|Hir].
    + specialize (Hbelow i Hir).
      apply (Qclt_irrefl (Qc_of_Z a1)). eapply Qclt_trans; [exact H1|exact Hbelow].
    + apply (Qclt_irrefl (gap_lines !!! i)). eapply Qclt_le_trans; [exact H2|].
      eapply Qcle_trans; [exact Hge|].
      apply sorted_lookup_le; [done|lia].
  - intros Hno.
    destruct (lookup_lt_is_Some_2 gap_lines r Hlen) as [g Hg].
    rewrite (list_lookup_total_correct _ _ _ Hg).
    rewrite Forall_forall in Hh.
    destruct (Hh g) as [k ->]; [eapply list_elem_of_lookup_2, Hg|].
    specialize (Habove r ltac:(lia)).
    rewrite (list_lookup_total_correct _ _ _ Hg) in Habove.
    rewrite gap_after_lt_int in Habove.
    apply int_le_gap_after.
    destruct (decide (a2 ≤ k)) as [|Hn]; [done|]. exfalso.
    apply (Hno (gap_after k)); [eapply list_elem_of_lookup_2, Hg|].
    split; [apply int_lt_gap_after|apply gap_after_lt_int]; lia.
Qed.

(** C3.  For the gap lines that [_calculate_gap_lines] computes from any
    full checkout [all_lines] of the line log (a strictly increasing list
    of half-integers), [_iscontinuous(a1, a2)] is [True] exactly when no
    recorded gap lies strictly between [a1] and [a2]; in particular it is
    [True] whenever [a1 >= a2]. *)
Theorem iscontinuous_iff_no_gap_between (all_lines : list lineinfo) (a1 a2 : Z) :
  let gap_lines := gap_lines_of all_lines in
  StronglySorted Qclt gap_lines
  ∧ Forall (λ g, ∃ k, g = gap_after k) gap_lines
  ∧ (_iscontinuous gap_lines a1 a2 = true
     ↔ ∀ g, g ∈ gap_lines → ¬ (Qc_of_Z a1 < g ∧ g < Qc_of_Z a2)%Qc)
  ∧ (a2 ≤ a1 → _iscontinuous gap_lines a1 a2 = true).
Proof.
  cbn zeta.
  assert (Forall (λ g, ∃ k, g = gap_after k) (gap_lines_of all_lines)) as Hh.
  { eapply Forall_impl; [apply gap_lines_half|]. intros g (k & -> & _). eauto. }
  split; [apply gap_lines_sorted|]. split; [done|]. split.
  - apply iscontinuous_no_gap; [apply gap_lines_sorted|done].
  - intros Hle. unfold _iscontinuous.
    destruct (Z.leb_spec a2 a1); [done|lia].
Qed.

(** ** The gap computation *)

Lemma gap_fold_isolated (ls : list lineinfo) (prev : bool)
    (gaps : list Qc) (lineno last : Z) :
  isolated_from prev ls = true →
  -1 ≤ lineno → last ≤ lineno →
  (prev = true → last < lineno ∧ 0 ≤ lineno) →
  (fold_left gap_step ls (gaps, lineno, last)).1.1
  = gaps ++ boundaries_from (lineno + 1) ls.
Proof.
  revert prev gaps lineno last.
  induction ls as [|ln ls IH]; intros prev gaps lineno last Hiso H1 H2 Hp; cbn.
  { by rewrite app_nil_r. }
  cbn in Hiso. destruct (li_deleted ln) eqn:Hd; cbn [andb].
  - apply andb_prop in Hiso as [-> Hiso]. destruct Hp as [Hlt Hge]; [done|].
    rewrite (proj2 (Z.eqb_neq lineno last)) by lia.
    rewrite (proj2 (Z.leb_le 0 lineno)) by lia. cbn.
    rewrite (IH false) by (done || lia).
    rewrite <- app_assoc. cbn. do 3 f_equal. lia.
  - rewrite (IH true) by (done || lia). done.
Qed.

(** C6 (as amended).  No gap is ever recorded in front of the first line:
    for every full checkout, every recorded position is [k + 0.5] for a
    line number [k >= 0].  When every deleted entry of the full checkout
    directly follows a retained one, the recorded gaps are exactly the
    positions [k + 0.5] behind the retained line [k] that precedes a
    deleted entry, in order, including a deletion at the end of the
    content. *)
Theorem gap_lines_of_isolated_deletions (all_lines : list lineinfo) :
  Forall (λ g, ∃ k, g = gap_after k ∧ 0 ≤ k) (gap_lines_of all_lines)
  ∧ (isolated_deletions all_lines = true →
     gap_lines_of all_lines = deletion_boundaries all_lines).
Proof.
  split; [apply gap_lines_half|]. intros Hiso.
  unfold gap_lines_of, deletion_boundaries.
  rewrite (gap_fold_isolated all_lines false) by (done || lia). done.
Qed.

Lemma gap_lines_of_isolated_deletions_witness :
  isolated_deletions [LineInfo 1 0 0 false; LineInfo 1 1 1 true;
                      LineInfo 3 0 2 false; LineInfo 3 1 3 true;
                      LineInfo 0 0 4 false] = true
  ∧ gap_lines_of [LineInfo 1 0 0 false; LineInfo 1 1 1 true;
                  LineInfo 3 0 2 false; LineInfo 3 1 3 true;
                  LineInfo 0 0 4 false]
    = [gap_after 0; gap_after 1].
Proof.
  split; [reflexivity|].
  exact (proj2 (gap_lines_of_isolated_deletions
    [LineInfo 1 0 0 false; LineInfo 1 1 1 true;
     LineInfo 3 0 2 false; LineInfo 3 1 3 true;
     LineInfo 0 0 4 false]) eq_refl).
Defined.

(** C6 (counterexample).  A deleted line in front of the first retained
    line records no gap; and a run of three deleted lines between two
    retained ones records two gaps, not one. *)
Lemma gap_lines_of_leading_deletion :
  gap_lines_of [LineInfo 1 0 0 true; LineInfo 3 0 1 false;
                LineInfo 0 0 2 false] = []
  ∧ gap_lines_of [LineInfo 1 0 0 false; LineInfo 1 1 1 true;
                  LineInfo 1 2 2 true; LineInfo 1 3 3 true;
                  LineInfo 1 4 4 false; LineInfo 0 0 5 false]
    = [gap_after 0; gap_after 1].
Proof. split; reflexivity. Qed.

(** ** The optimizer *)

Lemma optimizefixups_snoc (gaps : list Qc) (fs : list fixup) (c : fixup) :
  _optimizefixups gaps (fs ++ [c])
  = let '(result, current) :=
      optimize_step gaps (fold_left (optimize_step gaps) fs ([], nochunk)) c in
    pushchunk result current.
Proof. unfold _optimizefixups. by rewrite fold_left_app. Qed.

(** After a non-empty list of fixups with proper revisions, the chunk that
    is being collected is a proper one. *)
Lemma optimize_fold_current (gaps : list Qc) (fs : list fixup)
    (result : list fixup) (current : fixup) :
  Forall (λ f, 0 ≤ f_rev f) fs →
  (fs = [] → 0 ≤ f_rev current) →
  0 ≤ f_rev (fold_left (optimize_step gaps) fs (result, current)).2.
Proof.
  revert result current.
  induction fs as [|f fs IH]; intros result current Hfs Hc; [by apply Hc|].
  apply Forall_cons in Hfs as [Hf Hfs]. cbn [fold_left].
  destruct (optimize_step gaps (result, current) f) as [result' current'] eqn:Hstep.
  apply IH; [done|]. intros _.
  unfold optimize_step in Hstep.
  destruct (mergeable gaps current f) eqn:Hm; inversion Hstep; subst; [|done].
  cbn. unfold mergeable in Hm. repeat (apply andb_prop in Hm as [Hm ?]).
  assert (f_rev f = f_rev current) by lia. lia.
Qed.

(** C7.  After a non-empty list [fs] of fixups, [_optimizefixups] has
    collected an entry [last]; a further fixup [c] is merged into it (the
    entry then ends where [c] ends) exactly when [c] targets the revision
    of [last], starts where [last] ends on both sides ([a1 == a2 of last],
    [b1 == b2 of last]), and no recorded gap lies at the boundary in front
    of line [a1]; otherwise [c] becomes a new entry behind [last]. *)
Theorem optimizefixups_merges_adjacent (all_lines : list lineinfo)
    (fs : list fixup) (c : fixup) :
  let gaps := gap_lines_of all_lines in
  fs ≠ [] →
  Forall (λ f, 0 ≤ f_rev f) (fs ++ [c]) →
  ∃ result last,
    _optimizefixups gaps fs = result ++ [last]
    ∧ ((f_rev c = f_rev last ∧ f_a1 c = f_a2 last ∧ f_b1 c = f_b2 last
        ∧ no_gap_inside gaps (Z.max (f_a1 c - 1) 0) (f_a1 c))
       → _optimizefixups gaps (fs ++ [c]) = result ++ [merged last c])
    ∧ (¬ (f_rev c = f_rev last ∧ f_a1 c = f_a2 last ∧ f_b1 c = f_b2 last
          ∧ no_gap_inside gaps (Z.max (f_a1 c - 1) 0) (f_a1 c))
       → _optimizefixups gaps (fs ++ [c]) = result ++ [last; c]).
Proof.
  intros gaps Hne Hrev. apply Forall_app in Hrev as [Hfs Hc].
  apply Forall_inv in Hc.
  pose proof (optimize_fold_current gaps fs [] nochunk Hfs) as Hcur.
  rewrite optimizefixups_snoc. unfold _optimizefixups.
  destruct (fold_left (optimize_step gaps) fs ([], nochunk))
    as [result last] eqn:Hfold.
  cbn in Hcur. specialize (Hcur ltac:(done)).
  exists result, last.
  assert (pushchunk result last = result ++ [last]) as Hpush.
  { unfold pushchunk. destruct (Z.eqb_spec (f_rev last) (-1)); [lia|done]. }
  split; [done|].
  assert (mergeable gaps last c = true
          ↔ f_rev c = f_rev last ∧ f_a1 c = f_a2 last ∧ f_b1 c = f_b2 last
            ∧ no_gap_inside gaps (Z.max (f_a1 c - 1) 0) (f_a1 c)) as Hm.
  { unfold mergeable. rewrite !andb_true_iff, !Z.eqb_eq.
    rewrite iscontinuous_no_gap.
    - tauto.
    - apply gap_lines_sorted.
    - eapply Forall_impl; [apply gap_lines_half|]. intros g (k & -> & _). eauto. }
  unfold optimize_step. split.
  - intros Hyes. apply Hm in Hyes. rewrite Hyes.
    unfold pushchunk, merged. cbn.
    destruct (Z.eqb_spec (f_rev last) (-1)); [lia|done].
  - intros Hno. destruct (mergeable gaps last c) eqn:E.
    { exfalso. apply Hno, Hm. done. }
    rewrite Hpush. unfold pushchunk.
    destruct (Z.eqb_spec (f_rev c) (-1)); [lia|].
    by rewrite <- app_assoc.
Qed.

Lemma optimizefixups_merges_adjacent_witness :
  ∃ result last,
    _optimizefixups (gap_lines_of [LineInfo 3 0 0 false; LineInfo 3 1 1 false;
                                   LineInfo 0 0 2 false])
                    [Fixup 4 0 1 0 1] = result ++ [last]
    ∧ _optimizefixups (gap_lines_of [LineInfo 3 0 0 false; LineInfo 3 1 1 false;
                                     LineInfo 0 0 2 false])
                      ([Fixup 4 0 1 0 1] ++ [Fixup 4 1 2 1 2])
      = result ++ [merged last (Fixup 4 1 2 1 2)].
Proof.
  destruct (optimizefixups_merges_adjacent
              [LineInfo 3 0 0 false; LineInfo 3 1 1 false; LineInfo 0 0 2 false]
              [Fixup 4 0 1 0 1] (Fixup 4 1 2 1 2))
    as (result & last & Hfs & Hyes & _).
  - done.
  - repeat constructor; cbn; lia.
  - exists result, last. split; [exact Hfs|]. apply Hyes.
    assert (last = Fixup 4 0 1 0 1) as ->.
    { vm_compute in Hfs. destruct result as [|? [|]]; inversion Hfs; done. }
    cbn. split_and!; [done..|]. intros g Hg. vm_compute in Hg. inversion Hg.
Defined.

(** ** The classifier *)

Lemma set_list_constant (rev : Z) (l : list Z) :
  l ≠ [] → Forall (λ r, r = rev) l → Py.set_list l = [rev].
Proof.
  unfold Py.set_list. induction l as [|x l IH]; intros Hne Hall; [done|].
  apply Forall_cons in Hall as [-> Hall]. cbn.
  destruct l as [|y l].
  - destruct (decide_rel elem_of rev []) as [H|H]; [by apply elem_of_nil in H|done].
  - destruct (decide_rel elem_of rev (y :: l)) as [H|H].
    + apply IH; done.
    + exfalso. apply H. apply Forall_cons in Hall as [-> _]. left.
Qed.

Lemma optimizefixups_nil (gaps : list Qc) : _optimizefixups gaps [] = [].
Proof. reflexivity. Qed.

Lemma optimizefixups_single (gaps : list Qc) (f : fixup) :
  0 ≤ f_rev f → _optimizefixups gaps [f] = [f].
Proof.
  intros Hf. unfold _optimizefixups, optimize_step, mergeable. cbn.
  rewrite (proj2 (Z.eqb_neq (f_rev f) (-1))) by lia.
  rewrite !andb_false_r. cbn. unfold pushchunk.
  by rewrite (proj2 (Z.eqb_neq (f_rev f) (-1))) by lia.
Qed.

(** C1.  When the lines involved in a hunk [(a1, a2, b1, b2)] all
    originate from one revision [rev] and [_iscontinuous(a1, a2 - 1)]
    holds, [_analysediffchunk] returns exactly the one fixup
    [(rev + 1, a1, a2, b1, b2)] if [rev > 1], and no fixup if [rev] is the
    oldest revision. *)
Theorem analysediffchunk_single_revision (gaps : list Qc)
    (annotated involved : list lineinfo) (a1 a2 b1 b2 rev : Z) :
  involved_lines annotated a1 a2 = Some involved →
  involved ≠ [] →
  Forall (λ r, li_rev r = rev) involved →
  _iscontinuous gaps a1 (a2 - 1) = true →
  (1 < rev →
   _analysediffchunk gaps (a1, a2, b1, b2) annotated
   = Some [Fixup (rev + 1) a1 a2 b1 b2])
  ∧ (rev ≤ 1 → _analysediffchunk gaps (a1, a2, b1, b2) annotated = Some []).
Proof.
  intros Hinv Hne Hall Hcont.
  assert (involved_revs involved = [rev]) as Hrevs.
  { unfold involved_revs. apply set_list_constant.
    - by destruct involved.
    - by apply Forall_fmap. }
  unfold _analysediffchunk, new_fixups.
  rewrite Hinv. cbn [mbind option_bind]. rewrite Hrevs, Hcont. cbn.
  split; intros Hrev.
  - rewrite (proj2 (Z.ltb_lt 1 rev)) by lia. cbn.
    by rewrite optimizefixups_single by (cbn; lia).
  - by rewrite (proj2 (Z.ltb_ge 1 rev)) by lia.
Qed.

Lemma analysediffchunk_single_revision_witness :
  _analysediffchunk [] (1, 2, 1, 2)
    [LineInfo 1 0 0 false; LineInfo 3 1 1 false; LineInfo 1 2 2 false;
     LineInfo 1 2 3 false]
  = Some [Fixup 4 1 2 1 2].
Proof.
  apply (proj1 (analysediffchunk_single_revision []
    [LineInfo 1 0 0 false; LineInfo 3 1 1 false; LineInfo 1 2 2 false;
     LineInfo 1 2 3 false] [LineInfo 3 1 1 false] 1 2 1 2 3
    eq_refl ltac:(done) ltac:(by repeat constructor) eq_refl)).
  done.
Defined.

Lemma index_nonneg {A} (l : list A) (i : Z) :
  0 ≤ i → Py.index l i = l !! Z.to_nat i.
Proof. intros Hi. unfold Py.index. by rewrite (proj2 (Z.leb_le 0 i)). Qed.

Lemma slice_inside {A} (l : list A) (a b : Z) :
  0 ≤ a ≤ b → b ≤ Z.of_nat (length l) →
  Py.slice l a b = take (Z.to_nat (b - a)) (drop (Z.to_nat a) l).
Proof.
  intros Hab Hb. unfold Py.slice, Py.bound.
  rewrite (proj2 (Z.ltb_ge a 0)), (proj2 (Z.ltb_ge b 0)) by lia.
  by rewrite !Z.min_l by lia.
Qed.

Lemma slice_lookup {A} (l : list A) (a b : Z) (k : nat) (x : A) :
  0 ≤ a ≤ b → b ≤ Z.of_nat (length l) →
  Py.slice l a b !! k = Some x →
  a ≤ a + Z.of_nat k < b ∧ Py.index l (a + Z.of_nat k) = Some x.
Proof.
  intros Hab Hb. rewrite slice_inside by done. intros Hk.
  apply lookup_take_Some in Hk as [Hk Hlt].
  rewrite lookup_drop in Hk. split; [lia|].
  rewrite index_nonneg by lia. rewrite <- Hk. f_equal. lia.
Qed.

Lemma mapM_all_nil {A B} (f : A → option (list B)) (l : list A) :
  Forall (λ x, f x = Some []) l → mjoin <$> mapM f l = Some [].
Proof.
  induction 1 as [|x l Hx _ IH]; [done|].
  cbn. rewrite Hx. cbn.
  destruct (mapM f l) as [k|]; [|done]. cbn in *. exact IH.
Qed.

(** C2.  A hunk whose deleted lines, or for a pure insertion whose
    neighbouring lines, all originate from revision 1 (the oldest
    snapshot) produces no fixup. *)
Theorem analysediffchunk_oldest_snapshot (gaps : list Qc)
    (annotated : list lineinfo) (a1 a2 b1 b2 : Z) :
  0 ≤ a1 ≤ a2 →
  a2 < Z.of_nat (length annotated) →
  (∀ i r,
     a1 ≤ i < a2 ∨ (a1 = a2 ∧ (i = a2 ∨ i = Z.max 0 (a1 - 1))) →
     Py.index annotated i = Some r → li_rev r = 1) →
  _analysediffchunk gaps (a1, a2, b1, b2) annotated = Some [].
Proof.
  intros Ha Hlen Hold.
  unfold _analysediffchunk, new_fixups, involved_lines.
  destruct (decide (a1 = a2)) as [<-|Hne].
  - (* a pure insertion *)
    rewrite slice_inside by lia. rewrite Z.sub_diag. cbn [Z.to_nat take].
    rewrite bool_decide_eq_true_2 by done.
    rewrite bool_decide_eq_false_2 by (intros ->; cbn in Hlen; lia). cbn [negb andb].
    assert (∀ i, i = a1 ∨ i = Z.max 0 (a1 - 1) →
                 ∃ r, Py.index annotated i = Some r ∧ li_rev r = 1) as Hnear.
    { intros i Hi.
      destruct (lookup_lt_is_Some_2 annotated (Z.to_nat i) ltac:(lia)) as [r Hr].
      exists r. rewrite index_nonneg by lia. split; [done|].
      apply (Hold i); [right; split; [done|lia]|by rewrite index_nonneg by lia]. }
    assert (∃ nearby,
              mapM (Py.index annotated) (Py.set_list [a1; Z.max 0 (a1 - 1)])
              = Some nearby ∧ Forall (λ r, li_rev r = 1) nearby)
      as (nearby & -> & Hnearby).
    { destruct (Hnear a1 ltac:(by left)) as (r1 & Hr1 & ?).
      destruct (Hnear (Z.max 0 (a1 - 1)) ltac:(by right)) as (r2 & Hr2 & ?).
      unfold Py.set_list. cbn [remove_dups].
      destruct (decide_rel elem_of (Z.max 0 (a1 - 1)) []) as [E|_];
        [by apply elem_of_nil in E|].
      destruct (decide_rel elem_of a1 [Z.max 0 (a1 - 1)]); cbn;
        rewrite ?Hr1, ?Hr2; cbn; eexists; (split; [done|]);
        repeat constructor; done. }
    cbn [mbind option_bind].
    replace (filter (λ r, li_rev r ≠ 1) nearby) with (@nil lineinfo).
    2:{ symmetry. induction Hnearby as [|r l Hr _ IH]; [done|].
        rewrite filter_cons_False by (by intros ?). done. }
    cbn. unfold Py.range. rewrite Z.sub_diag. cbn.
    by destruct (_ || _).
  - (* lines are deleted *)
    assert (Py.slice annotated a1 a2 ≠ []) as Hslice.
    { rewrite slice_inside by lia. intros Hnil.
      apply (f_equal length) in Hnil. rewrite length_take, length_drop in Hnil.
      cbn in Hnil. lia. }
    rewrite bool_decide_eq_false_2 by done. cbn [andb mbind option_bind].
    assert (involved_revs (Py.slice annotated a1 a2) = [1]) as ->.
    { unfold involved_revs. apply set_list_constant.
      - by destruct (Py.slice annotated a1 a2).
      - apply Forall_fmap, Forall_lookup. intros k r Hk. cbn.
        apply slice_lookup in Hk as [Hk Hr]; [|lia..].
        eapply Hold; [left; exact Hk|exact Hr]. }
    cbn [length Nat.eqb andb lookup list_lookup].
    destruct (_iscontinuous gaps a1 (a2 - 1)); [done|].
    destruct ((a2 - a1 =? b2 - b1) || (b1 =? b2)); [|done].
    rewrite mapM_all_nil; [done|].
    apply Forall_forall. intros i Hi.
    apply elem_of_seqZ in Hi.
    destruct (lookup_lt_is_Some_2 annotated (Z.to_nat i) ltac:(lia)) as [r Hr].
    unfold line_fixup. rewrite index_nonneg, Hr by lia. cbn.
    rewrite (proj2 (Z.ltb_ge 1 (li_rev r))); [done|].
    rewrite (Hold i r); [lia|left; lia|by rewrite index_nonneg by lia].
Qed.

Lemma analysediffchunk_oldest_snapshot_witness :
  _analysediffchunk [gap_after 1] (2, 3, 2, 3)
    [LineInfo 1 0 0 false; LineInfo 3 1 1 false; LineInfo 1 2 3 false;
     LineInfo 1 2 4 false]
  = Some [].
Proof.
  apply analysediffchunk_oldest_snapshot.
  - lia.
  - cbn. lia.
  - intros i r Hi. assert (i = 2) as -> by lia. cbn. by intros [= <-].
Defined.

(** ** The applier *)

Lemma apply_loop_recorder (max_rev : Z) (fs : list fixup) (r : recorder) :
  ∃ r', apply_loop max_rev fs r = Some r'
        ∧ rec_calls r' = rec_calls r ++ (call_of max_rev <$> fs).
Proof.
  revert r. induction fs as [|f fs IH]; intros r; cbn.
  - exists r. by rewrite app_nil_r.
  - destruct (IH (Recorder (Z.max (rec_max_rev r) (f_rev f))
                           (rec_calls r ++ [call_of max_rev f])))
      as (r' & Hr' & Hcalls).
    exists r'. split; [exact Hr'|].
    rewrite Hcalls. cbn. by rewrite <- app_assoc.
Qed.

Lemma checkoutlinelog_recorder (st : filefixupstate recorder) :
  is_Some (_checkoutlinelog st).
Proof.
  unfold _checkoutlinelog. apply mapM_is_Some, Forall_forall.
  intros i _. cbn. done.
Qed.

(** C5 (as amended).  [apply] goes through the fixup list in reverse list
    order, whatever the target revisions are, and calls [edit_chunk] once
    for every fixup, each time with the maximum revision that the log had
    before the first edit. *)
Theorem apply_edits_in_reverse_order (st : filefixupstate recorder) :
  ∃ st',
    apply st = Some st'
    ∧ rec_calls (linelog st')
      = rec_calls (linelog st)
          ++ (call_of (max_rev (linelog st)) <$> reverse (fixups st)).
Proof.
  unfold apply.
  destruct (apply_loop_recorder (max_rev (linelog st)) (reverse (fixups st))
              (linelog st)) as (r' & -> & Hcalls).
  cbn [mbind option_bind].
  match goal with |- context [_checkoutlinelog ?s] =>
    destruct (checkoutlinelog_recorder s) as [final ->] end.
  cbn. eexists. split; [done|]. exact Hcalls.
Qed.

(** C5 (counterexample).  With the fixups [(6, 0, 1, 0, 1)] and
    [(4, 1, 2, 1, 2)], [apply] edits revision 4 before revision 6. *)
Lemma apply_not_by_descending_revision :
  ∃ st',
    apply (FileFixupState [] [] (Recorder 5 []) [] (0, 0) []
             [Fixup 6 0 1 0 1; Fixup 4 1 2 1 2] [])
    = Some st'
    ∧ rec_calls (linelog st') = [EditCall 5 1 2 4 1 2; EditCall 5 0 1 6 0 1]
    ∧ ¬ by_descending_revision (rec_calls (linelog st')).
Proof.
  eexists. split; [reflexivity|]. split; [reflexivity|].
  cbn. unfold by_descending_revision. intros H.
  apply StronglySorted_inv in H as [_ H]. apply Forall_inv in H. cbn in H. lia.
Qed.

(** The fixup list of the counterexample is what [diffwith] records for
    the stack of an empty content, ["A\n"] and ["Z\nA\n"], and the target
    ["Z'\nA'\n"]. *)
Example diffwith_records_crossing_fixups :
  (st ← init (L := IntLineLog.t) [EmptyString; text ["A"]; text ["Z"; "A"]];
   st' ← diffwith st (text ["Z'"; "A'"]);
   Some (fixups st'))
  = Some [Fixup 6 0 1 0 1; Fixup 4 1 2 1 2].
Proof. vm_compute. reflexivity. Qed.

(** ** The concrete scenario *)

(** C9 (counterexample).  For the snapshots ["a\nb\nc\n"] and
    ["a\nB\nc\n"] and the target ["a\nB\nC\n"], the final content of the
    second snapshot is not the target. *)
Lemma scenario_change_not_absorbed :
  ∃ st,
    absorb_file [text ["a"; "b"; "c"]; text ["a"; "B"; "c"]]
                (text ["a"; "B"; "C"]) = Some st
    ∧ finalcontents st !! 1%nat ≠ Some (text ["a"; "B"; "C"]).
Proof. eexists. split; [vm_compute; reflexivity|]. cbn. discriminate. Qed.

(** C9 (as amended).  For the snapshots ["a\nb\nc\n"] and ["a\nB\nc\n"] and
    the target ["a\nB\nC\n"], the changed line ["c"] belongs to the oldest
    snapshot, [diffwith] records no fixup for the one chunk, and after
    [apply] both final contents are the snapshots unchanged. *)
Theorem scenario_leaves_snapshots_unchanged :
  ∃ st,
    absorb_file [text ["a"; "b"; "c"]; text ["a"; "B"; "c"]]
                (text ["a"; "B"; "C"]) = Some st
    ∧ fixups st = []
    ∧ chunkstats st = (0, 1)
    ∧ finalcontents st = [text ["a"; "b"; "c"]; text ["a"; "B"; "c"]].
Proof. eexists. split; [vm_compute; reflexivity|]. done. Qed.

(** ** The optimizer on a log with a leading deletion *)

(** C4 (failing input).  The stack of an empty content, ["P\nA\nX\nB\n"]
    and ["A\nB\nC\n"], and the target ["A'\nB'\nC'\n"]: the classifier
    makes one fixup per line, the optimizer merges the first two although
    line ["X"] was deleted between them, and the final content of the
    second snapshot differs from the one that the unoptimized fixups
    give. *)
Theorem optimizer_changes_final_contents :
  let stack := [EmptyString; text ["P"; "A"; "X"; "B"]; text ["A"; "B"; "C"]] in
  let target := text ["A'"; "B'"; "C'"] in
  let unoptimized := [Fixup 4 0 1 0 1; Fixup 4 1 2 1 2; Fixup 6 2 3 2 3] in
  ∃ st annotated optimized direct,
    init (L := IntLineLog.t) stack = Some st
    ∧ li_deleted <$> checkout_lines (linelog st) (max_rev (linelog st)) (Some 0)
      = [true; false; true; false; false; false]
    ∧ gap_lines st = [gap_after 1]
    ∧ fix_last_line (checkout_lines (linelog st) (max_rev (linelog st)) None)
      = Some annotated
    ∧ _alldiffchunks (text ["A"; "B"; "C"]) target
        (Mdiff.splitnewlines (text ["A"; "B"; "C"]))
        (Mdiff.splitnewlines target)
      = [(0, 3, 0, 3)]
    ∧ new_fixups (gap_lines st) (0, 3, 0, 3) annotated = Some unoptimized
    ∧ _optimizefixups (gap_lines st) unoptimized
      = [Fixup 4 0 2 0 2; Fixup 6 2 3 2 3]
    ∧ absorb_file stack target = Some optimized
    ∧ fixups optimized = _optimizefixups (gap_lines st) unoptimized
    ∧ absorb_file_with stack target unoptimized = Some direct
    ∧ finalcontents optimized
      = [EmptyString; text ["P"; "A'"; "B'"; "X"]; text ["A'"; "B'"; "C'"]]
    ∧ finalcontents direct
      = [EmptyString; text ["P"; "A'"; "X"; "B'"]; text ["A'"; "B'"; "C'"]].
Proof.
  cbn zeta. eexists _, _, _, _.
  split; [vm_compute; reflexivity|].
  split; [reflexivity|].
  split; [reflexivity|].
  split; [vm_compute; reflexivity|].
  split; [vm_compute; reflexivity|].
  split; [reflexivity|].
  split; [reflexivity|].
  split; [vm_compute; reflexivity|].
  split; [reflexivity|].
  split; [vm_compute; reflexivity|].
  split; reflexivity.
Qed.

(** ** Target revisions of recorded fixups *)

Lemma index_elem_of {A} (l : list A) (i : Z) (x : A) :
  Py.index l i = Some x → x ∈ l.
Proof.
  unfold Py.index. repeat case_match; try done;
    intros Hx; eapply list_elem_of_lookup_2, Hx.
Qed.

Lemma slice_elem_of {A} (l : list A) (a b : Z) (x : A) :
  x ∈ Py.slice l a b → x ∈ l.
Proof.
  unfold Py.slice. intros Hx.
  apply (subseteq_take _ _) in Hx. by apply (subseteq_drop _ _) in Hx.
Qed.

Lemma mapM_index_elem_of {A} (l : list A) (idx : list Z) (k : list A) :
  mapM (Py.index l) idx = Some k → Forall (λ x, x ∈ l) k.
Proof.
  intros Hk%mapM_Some_1.
  eapply Forall2_Forall_r; [exact Hk|].
  apply Forall_forall. intros i _ y. apply index_elem_of.
Qed.

Lemma involved_lines_elem_of (annotated involved : list lineinfo)
    (a1 a2 : Z) (r : lineinfo) :
  involved_lines annotated a1 a2 = Some involved →
  r ∈ involved → r ∈ annotated.
Proof.
  unfold involved_lines. case_match.
  - destruct (mapM _ _) as [nearby|] eqn:Hnear; [|done]. cbn.
    intros [= <-] [_ Hr]%list_elem_of_filter.
    apply mapM_index_elem_of in Hnear.
    rewrite Forall_forall in Hnear. by apply Hnear.
  - intros [= <-]. apply slice_elem_of.
Qed.

(** The revision of every new fixup is one above the revision of an
    annotated line that does not belong to the first revision. *)
Lemma new_fixups_revisions (gaps : list Qc) (c : chunk)
    (annotated : list lineinfo) (fs : list fixup) :
  new_fixups gaps c annotated = Some fs →
  Forall (λ f, ∃ r, r ∈ annotated ∧ 1 < li_rev r ∧ f_rev f = li_rev r + 1) fs.
Proof.
  destruct c as [[[a1 a2] b1] b2]. unfold new_fixups.
  destruct (involved_lines annotated a1 a2) as [involved|] eqn:Hinv; [|done].
  cbn [mbind option_bind]. case_match.
  - destruct (involved_revs involved !! 0%nat) as [rev|] eqn:Hrev; [|done].
    cbn [mbind option_bind].
    apply list_elem_of_lookup_2 in Hrev. unfold involved_revs, Py.set_list in Hrev.
    apply elem_of_remove_dups, list_elem_of_fmap in Hrev as (r & -> & Hr).
    destruct (Z.ltb_spec 1 (li_rev r)); intros [= <-]; [|done].
    repeat constructor. exists r.
    split; [eapply involved_lines_elem_of; done|done].
  - case_match; [|by intros [= <-]].
    destruct (mapM _ _) as [k|] eqn:Hk; [|done]. cbn. intros [= <-].
    apply mapM_Some_1 in Hk.
    apply Forall_forall. intros f (l & Hf & Hl)%list_elem_of_join.
    apply list_elem_of_lookup in Hl as [n Hn].
    destruct (Forall2_lookup_r _ _ _ _ _ Hk Hn) as (i & _ & Hi).
    unfold line_fixup in Hi.
    destruct (Py.index annotated i) as [r|] eqn:Hr; [|done]. cbn in Hi.
    destruct (Z.ltb_spec 1 (li_rev r)); injection Hi as <-.
    + apply list_elem_of_singleton in Hf as ->. exists r.
      split; [eapply index_elem_of, Hr|done].
    + by apply elem_of_nil in Hf.
Qed.

(** The optimizer only outputs revisions that it was given. *)
Lemma optimizefixups_revisions (P : Z → Prop) (gaps : list Qc)
    (fs : list fixup) :
  Forall (λ f, P (f_rev f)) fs →
  Forall (λ f, P (f_rev f)) (_optimizefixups gaps fs).
Proof.
  intros Hfs. unfold _optimizefixups.
  assert (∀ result current,
            Forall (λ f, P (f_rev f)) result →
            (f_rev current = -1 ∨ P (f_rev current)) →
            Forall (λ f, P (f_rev f))
              (fold_left (optimize_step gaps) fs (result, current)).1
            ∧ (f_rev (fold_left (optimize_step gaps) fs (result, current)).2 = -1
               ∨ P (f_rev (fold_left (optimize_step gaps) fs (result, current)).2)))
    as Hfold.
  { induction Hfs as [|f fs Hf _ IH]; intros result current Hres Hcur; [done|].
    cbn [fold_left].
    destruct (optimize_step gaps (result, current) f)
      as [result' current'] eqn:Hstep.
    unfold optimize_step in Hstep.
    destruct (mergeable gaps current f) eqn:Hm; injection Hstep as <- <-.
    - apply IH; [done|]. cbn. done.
    - apply IH; [|by right]. unfold pushchunk.
      destruct (Z.eqb_spec (f_rev current) (-1)); [done|].
      apply Forall_app. split; [done|]. constructor; [|done].
      by destruct Hcur. }
  specialize (Hfold [] nochunk ltac:(constructor) ltac:(by left)).
  destruct (fold_left _ _ _) as [result current]. cbn in Hfold.
  destruct Hfold as [Hres Hcur]. unfold pushchunk.
  destruct (Z.eqb_spec (f_rev current) (-1)); [done|].
  apply Forall_app. split; [done|]. constructor; [|done].
  by destruct Hcur.
Qed.

(** *** What an edit keeps true of the lines of the log *)

Section edit_preserves.
Import IntLineLog.
Variable P : entry → Prop.

Lemma edit_walk_Forall (a_rev a1 a2 b_rev k : Z) (new es : list entry) :
  (∀ e, P e → P (delete_from b_rev e)) →
  Forall P new → Forall P es →
  Forall P (edit_walk a_rev a1 a2 b_rev new k es).
Proof.
  intros Hdel Hnew Hes. revert k.
  induction Hes as [|e es He _ IH]; intros k; cbn.
  - by destruct (k =? a1).
  - destruct (visible a_rev e).
    + apply Forall_app. split; [by destruct (k =? a1)|].
      constructor; [|apply IH].
      destruct ((a1 <=? k) && (k <? a2)); [by apply Hdel|done].
    + constructor; [done|apply IH].
Qed.

Lemma edit_Forall (l l' : t) (a_rev a1 a2 b_rev b1 b2 : Z) :
  (∀ e, P e → P (delete_from b_rev e)) →
  (∀ j, P (Entry b_rev j None)) →
  edit l a_rev a1 a2 b_rev b1 b2 = Some l' →
  Forall P (entries l) → Forall P (entries l').
Proof.
  intros Hdel Hnew. unfold edit. case_match; [done|].
  intros [= <-] Hes. cbn. apply edit_walk_Forall; [done| |done].
  unfold inserted. apply Forall_fmap, Forall_forall. intros j _. apply Hnew.
Qed.

End edit_preserves.

(** Every line of a built log comes from a content revision, which is
    odd. *)
Lemma build_chunks_odd (llrev : Z) (chunks : list chunk) (l l' : IntLineLog.t) :
  Z.odd llrev = true →
  build_chunks llrev chunks l = Some l' →
  Forall (λ e, Z.odd (IntLineLog.e_rev e) = true) (IntLineLog.entries l) →
  Forall (λ e, Z.odd (IntLineLog.e_rev e) = true) (IntLineLog.entries l').
Proof.
  intros Hodd. revert l.
  induction chunks as [|[[[a1 a2] b1] b2] chunks IH]; intros l; cbn.
  { by intros [= <-]. }
  destruct (IntLineLog.edit l llrev a1 a2 llrev b1 b2) as [l1|] eqn:Hedit; [|done].
  cbn. intros Hrest Hl. apply (IH l1 Hrest).
  eapply (edit_Forall _ l l1); [| |exact Hedit|exact Hl]; done.
Qed.

Lemma build_loop_odd (i : Z) (items : list (string * list string))
    (l l' : IntLineLog.t) (a : string) (alines : list string) :
  build_loop i items l a alines = Some l' →
  Forall (λ e, Z.odd (IntLineLog.e_rev e) = true) (IntLineLog.entries l) →
  Forall (λ e, Z.odd (IntLineLog.e_rev e) = true) (IntLineLog.entries l').
Proof.
  revert i l a alines.
  induction items as [|[b blines] items IH]; intros i l a alines; cbn.
  { by intros [= <-]. }
  destruct (build_chunks _ _ l) as [l1|] eqn:Hchunks; [|done].
  cbn. intros Hrest Hl. apply (IH _ _ _ _ Hrest).
  eapply build_chunks_odd; [|exact Hchunks|exact Hl].
  rewrite Z.add_comm, Z.mul_comm. apply Z.odd_add_mul_2.
Qed.

(** A line of a checkout is the dummy line or a line of the log. *)
Lemma checkout_elem_of (l : IntLineLog.t) (rev : Z) (start : option Z)
    (r : lineinfo) :
  r ∈ IntLineLog.checkout l rev start →
  li_rev r = 0
  ∨ ∃ e, e ∈ IntLineLog.entries l ∧ li_rev r = IntLineLog.e_rev e.
Proof.
  unfold IntLineLog.checkout. intros [Hr| ->%list_elem_of_singleton]%elem_of_app.
  - right. apply list_elem_of_fmap in Hr as ([pc e] & -> & He).
    apply list_elem_of_filter in He as [_ He].
    apply elem_of_lookup_imap in He as (n & e' & [= -> ->] & He).
    exists e'. split; [eapply list_elem_of_lookup_2, He|done].
  - by left.
Qed.

Lemma fix_last_line_Forall (P : Z → Prop) (annotated annotated' : list lineinfo) :
  fix_last_line annotated = Some annotated' →
  Forall (λ r, P (li_rev r)) annotated →
  Forall (λ r, P (li_rev r)) annotated'.
Proof.
  unfold fix_last_line. case_match; [|by intros [= <-]].
  destruct (Py.index annotated (-2)) as [prev|] eqn:Hprev; [|done].
  destruct (Py.index annotated (-1)) as [last|]; [|done].
  cbn. intros [= <-] Hall. apply Forall_insert; [done|]. cbn.
  rewrite Forall_forall in Hall. eapply Hall, index_elem_of, Hprev.
Qed.

Lemma diff_fold_None (gaps : list Qc) (annotated : list lineinfo)
    (cs : list chunk) :
  fold_left (diff_step gaps annotated) cs None = None.
Proof. induction cs as [|c cs IH]; [done|]. exact IH. Qed.

Lemma diff_fold_revisions (P : Z → Prop) (gaps : list Qc)
    (annotated : list lineinfo) (cs : list chunk)
    (adopted total adopted' total' : Z) (fs fs' : list fixup) :
  (∀ r, r ∈ annotated → 1 < li_rev r → P (li_rev r + 1)) →
  fold_left (diff_step gaps annotated) cs (Some (adopted, total, fs))
  = Some (adopted', total', fs') →
  Forall (λ f, P (f_rev f)) fs →
  Forall (λ f, P (f_rev f)) fs'.
Proof.
  intros HP. revert adopted total fs.
  induction cs as [|c cs IH]; intros adopted total fs; cbn [fold_left].
  { by intros [= _ _ <-]. }
  unfold diff_step at 2. cbn [mbind option_bind].
  unfold _analysediffchunk.
  destruct (new_fixups gaps c annotated) as [new|] eqn:Hnew; cbn.
  2:{ by rewrite diff_fold_None. }
  intros Hfold Hfs. eapply IH; [exact Hfold|].
  apply Forall_app. split; [done|].
  apply optimizefixups_revisions.
  eapply Forall_impl; [eapply new_fixups_revisions, Hnew|].
  intros f (r & Hr & Hlt & ->). cbn. by apply HP.
Qed.

(** C10.  Every fixup that [diffwith] records for a state built by
    [__init__] targets an even revision that is at least 4: the lines of
    the built log have odd revisions, and the classifier only emits the
    revision of a line plus one, for a line whose revision exceeds 1. *)
Theorem diffwith_targets_edit_layers (fctxs : list string) (target : string)
    (st st' : filefixupstate IntLineLog.t) :
  init fctxs = Some st →
  diffwith st target = Some st' →
  Forall (λ f, Z.even (f_rev f) = true ∧ 4 ≤ f_rev f) (fixups st').
Proof.
  unfold init. destruct (_buildlinelog _ _) as [llog|] eqn:Hbuild;
    cbn [mbind option_bind]; [|done].
  intros [= <-].
  assert (Forall (λ e, Z.odd (IntLineLog.e_rev e) = true)
            (IntLineLog.entries llog)) as Hodd.
  { eapply build_loop_odd; [exact Hbuild|]. constructor. }
  unfold diffwith.
  cbn [contents contentlines linelog gap_lines chunkstats fixups finalcontents].
  destruct (Py.index fctxs (-1)) as [a|]; cbn [mbind option_bind]; [|done].
  destruct (Py.index (Mdiff.splitnewlines <$> fctxs) (-1)) as [alines|];
    cbn [mbind option_bind]; [|done].
  destruct (fix_last_line _) as [annotated|] eqn:Hfix;
    cbn [mbind option_bind]; [|done].
  case_match; [|done].
  destruct (fold_left _ _ _) as [[[adopted total] fs]|] eqn:Hfold;
    cbn [mbind option_bind]; [|done].
  intros [= <-]. cbn [fixups].
  eapply (diff_fold_revisions (λ rev, Z.even rev = true ∧ 4 ≤ rev));
    [|exact Hfold|constructor].
  intros r Hr Hlt.
  assert (Forall (λ r, 1 < li_rev r → Z.odd (li_rev r) = true) annotated)
    as Hall.
  { eapply (fix_last_line_Forall (λ rev, 1 < rev → Z.odd rev = true));
      [exact Hfix|].
    apply Forall_forall. intros r' [H0|(e & He & ->)]%checkout_elem_of; [lia|].
    intros _. rewrite Forall_forall in Hodd. by apply Hodd. }
  rewrite Forall_forall in Hall. pose proof (Hall r Hr) as Hr_odd.
  specialize (Hr_odd Hlt). split.
  - by rewrite Z.add_1_r, Z.even_succ.
  - apply Z.odd_spec in Hr_odd as [m Hm]. lia.
Qed.

Lemma diffwith_targets_edit_layers_witness :
  ∃ st st',
    init [text ["a"; "b"]; text ["a"; "B"]] = Some st
    ∧ diffwith st (text ["a"; "C"]) = Some st'
    ∧ fixups st' = [Fixup 4 1 2 1 2]
    ∧ Forall (λ f, Z.even (f_rev f) = true ∧ 4 ≤ f_rev f) (fixups st').
Proof.
  eexists _, _.
  split; [vm_compute; reflexivity|].
  split; [vm_compute; reflexivity|].
  split; [reflexivity|].
  eapply (diffwith_targets_edit_layers
            [text ["a"; "b"]; text ["a"; "B"]] (text ["a"; "C"]));
    vm_compute; reflexivity.
Defined.

(** ** The line diff *)

Lemma script_same (xs : list string) :
  Mdiff.script xs xs = replicate (length xs) Mdiff.Keep.
Proof.
  induction xs as [|x xs IH]; [done|].
  cbn. rewrite decide_True by done. by rewrite IH.
Qed.

Lemma blocks_keep (n : nat) (a1 a2 b1 b2 : Z) :
  changed (Mdiff.blocks (replicate n Mdiff.Keep) true a1 a2 b1 b2) = [].
Proof.
  revert a2 b2. induction n as [|n IH]; intros a2 b2; cbn.
  - unfold Mdiff.close. by destruct ((a1 =? a2) && (b1 =? b2)).
  - apply IH.
Qed.

Lemma alldiffchunks_same (a b : string) (ls : list string) :
  _alldiffchunks a b ls ls = [].
Proof.
  unfold _alldiffchunks, Mdiff.allblocks. rewrite script_same.
  apply blocks_keep.
Qed.

Lemma script_nil_l (ys : list string) :
  Mdiff.script [] ys = (λ _, Mdiff.Insert) <$> ys.
Proof. by destruct ys. Qed.

Lemma script_nil_r (xs : list string) :
  Mdiff.script xs [] = (λ _, Mdiff.Delete) <$> xs.
Proof. by destruct xs. Qed.

Lemma script_cons (x y : string) (xs ys : list string) :
  Mdiff.script (x :: xs) (y :: ys)
  = if decide (x = y) then Mdiff.Keep :: Mdiff.script xs ys
    else
      let d := Mdiff.Delete :: Mdiff.script xs (y :: ys) in
      let i := Mdiff.Insert :: Mdiff.script (x :: xs) ys in
      if (Mdiff.cost d <=? Mdiff.cost i)%nat then d else i.
Proof. reflexivity. Qed.

Lemma consumed_cons (o : Mdiff.op) (s : list Mdiff.op) :
  consumed (o :: s)
  = (match o with Mdiff.Insert => 0 | _ => 1 end) + consumed s.
Proof.
  unfold consumed. destruct o;
    rewrite ?filter_cons_True by done;
    rewrite ?filter_cons_False by (by intros ?); cbn [length]; lia.
Qed.

Lemma produced_cons (o : Mdiff.op) (s : list Mdiff.op) :
  produced (o :: s)
  = (match o with Mdiff.Delete => 0 | _ => 1 end) + produced s.
Proof.
  unfold produced. destruct o;
    rewrite ?filter_cons_True by done;
    rewrite ?filter_cons_False by (by intros ?); cbn [length]; lia.
Qed.

Lemma script_consumed_produced (xs ys : list string) :
  consumed (Mdiff.script xs ys) = Z.of_nat (length xs)
  ∧ produced (Mdiff.script xs ys) = Z.of_nat (length ys).
Proof.
  revert ys. induction xs as [|x xs IHx]; intros ys.
  - rewrite script_nil_l. induction ys as [|y ys [IH1 IH2]]; [done|].
    rewrite fmap_cons, consumed_cons, produced_cons, IH1, IH2. cbn [length]. lia.
  - induction ys as [|y ys IHy].
    + rewrite script_nil_r. clear IHx. revert x.
      induction xs as [|z xs IH]; intros x; [done|].
      destruct (IH z) as [IH1 IH2].
      rewrite fmap_cons, consumed_cons, produced_cons, IH1, IH2. cbn [length]. lia.
    + rewrite script_cons. cbn zeta.
      destruct (decide (x = y)) as [_|_]; [|case_match].
      * destruct (IHx ys) as [H1 H2].
        rewrite consumed_cons, produced_cons, H1, H2. cbn [length]. lia.
      * destruct (IHx (y :: ys)) as [H1 H2].
        rewrite consumed_cons, produced_cons, H1, H2. cbn [length]. lia.
      * destruct IHy as [H1 H2].
        rewrite consumed_cons, produced_cons, H1, H2. cbn [length]. lia.
Qed.

Lemma chain_bounds (lo : Z) (cs : list chunk) (n : Z) :
  chain lo cs n → lo ≤ n.
Proof.
  revert lo. induction cs as [|[[[a1 a2] b1] b2] cs IH]; intros lo; cbn; [done|].
  intros (? & ? & H%IH). lia.
Qed.

Lemma chain_weaken (lo lo' : Z) (cs : list chunk) (n n' : Z) :
  chain lo cs n → lo' ≤ lo → n ≤ n' → chain lo' cs n'.
Proof.
  revert lo lo'. induction cs as [|[[[a1 a2] b1] b2] cs IH]; intros lo lo'; cbn.
  - lia.
  - intros (? & ? & H) ??. split; [lia|]. split; [done|].
    eapply IH; [exact H|lia|done].
Qed.

Lemma chain_snoc (lo : Z) (cs : list chunk) (a1 a2 b1 b2 n : Z) :
  chain lo (cs ++ [(a1, a2, b1, b2)]) n
  ↔ chain lo cs a1 ∧ a1 ≤ a2 ∧ b1 ≤ b2 ∧ a2 ≤ n.
Proof.
  revert lo. induction cs as [|[[[c1 c2] d1] d2] cs IH]; intros lo; cbn.
  - lia.
  - rewrite IH. tauto.
Qed.

Lemma growth_snoc (cs : list chunk) (a1 a2 b1 b2 : Z) :
  growth (cs ++ [(a1, a2, b1, b2)]) = growth cs + ((b2 - b1) - (a2 - a1)).
Proof.
  induction cs as [|[[[c1 c2] d1] d2] cs IH]; cbn; [lia|]. rewrite IH. lia.
Qed.

(** The chunks of a script follow each other inside the old content and
    account for the difference of the two lengths. *)
Lemma blocks_chain (s : list Mdiff.op) (same : bool) (a1 a2 b1 b2 : Z) :
  a1 ≤ a2 → b1 ≤ b2 →
  (same = true → a2 - a1 = b2 - b1) →
  chain a1 (changed (Mdiff.blocks s same a1 a2 b1 b2)) (a2 + consumed s)
  ∧ growth (changed (Mdiff.blocks s same a1 a2 b1 b2))
    = (b2 - b1) - (a2 - a1) + produced s - consumed s.
Proof.
  assert (∀ same a1 a2 b1 b2,
            a1 ≤ a2 → b1 ≤ b2 → (same = true → a2 - a1 = b2 - b1) →
            ∀ cs n, chain a2 cs n →
            chain a1 (changed (Mdiff.close same a1 a2 b1 b2) ++ cs) n
            ∧ growth (changed (Mdiff.close same a1 a2 b1 b2) ++ cs)
              = (b2 - b1) - (a2 - a1) + growth cs) as Hclose.
  { clear. intros same a1 a2 b1 b2 Ha Hb Hsame cs n Hcs.
    unfold Mdiff.close, changed.
    destruct ((a1 =? a2) && (b1 =? b2)) eqn:E.
    - apply andb_prop in E as [->%Z.eqb_eq ->%Z.eqb_eq]. cbn.
      split; [done|lia].
    - destruct same.
      + rewrite filter_cons_False by (cbn; discriminate). cbn.
        split; [|specialize (Hsame eq_refl); lia].
        eapply chain_weaken; [exact Hcs|lia|lia].
      + rewrite filter_cons_True by done. cbn.
        split; [|lia]. split; [lia|]. split; [done|done]. }
  revert same a1 a2 b1 b2.
  induction s as [|o s IH]; intros same a1 a2 b1 b2 Ha Hb Hsame.
  - cbn [Mdiff.blocks]. unfold consumed, produced. cbn.
    destruct (Hclose same a1 a2 b1 b2 Ha Hb Hsame [] a2 ltac:(cbn; lia))
      as [H1 H2].
    rewrite app_nil_r in H1, H2. split; [by rewrite Z.add_0_r|].
    rewrite H2. cbn. lia.
  - cbn [Mdiff.blocks].
    rewrite consumed_cons, produced_cons. case_bool_decide as Hk.
    + destruct (IH same a1
                  (match o with Mdiff.Insert => a2 | _ => a2 + 1 end) b1
                  (match o with Mdiff.Delete => b2 | _ => b2 + 1 end))
        as [H1 H2].
      * destruct o; lia.
      * destruct o; lia.
      * intros ->. destruct o; try done. specialize (Hsame eq_refl). lia.
      * split.
        -- eapply chain_weaken; [exact H1|lia|destruct o; lia].
        -- rewrite H2. destruct o; lia.
    + destruct (IH (Mdiff.is_keep o) a2
                  (match o with Mdiff.Insert => a2 | _ => a2 + 1 end) b2
                  (match o with Mdiff.Delete => b2 | _ => b2 + 1 end))
        as [H1 H2].
      * destruct o; lia.
      * destruct o; lia.
      * destruct o; try done. lia.
      * unfold changed. rewrite filter_app, fmap_app.
        destruct (Hclose same a1 a2 b1 b2 Ha Hb Hsame _ _ H1) as [H3 H4].
        unfold changed in H3, H4. split.
        -- eapply chain_weaken; [exact H3|lia|destruct o; lia].
        -- rewrite H4. unfold changed in H2. rewrite H2. destruct o; lia.
Qed.

Lemma alldiffchunks_chain (a b : string) (alines blines : list string) :
  chain 0 (_alldiffchunks a b alines blines) (Z.of_nat (length alines))
  ∧ growth (_alldiffchunks a b alines blines)
    = Z.of_nat (length blines) - Z.of_nat (length alines).
Proof.
  destruct (script_consumed_produced alines blines) as [Hc Hp].
  destruct (blocks_chain (Mdiff.script alines blines) true 0 0 0 0) as [H1 H2];
    [lia..|].
  unfold _alldiffchunks, Mdiff.allblocks. fold (changed (Mdiff.blocks
    (Mdiff.script alines blines) true 0 0 0 0)).
  rewrite Hc in H1. rewrite Hc, Hp in H2. split; [exact H1|]. rewrite H2. lia.
Qed.

(** ** Building the log *)

Lemma settled_visible (rev a_rev : Z) (es : list IntLineLog.entry) :
  settled rev es → rev ≤ a_rev →
  Forall (λ e, IntLineLog.visible a_rev e
               = bool_decide (IntLineLog.e_del e = None)) es.
Proof.
  intros Hs Hle. eapply Forall_impl; [exact Hs|].
  intros [r n d] [Hr Hd]. unfold IntLineLog.visible. cbn in *.
  rewrite (proj2 (Z.leb_le r a_rev)) by lia. destruct d as [d|]; cbn.
  - specialize (Hd d eq_refl). transitivity false; [|done].
    apply Z.ltb_ge. lia.
  - done.
Qed.

Lemma settled_live_visible (rev a_rev : Z) (es : list IntLineLog.entry) :
  settled rev es → rev ≤ a_rev →
  filter (λ e, IntLineLog.visible a_rev e = true) es = live es.
Proof.
  intros Hs Hle. pose proof (settled_visible rev a_rev es Hs Hle) as Hv.
  unfold live. induction Hv as [|e es He _ IH]; [done|].
  apply Forall_cons in Hs as [_ Hs]. specialize (IH Hs).
  destruct (decide (IntLineLog.e_del e = None)) as [Hd|Hd].
  - rewrite !filter_cons_True; [by rewrite IH|done|].
    by rewrite He, bool_decide_eq_true_2.
  - rewrite !filter_cons_False; [done|done|].
    by rewrite He, bool_decide_eq_false_2.
Qed.

Lemma live_app (es1 es2 : list IntLineLog.entry) :
  live (es1 ++ es2) = live es1 ++ live es2.
Proof. apply filter_app. Qed.

Lemma live_inserted (b_rev b1 b2 : Z) :
  b1 ≤ b2 →
  Z.of_nat (length (live (IntLineLog.inserted b_rev b1 b2))) = b2 - b1.
Proof.
  intros Hb. unfold IntLineLog.inserted, Py.range, live.
  assert (∀ l : list Z,
            filter (λ e, IntLineLog.e_del e = None)
              ((λ j, IntLineLog.Entry b_rev j None) <$> l)
            = (λ j, IntLineLog.Entry b_rev j None) <$> l) as ->.
  { induction l as [|j l IH]; [done|].
    rewrite fmap_cons, filter_cons_True by done. by rewrite IH. }
  rewrite length_fmap, length_seqZ. lia.
Qed.

Lemma live_cons_kept (e : IntLineLog.entry) (es : list IntLineLog.entry) :
  IntLineLog.e_del e = None → live (e :: es) = e :: live es.
Proof. intros He. unfold live. by rewrite filter_cons_True. Qed.

Lemma live_cons_deleted (e : IntLineLog.entry) (es : list IntLineLog.entry) :
  IntLineLog.e_del e ≠ None → live (e :: es) = live es.
Proof. intros He. unfold live. by rewrite filter_cons_False. Qed.

Lemma live_delete_from (b_rev : Z) (e : IntLineLog.entry)
    (es : list IntLineLog.entry) :
  live (IntLineLog.delete_from b_rev e :: es) = live es.
Proof. by apply live_cons_deleted. Qed.

(** Behind line [a1], the walk only deletes. *)
Lemma edit_walk_behind (a_rev a1 a2 b_rev k : Z)
    (new es : list IntLineLog.entry) :
  Forall (λ e, IntLineLog.visible a_rev e
               = bool_decide (IntLineLog.e_del e = None)) es →
  a1 < k →
  Z.of_nat (length (live (IntLineLog.edit_walk a_rev a1 a2 b_rev new k es)))
  = Z.of_nat (length (live es))
    - Z.max 0 (Z.min a2 (k + Z.of_nat (length (live es))) - k).
Proof.
  intros Hv. revert k.
  induction Hv as [|e es He _ IH]; intros k Hk; cbn [IntLineLog.edit_walk].
  - rewrite (proj2 (Z.eqb_neq k a1)) by lia. cbn. lia.
  - rewrite He. case_bool_decide as Hd.
    + rewrite (live_cons_kept e es Hd).
      rewrite (proj2 (Z.eqb_neq k a1)) by lia. cbn [app].
      rewrite (proj2 (Z.leb_le a1 k)) by lia. cbn [andb].
      destruct (Z.ltb_spec k a2).
      * rewrite live_delete_from, IH by lia. cbn [length]. lia.
      * rewrite (live_cons_kept e _ Hd). cbn [length].
        rewrite !Nat2Z.inj_succ, IH by lia. lia.
    + rewrite !(live_cons_deleted e _ Hd). by apply IH.
Qed.

(** The walk replaces the lines [a1 .. a2 - 1] by the new ones. *)
Lemma edit_walk_length (a_rev a1 a2 b_rev k : Z)
    (new es : list IntLineLog.entry) :
  Forall (λ e, IntLineLog.visible a_rev e
               = bool_decide (IntLineLog.e_del e = None)) es →
  k ≤ a1 ≤ a2 → a2 ≤ k + Z.of_nat (length (live es)) →
  Z.of_nat (length (live (IntLineLog.edit_walk a_rev a1 a2 b_rev new k es)))
  = Z.of_nat (length (live es)) - (a2 - a1) + Z.of_nat (length (live new)).
Proof.
  intros Hv. revert k.
  induction Hv as [|e es He Hv IH]; intros k Hk Ha2; cbn [IntLineLog.edit_walk].
  - cbn in Ha2. rewrite (proj2 (Z.eqb_eq k a1)) by lia. cbn. lia.
  - rewrite He. case_bool_decide as Hd.
    + rewrite (live_cons_kept e es Hd) in Ha2 |- *.
      cbn [length] in Ha2 |- *. rewrite Nat2Z.inj_succ in Ha2 |- *.
      destruct (Z.eqb_spec k a1) as [->|Hne].
      * rewrite live_app, length_app, Nat2Z.inj_add.
        rewrite (proj2 (Z.leb_le a1 a1)) by lia. cbn [andb].
        destruct (Z.ltb_spec a1 a2).
        -- rewrite live_delete_from.
           rewrite edit_walk_behind by (done || lia). lia.
        -- rewrite (live_cons_kept e _ Hd). cbn [length].
           rewrite Nat2Z.inj_succ.
           rewrite edit_walk_behind by (done || lia). lia.
      * cbn [app]. rewrite (proj2 (Z.leb_gt a1 k)) by lia. cbn [andb].
        rewrite (live_cons_kept e _ Hd). cbn [length].
        rewrite Nat2Z.inj_succ, IH by lia. lia.
    + rewrite (live_cons_deleted e es Hd) in Ha2 |- *.
      rewrite (live_cons_deleted e _ Hd). by apply IH.
Qed.

(** An edit at a revision that is not below any line of the log succeeds
    and replaces [a2 - a1] lines by [b2 - b1] lines. *)
Lemma edit_settled (l : IntLineLog.t) (rev a1 a2 b1 b2 : Z) :
  settled (IntLineLog.maxrev l) (IntLineLog.entries l) →
  IntLineLog.maxrev l ≤ rev →
  0 ≤ a1 ≤ a2 → a2 ≤ Z.of_nat (length (live (IntLineLog.entries l))) →
  b1 ≤ b2 →
  ∃ l',
    IntLineLog.edit l rev a1 a2 rev b1 b2 = Some l'
    ∧ settled (IntLineLog.maxrev l') (IntLineLog.entries l')
    ∧ IntLineLog.maxrev l' = rev
    ∧ Z.of_nat (length (live (IntLineLog.entries l')))
      = Z.of_nat (length (live (IntLineLog.entries l))) - (a2 - a1) + (b2 - b1).
Proof.
  intros Hs Hrev Ha Ha2 Hb. unfold IntLineLog.edit.
  rewrite (settled_live_visible _ rev _ Hs Hrev).
  rewrite (proj2 (Z.ltb_ge a1 0)), (proj2 (Z.ltb_ge a2 a1)),
    (proj2 (Z.ltb_ge b2 b1)), (proj2 (Z.ltb_ge _ a2)) by lia.
  cbn [orb]. eexists. split; [done|]. cbn [IntLineLog.entries IntLineLog.maxrev].
  rewrite Z.max_r by lia. split; [|split; [done|]].
  - apply edit_walk_Forall.
    + intros [r n d] [Hr Hd]. cbn in *. split; [done|].
      intros d' [= <-]. destruct d; lia.
    + unfold IntLineLog.inserted. apply Forall_fmap, Forall_forall.
      intros j _. cbn. split; [lia|done].
    + eapply Forall_impl; [exact Hs|]. intros e [Hr Hd]. split; [lia|].
      intros d Hd'. specialize (Hd d Hd'). lia.
  - rewrite edit_walk_length.
    + by rewrite live_inserted.
    + by eapply settled_visible.
    + lia.
    + lia.
Qed.

Lemma settled_weaken (rev rev' : Z) (es : list IntLineLog.entry) :
  settled rev es → rev ≤ rev' → settled rev' es.
Proof.
  intros Hs Hle. eapply Forall_impl; [exact Hs|]. intros e [Hr Hd].
  split; [lia|]. intros d Hd'. specialize (Hd d Hd'). lia.
Qed.

(** The chunks of one content, edited from the last one to the first. *)
Lemma build_chunks_settled (llrev : Z) (cs : list chunk) (l : IntLineLog.t) :
  settled (IntLineLog.maxrev l) (IntLineLog.entries l) →
  IntLineLog.maxrev l ≤ llrev →
  chain 0 cs (Z.of_nat (length (live (IntLineLog.entries l)))) →
  ∃ l',
    build_chunks llrev (reverse cs) l = Some l'
    ∧ settled (IntLineLog.maxrev l') (IntLineLog.entries l')
    ∧ IntLineLog.maxrev l' ≤ llrev
    ∧ Z.of_nat (length (live (IntLineLog.entries l')))
      = Z.of_nat (length (live (IntLineLog.entries l))) + growth cs.
Proof.
  revert l. induction cs as [|[[[a1 a2] b1] b2] cs IH] using rev_ind; intros l Hs Hrev Hch.
  - exists l. cbn. split; [done|]. split; [done|]. split; [done|lia].
  - apply chain_snoc in Hch as (Hcs & Ha & Hb & Ha2).
    pose proof (chain_bounds _ _ _ Hcs) as Hlo.
    destruct (edit_settled l llrev a1 a2 b1 b2 Hs Hrev ltac:(lia) Ha2 Hb)
      as (l1 & Hedit & Hs1 & Hm1 & Hlen1).
    destruct (IH l1 Hs1 ltac:(lia)) as (l' & Hbuild & Hs' & Hm' & Hlen').
    { eapply chain_weaken; [exact Hcs|lia|lia]. }
    exists l'. rewrite reverse_snoc. cbn [build_chunks].
    change (edit_chunk l llrev a1 a2 llrev b1 b2)
      with (IntLineLog.edit l llrev a1 a2 llrev b1 b2).
    rewrite Hedit. cbn [mbind option_bind].
    split; [exact Hbuild|]. split; [done|]. split; [done|].
    rewrite Hlen', Hlen1, growth_snoc. lia.
Qed.

Lemma build_loop_settled (i : Z) (items : list (string * list string))
    (l : IntLineLog.t) (a : string) (alines : list string) :
  settled (IntLineLog.maxrev l) (IntLineLog.entries l) →
  IntLineLog.maxrev l ≤ i * 2 + 1 →
  length (live (IntLineLog.entries l)) = length alines →
  ∃ l',
    build_loop i items l a alines = Some l'
    ∧ settled (IntLineLog.maxrev l') (IntLineLog.entries l')
    ∧ length (live (IntLineLog.entries l'))
      = length (default alines (last (snd <$> items))).
Proof.
  revert i l a alines.
  induction items as [|[b blines] items IH]; intros i l a alines Hs Hrev Hlen.
  - exists l. cbn. done.
  - cbn [build_loop].
    destruct (alldiffchunks_chain a b alines blines) as [Hch Hgr].
    rewrite <- Hlen in Hch, Hgr.
    destruct (build_chunks_settled (i * 2 + 1) _ l Hs Hrev Hch)
      as (l1 & Hbuild & Hs1 & Hm1 & Hlen1).
    rewrite Hbuild. cbn [mbind option_bind].
    destruct (IH (i + 1) l1 b blines Hs1 ltac:(lia) ltac:(lia))
      as (l' & Hloop & Hs' & Hlen').
    exists l'. split; [exact Hloop|]. split; [done|].
    rewrite Hlen'. rewrite fmap_cons. cbn [snd].
    destruct items as [|item items]; [done|].
    rewrite !fmap_cons, last_cons_cons.
    destruct (last _) eqn:E; [done|]. by apply last_None in E.
Qed.

(** ** An unchanged target *)

Lemma index_from_end {A} (l : list A) (i : Z) :
  0 < i ≤ Z.of_nat (length l) → is_Some (Py.index l (- i)).
Proof.
  intros Hi. unfold Py.index.
  rewrite (proj2 (Z.leb_gt 0 (- i))) by lia.
  rewrite (proj2 (Z.leb_le 0 (Z.of_nat (length l) + - i))) by lia.
  apply lookup_lt_is_Some_2. lia.
Qed.

Lemma index_last {A} (l : list A) (x : A) : Py.index (l ++ [x]) (-1) = Some x.
Proof.
  unfold Py.index. rewrite length_app. cbn [length].
  rewrite (proj2 (Z.leb_gt 0 (-1))) by lia.
  rewrite (proj2 (Z.leb_le 0 _)) by lia.
  apply list_lookup_middle. lia.
Qed.

Lemma fix_last_line_length (annotated : list lineinfo) :
  ∃ annotated',
    fix_last_line annotated = Some annotated'
    ∧ length annotated' = length annotated.
Proof.
  unfold fix_last_line. destruct (Nat.ltb_spec 1 (length annotated)) as [Hlen|_].
  - destruct (index_from_end annotated 2 ltac:(lia)) as [prev Hprev].
    destruct (index_from_end annotated 1 ltac:(lia)) as [last Hlast].
    change (- (2)) with (-2) in Hprev. change (- (1)) with (-1) in Hlast.
    rewrite Hprev, Hlast. cbn [mbind option_bind]. eexists. split; [done|]. apply length_insert.
  - by exists annotated.
Qed.

Lemma checkout_length (l : IntLineLog.t) (rev : Z) :
  length (IntLineLog.checkout l rev None)
  = S (length (filter (λ e, IntLineLog.visible rev e = true)
                 (IntLineLog.entries l))).
Proof.
  unfold IntLineLog.checkout. rewrite length_app, length_fmap. cbn [length].
  rewrite Nat.add_1_r. f_equal.
  assert (∀ (es : list IntLineLog.entry) (f : nat → Z),
            length (filter (λ p : Z * IntLineLog.entry,
                              IntLineLog.visible rev p.2 = true)
                      (imap (λ i e, (f i, e)) es))
            = length (filter (λ e, IntLineLog.visible rev e = true) es)) as H.
  { induction es as [|e es IH]; intros f; [done|]. cbn [imap].
    destruct (IntLineLog.visible rev e) eqn:Hv.
    - rewrite !filter_cons_True by done. cbn [length].
      f_equal. apply (IH (f ∘ S)).
    - rewrite !filter_cons_False by (cbn; congruence). apply (IH (f ∘ S)). }
  apply (H _ Z.of_nat).
Qed.

(** C8.  For every log built from a stack of contents, [diffwith] with a
    target that equals the newest content succeeds and records no fixup:
    the diff has no change hunk. *)
Theorem diffwith_unchanged_target (older : list string) (newest : string) :
  ∃ st st' : filefixupstate IntLineLog.t,
    init (older ++ [newest]) = Some st
    ∧ diffwith st newest = Some st'
    ∧ fixups st' = []
    ∧ chunkstats st' = (0, 0).
Proof.
  unfold init, _buildlinelog.
  destruct (build_loop_settled 0
              (zip (older ++ [newest]) (Mdiff.splitnewlines <$> older ++ [newest]))
              (IntLineLog.Make [] 0) EmptyString [])
    as (llog & Hbuild & Hs & Hlen); [constructor|cbn; lia|done|].
  change (@linelog_new IntLineLog.t _) with (IntLineLog.Make [] 0).
  rewrite Hbuild. cbn [mbind option_bind].
  rewrite snd_zip in Hlen by (by rewrite length_fmap).
  rewrite fmap_app in Hlen.
  change (Mdiff.splitnewlines <$> [newest])
    with [Mdiff.splitnewlines newest] in Hlen.
  rewrite last_snoc in Hlen. cbn [default] in Hlen. unfold id in Hlen.
  eexists _, _. split; [reflexivity|]. unfold diffwith.
  cbn [contents contentlines linelog gap_lines chunkstats fixups finalcontents].
  rewrite index_last, fmap_app.
  change (Mdiff.splitnewlines <$> [newest]) with [Mdiff.splitnewlines newest].
  rewrite index_last. cbn [mbind option_bind].
  destruct (fix_last_line_length
              (checkout_lines llog (max_rev llog) None))
    as (annotated & -> & Hann).
  cbn [mbind option_bind].
  rewrite bool_decide_eq_true_2.
  2:{ rewrite Hann.
      change (checkout_lines llog (max_rev llog) None)
        with (IntLineLog.checkout llog (IntLineLog.maxrev llog) None).
      rewrite checkout_length.
      rewrite (settled_live_visible _ _ _ Hs) by lia. lia. }
  rewrite alldiffchunks_same. cbn [fold_left mbind option_bind fst snd].
  split; [reflexivity|]. split; reflexivity.
Qed.

(** * Further properties *)

(** ** [uniq] *)

Section uniq_properties.
Context {A : Type} `{!EqDecision A, !countable.Countable A}.
Implicit Types (l : list A) (seen : gmap.gset A).

Lemma uniq_fold_seen l seen (result : list A) x :
  x ∈ (fold_left uniq_step l (seen, result)).1 ↔ x ∈ seen ∨ x ∈ l.
Proof.
  revert seen result. induction l as [|y l IH]; intros seen result.
  - cbn. rewrite elem_of_nil. tauto.
  - cbn [fold_left]. unfold uniq_step at 2.
    destruct (decide (y ∈ seen)) as [Hy|Hy]; rewrite IH, elem_of_cons.
    + split; [tauto|]. intros [ ? | [ -> | ? ] ]; tauto.
    + rewrite elem_of_union, elem_of_singleton. tauto.
Qed.

(** One more element at the end is kept exactly when it is new. *)
Lemma uniq_snoc l x :
  uniq (l ++ [x]) = if decide (x ∈ l) then uniq l else uniq l ++ [x].
Proof.
  unfold uniq. rewrite fold_left_app. cbn [fold_left].
  pose proof (uniq_fold_seen l ∅ [] x) as Hseen.
  destruct (fold_left uniq_step l (∅, [])) as [seen result]. cbn in Hseen.
  unfold uniq_step. rewrite sets.elem_of_empty in Hseen.
  destruct (decide (x ∈ seen)) as [Hx|Hx], (decide (x ∈ l)) as [Hl|Hl];
    cbn; tauto.
Qed.

Lemma uniq_elem_of l x : x ∈ uniq l ↔ x ∈ l.
Proof.
  induction l as [|y l IH] using rev_ind; [done|].
  rewrite uniq_snoc. destruct (decide (y ∈ l)) as [Hy|Hy].
  - rewrite IH, elem_of_app, list_elem_of_singleton.
    split; [tauto|]. intros [ ? | -> ]; tauto.
  - by rewrite !elem_of_app, IH.
Qed.

Lemma uniq_NoDup l : NoDup (uniq l).
Proof.
  induction l as [|y l IH] using rev_ind; [constructor|].
  rewrite uniq_snoc. destruct (decide (y ∈ l)) as [Hy|Hy]; [done|].
  apply NoDup_app. split; [done|]. split; [|apply NoDup_singleton].
  intros x Hx ->%list_elem_of_singleton. by apply Hy, uniq_elem_of.
Qed.

(** Behind a prefix [l1], [uniq] keeps what is new with respect to it. *)
Lemma uniq_app l1 l2 :
  uniq (l1 ++ l2) = uniq l1 ++ filter (λ y, y ∉ l1) (uniq l2).
Proof.
  induction l2 as [|x l2 IH] using rev_ind.
  { rewrite app_nil_r. change (uniq (@nil A)) with (@nil A).
    by rewrite filter_nil, app_nil_r. }
  rewrite app_assoc, !uniq_snoc, IH.
  destruct (decide (x ∈ l2)) as [H2|H2].
  - rewrite decide_True by (apply elem_of_app; by right). done.
  - rewrite filter_app. destruct (decide (x ∈ l1)) as [H1|H1].
    + rewrite decide_True by (apply elem_of_app; by left).
      rewrite filter_cons_False by (intros Hn; by apply Hn).
      by rewrite filter_nil, app_nil_r.
    + rewrite decide_False by (rewrite elem_of_app; tauto).
      rewrite filter_cons_True by done.
      by rewrite filter_nil, app_assoc.
Qed.

(** X1.  [uniq] returns a list without duplicates that has exactly the
    members of its argument and keeps them in the order of the argument;
    the occurrence that it keeps of an element is the first one: where [x]
    occurs in the argument for the first time, behind [l1] and in front of
    [l2], the result is [uniq l1], then [x], then what [uniq l2] has that
    is neither in [l1] nor [x]. *)
Theorem uniq_removes_duplicates l :
  NoDup (uniq l) ∧ (∀ x, x ∈ uniq l ↔ x ∈ l) ∧ sublist (uniq l) l
  ∧ ∀ l1 x l2,
      l = l1 ++ x :: l2 → x ∉ l1 →
      uniq l = uniq l1 ++ x :: filter (λ y, y ∉ l1 ++ [x]) (uniq l2).
Proof.
  split; [apply uniq_NoDup|]. split; [apply uniq_elem_of|]. split.
  - induction l as [|y l IH] using rev_ind; [done|].
    rewrite uniq_snoc. destruct (decide (y ∈ l)) as [Hy|Hy].
    + by apply sublist_inserts_r.
    + by apply sublist_app.
  - intros l1 x l2 -> Hx.
    rewrite (cons_middle x l1 l2), app_assoc, uniq_app, uniq_snoc.
    rewrite decide_False by done. by rewrite <- app_assoc.
Qed.

(** X2.  [uniq] leaves a list without duplicates as it is; applying it
    twice is the same as applying it once. *)
Theorem uniq_idempotent l :
  (NoDup l → uniq l = l) ∧ uniq (uniq l) = uniq l.
Proof.
  assert (∀ k : list A, NoDup k → uniq k = k) as Hfix.
  { induction k as [|y k IH] using rev_ind; [done|].
    intros [Hk [Hy _]]%NoDup_app. rewrite uniq_snoc.
    destruct (decide (y ∈ k)) as [Hin|_].
    - exfalso. apply (Hy y Hin). by apply list_elem_of_singleton.
    - by rewrite IH. }
  split; [apply Hfix|]. apply Hfix, uniq_NoDup.
Qed.

End uniq_properties.

(** ** [getdraftstack] *)

Section getdraftstack_properties.
Context {C : Type} `{!ChangeCtx C}.

Lemma first_parent_chain_snoc (ctx : C) (l : list C) (c : C) :
  first_parent_chain ctx (l ++ [c])
  ↔ first_parent_chain ctx l ∧ c = Nat.iter (length l) p1 ctx.
Proof.
  revert ctx. induction l as [|d l IH]; intros ctx.
  - cbn. tauto.
  - cbn [app first_parent_chain length]. rewrite IH, Nat.iter_succ_r. split.
    + by intros (-> & Hl & ->).
    + by intros ((-> & Hl) & ->).
Qed.

(** What the loop has collected is a chain of first parents from the head
    on, made of drafts and within the limit. *)
Lemma draftstack_loop_chain (fuel : nat) (limit : option Z) (head ctx : C)
    (result stack : list C) :
  draftstack_loop fuel limit ctx result = Some stack →
  first_parent_chain head result →
  ctx = Nat.iter (length result) p1 head →
  Forall draft result →
  (∀ n, limit = Some n → 0 < n → Z.of_nat (length result) ≤ n) →
  first_parent_chain head stack
  ∧ Forall draft stack
  ∧ (∀ n, limit = Some n → 0 < n → Z.of_nat (length stack) ≤ n).
Proof.
  revert ctx result.
  induction fuel as [|fuel IH]; intros ctx result; cbn [draftstack_loop]; [done|].
  destruct (negb (ispublic ctx) && negb (obsolete ctx)) eqn:Hdraft.
  2:{ by intros [= <-]. }
  apply andb_prop in Hdraft as [Hpub%negb_true_iff Hobs%negb_true_iff].
  destruct (match limit with
            | Some n => negb (n =? 0) && (n <=? Z.of_nat (length result))
            | None => false
            end) eqn:Hlimit.
  { by intros [= <-]. }
  destruct (Nat.ltb_spec 1 (length (parents ctx))) as [Hmerge|Hmerge].
  { by intros [= <-]. }
  intros Hloop Hchain Hctx Hall Hlen.
  apply (IH _ _ Hloop).
  - apply first_parent_chain_snoc. done.
  - rewrite length_app, Nat.add_1_r. cbn [Nat.iter nat_rect]. by rewrite Hctx.
  - apply Forall_app. split; [done|]. constructor; [|done]. done.
  - intros n -> Hn. rewrite length_app, Nat2Z.inj_add. cbn.
    apply andb_false_iff in Hlimit as [Hz|Hle].
    + apply negb_false_iff, Z.eqb_eq in Hz. lia.
    + apply Z.leb_gt in Hle. lia.
Qed.

(** X3.  The stack of [getdraftstack] is, read from the newest entry to
    the oldest, the head followed by the first parent of each entry before;
    every entry is neither public nor obsolete and has at most one parent;
    with a positive limit the stack has at most that many entries. *)
Theorem getdraftstack_is_draft_chain (fuel : nat) (headctx : C)
    (limit : option Z) (stack : list C) :
  getdraftstack fuel headctx limit = Some stack →
  first_parent_chain headctx (reverse stack)
  ∧ Forall draft stack
  ∧ (∀ n, limit = Some n → 0 < n → Z.of_nat (length stack) ≤ n).
Proof.
  unfold getdraftstack.
  destruct (draftstack_loop fuel limit headctx []) as [l|] eqn:Hloop; [|done].
  cbn. intros [= <-].
  destruct (draftstack_loop_chain fuel limit headctx headctx [] l Hloop)
    as (Hchain & Hall & Hlen); [done|done|constructor|cbn; lia|].
  rewrite reverse_involutive, length_reverse.
  split; [done|]. split; [|done]. by apply Forall_reverse.
Qed.

Lemma draftstack_loop_limit (fuel : nat) (n : Z) (ctx : C) (result : list C) :
  0 < n →
  Z.of_nat (length result) ≤ n →
  n + 1 ≤ Z.of_nat fuel + Z.of_nat (length result) →
  is_Some (draftstack_loop fuel (Some n) ctx result).
Proof.
  intros Hn. revert ctx result.
  induction fuel as [|fuel IH]; intros ctx result Hlen Hfuel; [lia|].
  cbn [draftstack_loop].
  destruct (negb (ispublic ctx) && negb (obsolete ctx)); [|done].
  rewrite (proj2 (Z.eqb_neq n 0)) by lia. cbn [negb andb].
  destruct (Z.leb_spec n (Z.of_nat (length result))); [done|].
  destruct (1 <? length (parents ctx))%nat; [done|].
  apply IH; rewrite length_app, Nat2Z.inj_add; cbn; lia.
Qed.

(** X4.  With a positive limit [n] the loop of [getdraftstack] ends after
    at most [n + 1] rounds, whatever the history is. *)
Theorem getdraftstack_limit_terminates (headctx : C) (n : Z) :
  0 < n →
  is_Some (getdraftstack (S (Z.to_nat n)) headctx (Some n)).
Proof.
  intros Hn. unfold getdraftstack.
  destruct (draftstack_loop_limit (S (Z.to_nat n)) n headctx [] Hn)
    as [l ->]; [cbn; lia|cbn [length]; lia|done].
Qed.

End getdraftstack_properties.

Lemma getdraftstack_is_draft_chain_witness :
  getdraftstack 10 5%nat (Some 3) = Some [3%nat; 4%nat; 5%nat]
  ∧ first_parent_chain 5%nat (reverse [3%nat; 4%nat; 5%nat])
  ∧ Forall draft [3%nat; 4%nat; 5%nat].
Proof.
  split; [reflexivity|].
  destruct (@getdraftstack_is_draft_chain nat linear_history 10 5%nat (Some 3)
              [3%nat; 4%nat; 5%nat] eq_refl) as (Hchain & Hall & _).
  split; [exact Hchain|exact Hall].
Defined.

Lemma getdraftstack_limit_terminates_witness :
  is_Some (getdraftstack 3 7%nat (Some 2)).
Proof.
  apply (@getdraftstack_limit_terminates nat linear_history 7%nat 2). lia.
Defined.

(** ** More on the optimizer *)

Lemma deleted_lines_snoc (fs : list fixup) (f : fixup) :
  deleted_lines (fs ++ [f]) = deleted_lines fs + (f_a2 f - f_a1 f).
Proof.
  unfold deleted_lines, inserted_lines.
  induction fs as [|g fs IH]; cbn [foldr app]; lia.
Qed.

Lemma inserted_lines_snoc (fs : list fixup) (f : fixup) :
  inserted_lines (fs ++ [f]) = inserted_lines fs + (f_b2 f - f_b1 f).
Proof.
  unfold deleted_lines, inserted_lines.
  induction fs as [|g fs IH]; cbn [foldr app]; lia.
Qed.

Lemma pushchunk_proper (result : list fixup) (current : fixup) :
  0 ≤ f_rev current → pushchunk result current = result ++ [current].
Proof.
  intros Hc. unfold pushchunk.
  destruct (Z.eqb_spec (f_rev current) (-1)); [lia|done].
Qed.

Lemma mergeable_spec (gaps : list Qc) (current c : fixup) :
  mergeable gaps current c = true →
  f_a1 c = f_a2 current ∧ f_b1 c = f_b2 current ∧ f_rev c = f_rev current.
Proof.
  unfold mergeable. rewrite !andb_true_iff, !Z.eqb_eq. tauto.
Qed.

(** The state of the loop after the fixups [fs]: what was pushed and what
    is being collected add up to [fs]. *)
Lemma optimize_fold_totals (gaps : list Qc) (fs : list fixup) :
  Forall (λ f, 0 ≤ f_rev f) fs →
  let st := fold_left (optimize_step gaps) fs ([], nochunk) in
  (st.2 = nochunk ∧ st.1 = [] ∧ fs = [] ∨ 0 ≤ f_rev st.2 ∧ fs ≠ [])
  ∧ deleted_lines st.1 + (f_a2 st.2 - f_a1 st.2) = deleted_lines fs
  ∧ inserted_lines st.1 + (f_b2 st.2 - f_b1 st.2) = inserted_lines fs
  ∧ (length st.1 < length fs ∨ fs = [])%nat.
Proof.
  induction fs as [|c fs IH] using rev_ind; intros Hfs st.
  { subst st. cbn. split; [by left|]. split; [done|]. split; [done|by right]. }
  apply Forall_app in Hfs as [Hfs Hc]. apply Forall_inv in Hc.
  specialize (IH Hfs). cbn zeta in IH. subst st.
  rewrite fold_left_app. cbn [fold_left].
  destruct (fold_left (optimize_step gaps) fs ([], nochunk))
    as [result current]. cbn [fst snd] in IH.
  destruct IH as (Hcur & Hdel & Hins & Hlen).
  rewrite deleted_lines_snoc, inserted_lines_snoc, length_app.
  unfold optimize_step. destruct (mergeable gaps current c) eqn:Hm.
  - apply mergeable_spec in Hm as (Ha & Hb & Hr).
    destruct Hcur as [(-> & _)|[Hcur Hne]]; [cbn in Hr; lia|].
    destruct Hlen as [Hlen| ->]; [|done].
    cbn [fst snd f_rev f_a1 f_a2 f_b1 f_b2 length].
    split; [right; split; [lia|by destruct fs]|].
    split; [lia|]. split; [lia|]. left. lia.
  - cbn [fst snd]. split; [right; split; [done|by destruct fs]|].
    destruct Hcur as [(-> & -> & ->)|[Hcur Hne]].
    + cbn. split; [lia|]. split; [lia|]. left. lia.
    + rewrite pushchunk_proper by done.
      rewrite deleted_lines_snoc, inserted_lines_snoc, length_app. cbn [length].
      split; [lia|]. split; [lia|]. left. destruct Hlen; [lia|done].
Qed.

(** X5.  For fixups with proper revisions, [_optimizefixups] keeps the
    total number of deleted lines and the total number of inserted target
    lines, and never returns more fixups than it was given. *)
Theorem optimizefixups_keeps_totals (gaps : list Qc) (fs : list fixup) :
  Forall (λ f, 0 ≤ f_rev f) fs →
  deleted_lines (_optimizefixups gaps fs) = deleted_lines fs
  ∧ inserted_lines (_optimizefixups gaps fs) = inserted_lines fs
  ∧ (length (_optimizefixups gaps fs) ≤ length fs)%nat.
Proof.
  intros Hfs. pose proof (optimize_fold_totals gaps fs Hfs) as H.
  cbn zeta in H. unfold _optimizefixups.
  destruct (fold_left (optimize_step gaps) fs ([], nochunk))
    as [result current]. cbn [fst snd] in H.
  destruct H as ([(-> & -> & ->)|[Hcur Hne]] & Hdel & Hins & Hlen).
  - cbn. done.
  - rewrite pushchunk_proper by done.
    rewrite deleted_lines_snoc, inserted_lines_snoc, length_app. cbn [length].
    split; [done|]. split; [done|]. destruct Hlen; [lia|done].
Qed.

Lemma optimizefixups_keeps_totals_witness :
  deleted_lines (_optimizefixups [] [Fixup 4 0 1 0 1; Fixup 4 1 2 1 2;
                                     Fixup 6 2 3 2 3]) = 3
  ∧ length (_optimizefixups [] [Fixup 4 0 1 0 1; Fixup 4 1 2 1 2;
                                Fixup 6 2 3 2 3]) = 2%nat.
Proof.
  destruct (optimizefixups_keeps_totals []
              [Fixup 4 0 1 0 1; Fixup 4 1 2 1 2; Fixup 6 2 3 2 3])
    as (Hdel & _ & _).
  - repeat constructor; cbn; lia.
  - split; [exact Hdel|reflexivity].
Defined.

(** ** The optimizer reaches a fixed point *)

(** The merge test only reads [a2], [b2] and the revision of the chunk that
    is being collected, and [a1], [b1] and the revision of the new one. *)
Lemma mergeable_ext (gaps : list Qc) (p p' c c' : fixup) :
  f_a2 p = f_a2 p' → f_b2 p = f_b2 p' → f_rev p = f_rev p' →
  f_a1 c = f_a1 c' → f_b1 c = f_b1 c' → f_rev c = f_rev c' →
  mergeable gaps p c = mergeable gaps p' c'.
Proof. unfold mergeable. by intros -> -> -> -> -> ->. Qed.

Lemma unmergeable_snoc (gaps : list Qc) (l : list fixup) (p c : fixup) :
  unmergeable gaps (l ++ [p]) → mergeable gaps p c = false →
  unmergeable gaps ((l ++ [p]) ++ [c]).
Proof.
  intros Hl Hpc i x y Hx Hy.
  destruct (decide (S i < length (l ++ [p]))%nat) as [Hi|Hi].
  - rewrite lookup_app_l in Hx, Hy by lia. by eapply Hl.
  - assert (S i = length (l ++ [p])) as Hi'.
    { apply lookup_lt_Some in Hy. rewrite !length_app in *. cbn in *. lia. }
    rewrite lookup_app_r in Hy by lia.
    rewrite Hi', Nat.sub_diag in Hy. injection Hy as <-.
    rewrite lookup_app_l in Hx by lia.
    rewrite length_app in Hi'. cbn in Hi'.
    rewrite lookup_app_r in Hx by lia.
    replace (i - length l)%nat with 0%nat in Hx by lia.
    by injection Hx as <-.
Qed.

Lemma unmergeable_last (gaps : list Qc) (l : list fixup) (p p' : fixup) :
  f_a1 p = f_a1 p' → f_b1 p = f_b1 p' → f_rev p = f_rev p' →
  unmergeable gaps (l ++ [p]) → unmergeable gaps (l ++ [p']).
Proof.
  intros Ha Hb Hr Hl i x y Hx Hy.
  assert (S i < length l + 1)%nat as Hi.
  { apply lookup_lt_Some in Hy. by rewrite length_app in Hy. }
  rewrite lookup_app_l in Hx by lia.
  destruct (decide (S i < length l)%nat) as [Hi'|Hi'].
  - rewrite lookup_app_l in Hy by lia.
    apply (Hl i x y); by rewrite lookup_app_l by lia.
  - rewrite lookup_app_r in Hy by lia.
    replace (S i - length l)%nat with 0%nat in Hy by lia. injection Hy as <-.
    rewrite <- (mergeable_ext gaps x x p p') by done.
    apply (Hl i x p); [by rewrite lookup_app_l by lia|].
    rewrite lookup_app_r by lia.
    by replace (S i - length l)%nat with 0%nat by lia.
Qed.

Lemma unmergeable_prefix (gaps : list Qc) (l k : list fixup) :
  unmergeable gaps (l ++ k) → unmergeable gaps l.
Proof.
  intros Hl i x y Hx Hy. apply (Hl i x y); by apply lookup_app_l_Some.
Qed.

Lemma mergeable_nochunk (gaps : list Qc) (c : fixup) :
  0 ≤ f_rev c → mergeable gaps nochunk c = false.
Proof.
  intros Hc. unfold mergeable. cbn [nochunk f_rev f_a2 f_b2].
  destruct (Z.eqb_spec (f_rev c) (-1)) as [?|_]; [lia|].
  by rewrite andb_false_r.
Qed.

(** What was pushed, followed by what is being collected, holds no two
    neighbours that the loop would merge. *)
Lemma optimize_fold_unmergeable (gaps : list Qc) (fs : list fixup) :
  Forall (λ f, 0 ≤ f_rev f) fs →
  let st := fold_left (optimize_step gaps) fs ([], nochunk) in
  st = ([], nochunk) ∧ fs = []
  ∨ 0 ≤ f_rev st.2 ∧ unmergeable gaps (st.1 ++ [st.2]).
Proof.
  induction fs as [|c fs IH] using rev_ind; intros Hfs st; [by left|].
  apply Forall_app in Hfs as [Hfs Hc]. apply Forall_inv in Hc.
  specialize (IH Hfs). cbn zeta in IH. subst st. right.
  rewrite fold_left_app. cbn [fold_left].
  destruct (fold_left (optimize_step gaps) fs ([], nochunk))
    as [result current]. cbn [fst snd] in IH.
  unfold optimize_step. destruct (mergeable gaps current c) eqn:Hm.
  - destruct IH as [[[= -> ->] _]|[Hcur Hun]].
    { by rewrite mergeable_nochunk in Hm. }
    cbn [fst snd f_rev]. split; [done|].
    by eapply unmergeable_last, Hun.
  - cbn [fst snd]. split; [done|].
    destruct IH as [[[= -> ->] _]|[Hcur Hun]].
    + cbn. intros [|i] x y Hx Hy; done.
    + rewrite pushchunk_proper by done. by apply unmergeable_snoc.
Qed.

(** On a list without mergeable neighbours the loop only moves the
    fixups through. *)
Lemma optimize_fold_fixed (gaps : list Qc) (l : list fixup) (x : fixup) :
  Forall (λ f, 0 ≤ f_rev f) (l ++ [x]) → unmergeable gaps (l ++ [x]) →
  fold_left (optimize_step gaps) (l ++ [x]) ([], nochunk) = (l, x).
Proof.
  revert x. induction l as [|y l IH] using rev_ind; intros x Hfs Hun.
  - cbn. apply Forall_inv in Hfs. by rewrite mergeable_nochunk.
  - rewrite fold_left_app. cbn [fold_left].
    pose proof Hfs as Hfs'. apply Forall_app in Hfs' as [Hfs' _].
    rewrite IH; [|done|by eapply unmergeable_prefix].
    unfold optimize_step.
    rewrite (Hun (length l) y x).
    + rewrite pushchunk_proper; [done|].
      apply Forall_app in Hfs' as [_ Hy]. by apply Forall_inv in Hy.
    + rewrite <- (assoc_L (++)). by rewrite lookup_app_r, Nat.sub_diag.
    + rewrite lookup_app_r by (rewrite length_app; cbn; lia).
      rewrite length_app. cbn.
      by replace (S (length l) - (length l + 1))%nat with 0%nat by lia.
Qed.

Lemma optimizefixups_fixed (gaps : list Qc) (fs : list fixup) :
  Forall (λ f, 0 ≤ f_rev f) fs → unmergeable gaps fs →
  _optimizefixups gaps fs = fs.
Proof.
  destruct fs as [|x l _] using rev_ind; [done|]. intros Hfs Hun.
  unfold _optimizefixups. rewrite optimize_fold_fixed by done.
  apply pushchunk_proper.
  apply Forall_app in Hfs as [_ Hx]. by apply Forall_inv in Hx.
Qed.

(** X6.  For fixups with proper revisions, the result of [_optimizefixups]
    holds no two neighbouring fixups that its loop would merge, and
    optimizing it again changes nothing. *)
Theorem optimizefixups_idempotent (gaps : list Qc) (fs : list fixup) :
  Forall (λ f, 0 ≤ f_rev f) fs →
  unmergeable gaps (_optimizefixups gaps fs)
  ∧ _optimizefixups gaps (_optimizefixups gaps fs) = _optimizefixups gaps fs.
Proof.
  intros Hfs.
  assert (unmergeable gaps (_optimizefixups gaps fs)) as Hun.
  { pose proof (optimize_fold_unmergeable gaps fs Hfs) as H.
    cbn zeta in H. unfold _optimizefixups.
    destruct (fold_left (optimize_step gaps) fs ([], nochunk))
      as [result current]. cbn [fst snd] in H.
    destruct H as [[[= -> ->] _]|[Hcur Hun]].
    - intros [|i] x y Hx Hy; done.
    - by rewrite pushchunk_proper. }
  split; [done|].
  apply optimizefixups_fixed; [|done].
  by apply (optimizefixups_revisions (λ r, 0 ≤ r)).
Qed.

Lemma optimizefixups_idempotent_witness :
  _optimizefixups [] (_optimizefixups [] [Fixup 4 0 1 0 1; Fixup 4 1 2 1 2;
                                          Fixup 6 2 3 2 3])
  = [Fixup 4 0 2 0 2; Fixup 6 2 3 2 3].
Proof.
  destruct (optimizefixups_idempotent []
              [Fixup 4 0 1 0 1; Fixup 4 1 2 1 2; Fixup 6 2 3 2 3])
    as [_ H].
  - repeat constructor; cbn; lia.
  - rewrite H. reflexivity.
Defined.

(** ** More on the gap lines *)

Lemma gap_fold_bounds (ls : list lineinfo) (gaps : list Qc) (lineno last : Z) :
  ∃ new lineno' last',
    fold_left gap_step ls (gaps, lineno, last) = (gaps ++ new, lineno', last')
    ∧ (length new ≤ length (filter (λ ln, li_deleted ln = true) ls))%nat
    ∧ lineno' ≤ lineno + Z.of_nat (length ls)
    ∧ Forall (λ g, ∃ k, g = gap_after k
                        ∧ 0 ≤ k ∧ lineno ≤ k ≤ lineno + Z.of_nat (length ls) - 1)
        new.
Proof.
  revert gaps lineno last.
  induction ls as [|ln ls IH]; intros gaps lineno last.
  { exists [], lineno, last. rewrite app_nil_r. cbn. split; [done|].
    split; [done|]. split; [lia|constructor]. }
  cbn [fold_left]. unfold gap_step at 2.
  destruct (li_deleted ln && negb (lineno =? last) && (0 <=? lineno)) eqn:E.
  - apply andb_prop in E as [E E3]. apply andb_prop in E as [E1 _].
    apply Z.leb_le in E3.
    destruct (IH (gaps ++ [gap_after lineno]) lineno lineno)
      as (new & lineno' & last' & Hfold & Hlen & Hno & Hnew).
    exists (gap_after lineno :: new), lineno', last'.
    rewrite Hfold, <- (assoc_L (++)). split; [done|].
    rewrite filter_cons_True by done. cbn [length]. split; [lia|].
    split; [lia|]. constructor.
    + exists lineno. split; [done|lia].
    + eapply Forall_impl; [exact Hnew|]. intros g (k & -> & ?).
      exists k. split; [done|lia].
  - destruct (IH gaps (lineno + 1) last)
      as (new & lineno' & last' & Hfold & Hlen & Hno & Hnew).
    exists new, lineno', last'. split; [done|]. cbn [length]. split.
    { etrans; [exact Hlen|]. destruct (decide (li_deleted ln = true)).
      - rewrite filter_cons_True by done. cbn. lia.
      - by rewrite filter_cons_False by done. }
    split; [lia|].
    eapply Forall_impl; [exact Hnew|]. intros g (k & -> & ?).
    exists k. split; [done|lia].
Qed.

(** X7.  [_calculate_gap_lines] records at most one gap for each deleted
    entry of the full checkout, and every gap lies half a line behind a
    line number between 0 and the number of entries minus two; without a
    deleted entry there is no gap. *)
Theorem gap_lines_bounded (all_lines : list lineinfo) :
  (length (gap_lines_of all_lines)
   ≤ length (filter (λ ln, li_deleted ln = true) all_lines))%nat
  ∧ Forall (λ g, ∃ k, g = gap_after k
                      ∧ 0 ≤ k ≤ Z.of_nat (length all_lines) - 2)
      (gap_lines_of all_lines)
  ∧ (Forall (λ ln, li_deleted ln = false) all_lines →
     gap_lines_of all_lines = []).
Proof.
  unfold gap_lines_of.
  destruct (gap_fold_bounds all_lines [] (-1) (-1))
    as (new & lineno' & last' & -> & Hlen & _ & Hnew).
  cbn [fst app]. split; [done|]. split.
  - eapply Forall_impl; [exact Hnew|]. intros g (k & -> & ?).
    exists k. split; [done|lia].
  - intros Hdel.
    assert (filter (λ ln, li_deleted ln = true) all_lines = []) as Hnil.
    { clear Hlen Hnew. induction Hdel as [|ln ls Hln _ IH]; [done|].
      cbn beta in Hln.
      rewrite filter_cons_False by (rewrite Hln; done). exact IH. }
    rewrite Hnil in Hlen. destruct new; [done|cbn in Hlen; lia].
Qed.

(** ** Continuity of ranges *)

Lemma no_gap_inside_half (gaps : list Qc) (a1 a2 : Z) :
  Forall (λ g, ∃ k, g = gap_after k) gaps →
  no_gap_inside gaps a1 a2 ↔ ∀ k, gap_after k ∈ gaps → ¬ (a1 ≤ k < a2).
Proof.
  intros Hh. unfold no_gap_inside. split.
  - intros H k Hk Hin. apply (H _ Hk).
    by rewrite int_lt_gap_after, gap_after_lt_int.
  - intros H g Hg. rewrite Forall_forall in Hh.
    destruct (Hh g Hg) as [k ->].
    rewrite int_lt_gap_after, gap_after_lt_int. intros ?. by apply (H k).
Qed.

Lemma gap_lines_half_any (all_lines : list lineinfo) :
  Forall (λ g, ∃ k, g = gap_after k) (gap_lines_of all_lines).
Proof.
  eapply Forall_impl; [apply gap_lines_half|]. intros g (k & -> & _). by exists k.
Qed.

(** Continuity on the computed gap lines, in terms of the line numbers
    behind which a gap was recorded. *)
Lemma iscontinuous_gap_lines (all_lines : list lineinfo) (a1 a2 : Z) :
  _iscontinuous (gap_lines_of all_lines) a1 a2 = true
  ↔ ∀ k, gap_after k ∈ gap_lines_of all_lines → ¬ (a1 ≤ k < a2).
Proof.
  rewrite iscontinuous_no_gap;
    [|apply gap_lines_sorted|apply gap_lines_half_any].
  apply no_gap_inside_half, gap_lines_half_any.
Qed.

(** X8.  On the gap lines that [_calculate_gap_lines] computes,
    continuity composes (lines [a1 .. a2] and [a2 .. a3] continuous give
    [a1 .. a3] continuous, because no gap sits on a line number) and
    passes to every sub-range. *)
Theorem iscontinuous_ranges (all_lines : list lineinfo) (a1 a2 a3 : Z) :
  let gaps := gap_lines_of all_lines in
  (_iscontinuous gaps a1 a2 = true → _iscontinuous gaps a2 a3 = true →
   _iscontinuous gaps a1 a3 = true)
  ∧ (∀ b1 b2, a1 ≤ b1 → b2 ≤ a2 → _iscontinuous gaps a1 a2 = true →
     _iscontinuous gaps b1 b2 = true).
Proof.
  cbn zeta. split.
  - rewrite !iscontinuous_gap_lines. intros H12 H23 k Hk Hin.
    specialize (H12 k Hk). specialize (H23 k Hk). lia.
  - intros b1 b2 Hb1 Hb2. rewrite !iscontinuous_gap_lines.
    intros H k Hk Hin. specialize (H k Hk). lia.
Qed.

(** ** The optimizer never merges across a gap *)

(** A property of single fixups that holds for the initial chunk and that
    merging keeps, passes from the given fixups to the returned ones. *)
Lemma optimizefixups_closed (Q : fixup → Prop) (gaps : list Qc)
    (fs : list fixup) :
  (∀ current c, Q current → Q c → mergeable gaps current c = true →
                Q (merged current c)) →
  Q nochunk → Forall Q fs → Forall Q (_optimizefixups gaps fs).
Proof.
  intros Hmerge Hno Hfs. unfold _optimizefixups.
  assert (∀ result current,
            Forall Q result → Q current →
            let st := fold_left (optimize_step gaps) fs (result, current) in
            Forall Q st.1 ∧ Q st.2) as Hfold.
  { induction Hfs as [|f fs Hf _ IH]; intros result current Hres Hcur; [done|].
    cbn [fold_left]. cbn zeta. unfold optimize_step at 2 4.
    destruct (mergeable gaps current f) eqn:Hm.
    - apply IH; [done|]. by apply (Hmerge current f).
    - apply IH; [|done]. unfold pushchunk.
      destruct (f_rev current =? -1); [done|].
      apply Forall_app. split; [done|by constructor]. }
  destruct (Hfold [] nochunk) as [H1 H2]; [constructor|done|].
  destruct (fold_left _ fs ([], nochunk)) as [result current].
  cbn [fst snd] in H1, H2. unfold pushchunk.
  destruct (f_rev current =? -1); [done|].
  apply Forall_app. split; [done|by constructor].
Qed.

Lemma gap_after_inj (k k' : Z) : gap_after k = gap_after k' → k = k'.
Proof.
  intros Hk. destruct (Z.lt_trichotomy k k') as [?|[?|?]]; [|done|].
  - assert (gap_after k < gap_after k')%Qc as Hlt by (by apply gap_after_lt).
    rewrite Hk in Hlt. by apply Qclt_irrefl in Hlt.
  - assert (gap_after k' < gap_after k)%Qc as Hlt by (by apply gap_after_lt).
    rewrite Hk in Hlt. by apply Qclt_irrefl in Hlt.
Qed.

Lemma merged_continuous (all_lines : list lineinfo) (current c : fixup) :
  let gaps := gap_lines_of all_lines in
  continuous_fixup gaps current → continuous_fixup gaps c →
  mergeable gaps current c = true →
  continuous_fixup gaps (merged current c).
Proof.
  cbn zeta. intros Hcur Hc Hm.
  unfold mergeable in Hm. rewrite !andb_true_iff, !Z.eqb_eq in Hm.
  destruct Hm as [[[Ha Hb] Hr] Hcont].
  unfold continuous_fixup, merged in *. cbn [f_a1 f_a2].
  rewrite iscontinuous_gap_lines in *.
  pose proof (gap_lines_half all_lines) as Hh. rewrite Forall_forall in Hh.
  intros k Hk Hin. specialize (Hcur k Hk). specialize (Hc k Hk).
  specialize (Hcont k Hk).
  destruct (Hh _ Hk) as (k' & Hk' & Hpos).
  apply gap_after_inj in Hk' as <-. lia.
Qed.

(** X9.  On the gap lines that [_calculate_gap_lines] computes,
    [_optimizefixups] never merges across a gap: if the lines that each
    given fixup replaces are continuous, so are the lines that each
    returned fixup replaces. *)
Theorem optimizefixups_continuous (all_lines : list lineinfo) (fs : list fixup) :
  Forall (continuous_fixup (gap_lines_of all_lines)) fs →
  Forall (continuous_fixup (gap_lines_of all_lines))
    (_optimizefixups (gap_lines_of all_lines) fs).
Proof.
  intros Hfs. apply optimizefixups_closed; [|done|done].
  intros current c. apply merged_continuous.
Qed.

Lemma optimizefixups_continuous_witness :
  Forall (continuous_fixup [gap_after 0])
    (_optimizefixups [gap_after 0] [Fixup 4 0 1 0 1; Fixup 4 1 2 1 2]).
Proof.
  apply (optimizefixups_continuous
           [LineInfo 1 0 0 false; LineInfo 1 1 1 true; LineInfo 3 0 2 false]
           [Fixup 4 0 1 0 1; Fixup 4 1 2 1 2]).
  repeat constructor.
Defined.

(** ** The classifier on every hunk *)

Lemma index_inside {A} (l : list A) (i : Z) :
  0 ≤ i < Z.of_nat (length l) → is_Some (Py.index l i).
Proof.
  intros Hi. rewrite index_nonneg by lia. apply lookup_lt_is_Some_2. lia.
Qed.

Lemma index_outside {A} (l : list A) (i : Z) :
  Z.of_nat (length l) ≤ i → Py.index l i = None.
Proof.
  intros Hi. rewrite index_nonneg by lia. apply lookup_ge_None_2. lia.
Qed.

Lemma line_fixup_inside (annotated : list lineinfo) (a1 b1 b2 i : Z) :
  0 ≤ i < Z.of_nat (length annotated) →
  is_Some (line_fixup annotated a1 b1 b2 i).
Proof.
  intros Hi. unfold line_fixup.
  destruct (index_inside annotated i Hi) as [r ->]. cbn.
  by destruct (1 <? li_rev r).
Qed.

Lemma new_fixups_inside (gaps : list Qc) (annotated : list lineinfo)
    (a1 a2 b1 b2 : Z) :
  0 ≤ a1 ≤ a2 → a2 < Z.of_nat (length annotated) →
  is_Some (new_fixups gaps (a1, a2, b1, b2) annotated).
Proof.
  intros Ha Hlen. unfold new_fixups.
  assert (is_Some (involved_lines annotated a1 a2)) as [involved ->].
  { unfold involved_lines. case_match; [|done].
    assert (is_Some (mapM (Py.index annotated)
                       (Py.set_list [a2; Z.max 0 (a1 - 1)]))) as [nearby ->];
      [|done].
    apply mapM_is_Some, Forall_forall. intros i Hi.
    unfold Py.set_list in Hi. rewrite elem_of_remove_dups in Hi.
    apply index_inside.
    apply elem_of_cons in Hi as [->|Hi]; [lia|].
    apply list_elem_of_singleton in Hi as ->. lia. }
  cbn [mbind option_bind]. case_match.
  - apply andb_prop in H as [Hone%Nat.eqb_eq _].
    destruct (involved_revs involved) as [|rev [|??]]; try done. cbn.
    by destruct (1 <? rev).
  - case_match; [|done].
    assert (is_Some (mapM (line_fixup annotated a1 b1 b2) (Py.range a1 a2)))
      as [k ->]; [|done].
    apply mapM_is_Some, Forall_forall. intros i Hi%elem_of_seqZ.
    apply line_fixup_inside. lia.
Qed.

(** X10.  [_analysediffchunk] returns for every hunk that lies inside the
    annotated lines in front of the dummy line; a pure insertion whose
    position is the length of a non-empty annotation raises
    ([annotated[a2]] is out of range). *)
Theorem analysediffchunk_total (gaps : list Qc) (annotated : list lineinfo)
    (a1 a2 b1 b2 : Z) :
  (0 ≤ a1 ≤ a2 → a2 < Z.of_nat (length annotated) →
   is_Some (_analysediffchunk gaps (a1, a2, b1, b2) annotated))
  ∧ (annotated ≠ [] → a1 = Z.of_nat (length annotated) → a2 = a1 →
     _analysediffchunk gaps (a1, a2, b1, b2) annotated = None).
Proof.
  unfold _analysediffchunk. split.
  - intros Ha Hlen.
    by destruct (new_fixups_inside gaps annotated a1 a2 b1 b2 Ha Hlen) as [fs ->].
  - intros Hne -> ->. unfold new_fixups, involved_lines.
    rewrite slice_inside by lia. rewrite Z.sub_diag. cbn [Z.to_nat take].
    rewrite bool_decide_eq_true_2 by done.
    rewrite bool_decide_eq_false_2 by done. cbn [negb andb].
    destruct (mapM (Py.index annotated) _) as [nearby|] eqn:Hnear; [|done].
    exfalso.
    assert (is_Some (mapM (Py.index annotated)
      (Py.set_list [Z.of_nat (length annotated);
                    Z.max 0 (Z.of_nat (length annotated) - 1)]))) as Hsome
      by (by rewrite Hnear).
    apply mapM_is_Some in Hsome. rewrite Forall_forall in Hsome.
    destruct (Hsome (Z.of_nat (length annotated))) as [r Hr].
    { unfold Py.set_list. apply elem_of_remove_dups. left. }
    cbn in Hr. by rewrite index_outside in Hr.
Qed.

(** ** The fixups of a hunk stay inside the hunk *)

(** What was pushed, followed by what is being collected, is a chain as
    long as the fixups read so far are one. *)
Lemma optimize_fold_chain (gaps : list Qc) (lo : Z) (fs : list fixup) :
  Forall (λ f, 0 ≤ f_rev f) fs →
  let st := fold_left (optimize_step gaps) fs ([], nochunk) in
  st = ([], nochunk) ∧ fs = []
  ∨ 0 ≤ f_rev st.2
    ∧ ∀ hi, chain lo (chunk_of <$> fs) hi →
            chain lo (chunk_of <$> (st.1 ++ [st.2])) hi.
Proof.
  induction fs as [|c fs IH] using rev_ind; intros Hfs st; [by left|].
  apply Forall_app in Hfs as [Hfs Hc]. apply Forall_inv in Hc.
  specialize (IH Hfs). cbn zeta in IH. subst st. right.
  rewrite fold_left_app. cbn [fold_left].
  destruct (fold_left (optimize_step gaps) fs ([], nochunk))
    as [result current]. cbn [fst snd] in IH.
  unfold optimize_step. destruct (mergeable gaps current c) eqn:Hm.
  - destruct IH as [[[= -> ->] _]|[Hcur Hch]].
    { by rewrite mergeable_nochunk in Hm. }
    apply mergeable_spec in Hm as (Ha & Hb & Hr).
    cbn [fst snd f_rev]. split; [done|]. intros hi.
    rewrite !fmap_app. cbn [fmap list_fmap]. unfold chunk_of at 2 4.
    cbn [f_a1 f_a2 f_b1 f_b2].
    rewrite !chain_snoc. intros (Hfs' & ? & ? & ?).
    specialize (Hch _ Hfs'). rewrite fmap_app in Hch.
    cbn [fmap list_fmap] in Hch. unfold chunk_of at 2 in Hch.
    apply chain_snoc in Hch as (? & ? & ? & ?).
    split; [done|]. lia.
  - cbn [fst snd]. split; [done|]. intros hi.
    rewrite fmap_app. cbn [fmap list_fmap]. unfold chunk_of at 2.
    rewrite chain_snoc. intros (Hfs' & ? & ? & ?).
    destruct IH as [[[= -> ->] ->]|[Hcur Hch]].
    + cbn. unfold chunk_of. cbn in Hfs'. lia.
    + rewrite pushchunk_proper by done.
      rewrite fmap_app. cbn [fmap list_fmap]. unfold chunk_of at 2.
      apply chain_snoc. split; [by apply Hch|]. lia.
Qed.

Lemma optimizefixups_chain (gaps : list Qc) (lo hi : Z) (fs : list fixup) :
  Forall (λ f, 0 ≤ f_rev f) fs →
  chain lo (chunk_of <$> fs) hi →
  chain lo (chunk_of <$> _optimizefixups gaps fs) hi.
Proof.
  intros Hfs Hch. pose proof (optimize_fold_chain gaps lo fs Hfs) as H.
  cbn zeta in H. unfold _optimizefixups.
  destruct (fold_left (optimize_step gaps) fs ([], nochunk))
    as [result current]. cbn [fst snd] in H.
  destruct H as [[[= -> ->] ->]|[Hcur H]]; [done|].
  rewrite pushchunk_proper by done. by apply H.
Qed.

Lemma merged_targets_within (gaps : list Qc) (b1 b2 : Z) (current c : fixup) :
  targets_within b1 b2 current → targets_within b1 b2 c →
  mergeable gaps current c = true →
  targets_within b1 b2 (merged current c).
Proof.
  intros [? ?] [? ?] (Ha & Hb & Hr)%mergeable_spec.
  unfold targets_within, merged. cbn [f_b1 f_b2]. lia.
Qed.

(** The fixups of the branch that maps line by line. *)
Lemma line_fixups_chain (annotated : list lineinfo) (a1 a2 b1 b2 : Z)
    (n : nat) (i : Z) (fs : list fixup) :
  a1 ≤ i → i + Z.of_nat n ≤ a2 →
  a2 - a1 = b2 - b1 ∨ b1 = b2 →
  mjoin <$> mapM (line_fixup annotated a1 b1 b2) (seqZ i (Z.of_nat n)) = Some fs →
  chain i (chunk_of <$> fs) (i + Z.of_nat n)
  ∧ Forall (λ f, 0 ≤ f_rev f ∧ targets_within b1 b2 f) fs.
Proof.
  revert i fs. induction n as [|n IH]; intros i fs Hi Hn Hb.
  { cbn. intros [= <-]. cbn. split; [lia|constructor]. }
  rewrite seqZ_cons by lia. cbn [mapM].
  destruct (line_fixup annotated a1 b1 b2 i) as [new|] eqn:Hline; [|done].
  cbn [mbind option_bind].
  replace (Z.pred (Z.of_nat (S n))) with (Z.of_nat n) by lia.
  destruct (mapM _ (seqZ (Z.succ i) (Z.of_nat n))) as [k|] eqn:Hk; [|done].
  cbn. intros [= <-].
  destruct (IH (Z.succ i) (mjoin k)) as [Hch Hall]; [lia|lia|done| |].
  { by rewrite Hk. }
  unfold line_fixup in Hline.
  destruct (Py.index annotated i) as [r|]; [|done]. cbn in Hline.
  destruct (Z.ltb_spec 1 (li_rev r)); injection Hline as <-; cbn [app].
  - split.
    + cbn [fmap list_fmap chain chunk_of f_a1 f_a2 f_b1 f_b2].
      destruct (Z.eqb_spec b1 b2).
      * split; [lia|]. split; [lia|].
        eapply chain_weaken; [exact Hch|lia|lia].
      * split; [lia|]. split; [lia|].
        eapply chain_weaken; [exact Hch|lia|lia].
    + constructor; [|done]. cbn [f_rev]. split; [lia|].
      unfold targets_within. cbn [f_b1 f_b2].
      destruct (Z.eqb_spec b1 b2); lia.
  - split; [|done]. eapply chain_weaken; [exact Hch|lia|lia].
Qed.

(** The fixups of a hunk before they are optimized. *)
Lemma new_fixups_chain (gaps : list Qc) (annotated : list lineinfo)
    (a1 a2 b1 b2 : Z) (new : list fixup) :
  a1 ≤ a2 → b1 ≤ b2 →
  new_fixups gaps (a1, a2, b1, b2) annotated = Some new →
  chain a1 (chunk_of <$> new) a2
  ∧ Forall (λ f, 0 ≤ f_rev f ∧ targets_within b1 b2 f) new.
Proof.
  intros Ha Hb Hnew. unfold new_fixups in Hnew.
  destruct (involved_lines annotated a1 a2) as [involved|]; [|done].
  cbn [mbind option_bind] in Hnew. case_match.
  - destruct (involved_revs involved !! 0%nat) as [rev|]; [|done].
    cbn in Hnew. destruct (Z.ltb_spec 1 rev); injection Hnew as <-.
    + split; [cbn; lia|]. repeat constructor; cbn; lia.
    + split; [cbn; lia|constructor].
  - case_match.
    + apply orb_prop in H0.
      rewrite Z.eqb_eq, Z.eqb_eq in H0.
      unfold Py.range in Hnew.
      replace (a2 - a1) with (Z.of_nat (Z.to_nat (a2 - a1))) in Hnew by lia.
      apply (line_fixups_chain _ a1 a2) in Hnew as [Hch Hall];
        [|lia|lia|done].
      split; [|done]. eapply chain_weaken; [exact Hch|lia|lia].
    + injection Hnew as <-. split; [cbn; lia|constructor].
Qed.

(** X11.  The fixups that [_analysediffchunk] returns for a hunk
    [(a1, a2, b1, b2)] follow each other inside the lines [a1 .. a2]
    without overlap, and the target lines of each, when it has any, lie
    inside [b1 .. b2]. *)
Theorem analysediffchunk_within (gaps : list Qc) (annotated : list lineinfo)
    (a1 a2 b1 b2 : Z) (fs : list fixup) :
  a1 ≤ a2 → b1 ≤ b2 →
  _analysediffchunk gaps (a1, a2, b1, b2) annotated = Some fs →
  chain a1 (chunk_of <$> fs) a2 ∧ Forall (targets_within b1 b2) fs.
Proof.
  intros Ha Hb. unfold _analysediffchunk.
  destruct (new_fixups gaps (a1, a2, b1, b2) annotated) as [new|] eqn:Hnew;
    [|done].
  cbn. intros [= <-].
  destruct (new_fixups_chain _ _ _ _ _ _ _ Ha Hb Hnew) as [Hch Hall].
  split.
  - apply optimizefixups_chain; [|done].
    eapply Forall_impl; [exact Hall|]. by intros f [? _].
  - apply optimizefixups_closed.
    + intros current c. apply merged_targets_within.
    + split; cbn; lia.
    + eapply Forall_impl; [exact Hall|]. by intros f [_ ?].
Qed.

Lemma analysediffchunk_within_witness :
  chain 0 (chunk_of <$> [Fixup 4 0 2 0 2; Fixup 6 2 3 2 3]) 3.
Proof.
  apply (proj1 (analysediffchunk_within [] 
    [LineInfo 3 0 0 false; LineInfo 3 1 1 false; LineInfo 5 0 2 false;
     LineInfo 5 0 3 false] 0 3 0 3 _ ltac:(lia) ltac:(lia) eq_refl)).
Defined.

(** X12.  On the gap lines that [_calculate_gap_lines] computes, the lines
    that each fixup returned by [_analysediffchunk] replaces are
    continuous: no fixup spans a recorded gap. *)
Theorem analysediffchunk_continuous (all_lines annotated : list lineinfo)
    (c : chunk) (fs : list fixup) :
  _analysediffchunk (gap_lines_of all_lines) c annotated = Some fs →
  Forall (continuous_fixup (gap_lines_of all_lines)) fs.
Proof.
  destruct c as [[[a1 a2] b1] b2]. unfold _analysediffchunk.
  destruct (new_fixups _ (a1, a2, b1, b2) annotated) as [new|] eqn:Hnew;
    [|done].
  cbn. intros [= <-].
  apply optimizefixups_closed;
    [intros current c; apply merged_continuous|done|].
  unfold new_fixups in Hnew.
  destruct (involved_lines annotated a1 a2) as [involved|]; [|done].
  cbn [mbind option_bind] in Hnew. case_match.
  - apply andb_prop in H as [_ Hcont].
    destruct (involved_revs involved !! 0%nat) as [rev|]; [|done].
    cbn in Hnew. destruct (1 <? rev); injection Hnew as <-; [|constructor].
    by repeat constructor.
  - case_match; [|injection Hnew as <-; constructor].
    destruct (mapM _ _) as [k|] eqn:Hk; [|done]. cbn in Hnew.
    injection Hnew as <-.
    apply mapM_Some_1 in Hk. clear H H0.
    induction Hk as [|i new idx news Hi _ IH]; [constructor|].
    cbn. apply Forall_app. split; [|exact IH].
    unfold line_fixup in Hi.
    destruct (Py.index annotated i) as [r|]; [|done]. cbn in Hi.
    destruct (1 <? li_rev r); injection Hi as <-; [|constructor].
    repeat constructor. unfold continuous_fixup, _iscontinuous. cbn [f_a1 f_a2].
    by rewrite (proj2 (Z.leb_le (i + 1 - 1) i)) by lia.
Qed.

Lemma analysediffchunk_continuous_witness :
  Forall (continuous_fixup [gap_after 0]) [Fixup 4 0 1 0 1; Fixup 4 1 2 1 2].
Proof.
  apply (analysediffchunk_continuous
           [LineInfo 3 0 0 false; LineInfo 1 1 1 true; LineInfo 3 1 2 false]
           [LineInfo 3 0 0 false; LineInfo 3 1 2 false; LineInfo 3 1 3 false]
           (0, 2, 0, 2)).
  reflexivity.
Defined.

(** ** Pure insertions *)

Lemma iscontinuous_empty (gaps : list Qc) (a1 a2 : Z) :
  a2 ≤ a1 → _iscontinuous gaps a1 a2 = true.
Proof. intros H. unfold _iscontinuous. by rewrite (proj2 (Z.leb_le a2 a1)). Qed.

Lemma remove_dups_single (x : Z) : remove_dups [x] = [x].
Proof.
  cbn. destruct (decide_rel elem_of x []) as [E|_]; [|done].
  by apply elem_of_nil in E.
Qed.

Lemma remove_dups_pair_same (x : Z) : remove_dups [x; x] = [x].
Proof.
  cbn [remove_dups].
  destruct (decide_rel elem_of x [x]) as [_|E]; [|exfalso; apply E; left].
  destruct (decide_rel elem_of x []) as [E|_]; [|done].
  by apply elem_of_nil in E.
Qed.

Lemma remove_dups_pair_diff (x y : Z) : x ≠ y → remove_dups [x; y] = [x; y].
Proof.
  intros Hne. cbn [remove_dups].
  destruct (decide_rel elem_of x [y]) as [E|_].
  { by apply list_elem_of_singleton in E. }
  destruct (decide_rel elem_of y []) as [E|_]; [|done].
  by apply elem_of_nil in E.
Qed.

(** The lines that a pure insertion at [a] involves: the line behind it
    and the line in front of it, without those of the first revision. *)
Lemma involved_lines_insertion (annotated : list lineinfo) (a : Z)
    (before after : lineinfo) :
  0 ≤ a →
  Py.index annotated a = Some after →
  Py.index annotated (Z.max 0 (a - 1)) = Some before →
  involved_lines annotated a a
  = Some (filter (λ r, li_rev r ≠ 1)
            (if decide (a = 0) then [after] else [after; before])).
Proof.
  intros Ha Hafter Hbefore. unfold involved_lines.
  assert (a < Z.of_nat (length annotated)) as Hlen.
  { rewrite index_nonneg in Hafter by done.
    apply lookup_lt_Some in Hafter. lia. }
  rewrite slice_inside by lia. rewrite Z.sub_diag. cbn [Z.to_nat take].
  rewrite bool_decide_eq_true_2 by done.
  rewrite bool_decide_eq_false_2 by (intros ->; cbn in Hlen; lia).
  cbn [negb andb]. unfold Py.set_list. cbn [remove_dups].
  destruct (decide_rel elem_of (Z.max 0 (a - 1)) []) as [E|_];
    [by apply elem_of_nil in E|].
  destruct (decide (a = 0)) as [->|Hne].
  - change (Z.max 0 (0 - 1)) with 0.
    destruct (decide_rel elem_of 0 [0]) as [_|E]; [|exfalso; apply E; left].
    cbn [mapM]. rewrite Hafter. done.
  - destruct (decide_rel elem_of a [Z.max 0 (a - 1)]) as [E|_].
    { apply list_elem_of_singleton in E. lia. }
    cbn [mapM]. rewrite Hafter, Hbefore. done.
Qed.

Lemma new_fixups_insertion (gaps : list Qc) (annotated involved : list lineinfo)
    (a b1 b2 : Z) :
  involved_lines annotated a a = Some involved →
  new_fixups gaps (a, a, b1, b2) annotated
  = Some match involved_revs involved with
         | [rev] => if 1 <? rev then [Fixup (rev + 1) a a b1 b2] else []
         | _ => []
         end.
Proof.
  intros Hinv. unfold new_fixups. rewrite Hinv. cbn [mbind option_bind].
  rewrite iscontinuous_empty by lia. rewrite andb_true_r.
  destruct (involved_revs involved) as [|rev [|rev' revs]].
  - cbn. unfold Py.range. rewrite Z.sub_diag. cbn. by destruct (_ || _).
  - cbn. by destruct (1 <? rev).
  - cbn. unfold Py.range. rewrite Z.sub_diag. cbn. by destruct (_ || _).
Qed.

(** X13.  A pure insertion at line [a] goes to the revision of its two
    neighbouring lines when they agree, or to the revision of the one
    neighbour that does not belong to the first revision; when the
    neighbours belong to two different revisions other than the first,
    no fixup is returned. *)
Theorem analysediffchunk_insertion (gaps : list Qc) (annotated : list lineinfo)
    (a b1 b2 : Z) (before after : lineinfo) :
  0 ≤ a →
  Py.index annotated a = Some after →
  Py.index annotated (Z.max 0 (a - 1)) = Some before →
  (li_rev after = li_rev before → 1 < li_rev after →
   _analysediffchunk gaps (a, a, b1, b2) annotated
   = Some [Fixup (li_rev after + 1) a a b1 b2])
  ∧ (li_rev before = 1 → 1 < li_rev after →
     _analysediffchunk gaps (a, a, b1, b2) annotated
     = Some [Fixup (li_rev after + 1) a a b1 b2])
  ∧ (li_rev after = 1 → 1 < li_rev before →
     _analysediffchunk gaps (a, a, b1, b2) annotated
     = Some [Fixup (li_rev before + 1) a a b1 b2])
  ∧ (li_rev after ≠ li_rev before → li_rev after ≠ 1 → li_rev before ≠ 1 →
     _analysediffchunk gaps (a, a, b1, b2) annotated = Some []).
Proof.
  intros Ha Hafter Hbefore.
  pose proof (involved_lines_insertion annotated a before after
                Ha Hafter Hbefore) as Hinv.
  unfold _analysediffchunk.
  rewrite (new_fixups_insertion gaps annotated _ a b1 b2 Hinv).
  assert (a = 0 → before = after) as Hsame.
  { intros ->. change (Z.max 0 (0 - 1)) with 0 in Hbefore. congruence. }
  assert (∀ rev, 1 < rev →
            _optimizefixups gaps [Fixup (rev + 1) a a b1 b2]
            = [Fixup (rev + 1) a a b1 b2]) as Hopt.
  { intros rev Hrev. apply optimizefixups_single. cbn. lia. }
  unfold involved_revs, Py.set_list.
  split; [|split; [|split]].
  - intros Heq Hrev.
    destruct (decide (a = 0)) as [Ha0|Ha0].
    + rewrite filter_cons_True, filter_nil by (cbn; lia).
      cbn [fmap list_fmap]. rewrite remove_dups_single.
      rewrite (proj2 (Z.ltb_lt 1 (li_rev after))) by lia. cbn.
      by rewrite Hopt.
    + rewrite !filter_cons_True, filter_nil by (cbn; lia).
      cbn [fmap list_fmap]. rewrite <- Heq, remove_dups_pair_same.
      rewrite (proj2 (Z.ltb_lt 1 (li_rev after))) by lia. cbn.
      by rewrite Hopt.
  - intros Hb Hrev.
    destruct (decide (a = 0)) as [Ha0|Ha0].
    { rewrite (Hsame Ha0) in Hb. lia. }
    rewrite filter_cons_True by (cbn; lia).
    rewrite filter_cons_False, filter_nil by (cbn; lia).
    cbn [fmap list_fmap]. rewrite remove_dups_single.
    rewrite (proj2 (Z.ltb_lt 1 (li_rev after))) by lia. cbn.
    by rewrite Hopt.
  - intros Haf Hrev.
    destruct (decide (a = 0)) as [Ha0|Ha0].
    { rewrite (Hsame Ha0) in Hrev. lia. }
    rewrite filter_cons_False by (cbn; lia).
    rewrite filter_cons_True, filter_nil by (cbn; lia).
    cbn [fmap list_fmap]. rewrite remove_dups_single.
    rewrite (proj2 (Z.ltb_lt 1 (li_rev before))) by lia. cbn.
    by rewrite Hopt.
  - intros Hne Haf Hb.
    destruct (decide (a = 0)) as [Ha0|Ha0].
    { rewrite (Hsame Ha0) in Hne. done. }
    rewrite !filter_cons_True, filter_nil by (cbn; lia).
    cbn [fmap list_fmap]. by rewrite remove_dups_pair_diff.
Qed.

Lemma analysediffchunk_insertion_witness :
  _analysediffchunk [] (1, 1, 1, 2)
    [LineInfo 1 0 0 false; LineInfo 3 0 1 false; LineInfo 3 0 2 false]
  = Some [Fixup 4 1 1 1 2].
Proof.
  apply (analysediffchunk_insertion [] 
    [LineInfo 1 0 0 false; LineInfo 3 0 1 false; LineInfo 3 0 2 false]
    1 1 2 (LineInfo 1 0 0 false) (LineInfo 3 0 1 false)
    ltac:(lia) eq_refl eq_refl); [reflexivity|cbn; lia].
Defined.

(** ** The bookkeeping of [diffwith] *)

Lemma diff_fold_stats (gaps : list Qc) (annotated : list lineinfo)
    (cs : list chunk) (adopted total adopted' total' : Z)
    (fs fs' : list fixup) :
  fold_left (diff_step gaps annotated) cs (Some (adopted, total, fs))
  = Some (adopted', total', fs') →
  total' = total + Z.of_nat (length cs)
  ∧ ∃ new, fs' = fs ++ new
           ∧ 0 ≤ adopted' - adopted ≤ Z.of_nat (length cs)
           ∧ (adopted' = adopted ↔ new = [])
           ∧ adopted' - adopted ≤ Z.of_nat (length new).
Proof.
  revert adopted total fs.
  induction cs as [|c cs IH]; intros adopted total fs; cbn [fold_left].
  { intros [= <- <- <-]. split; [cbn; lia|]. exists []. rewrite app_nil_r.
    cbn. split; [done|]. split; [lia|]. split; [done|lia]. }
  unfold diff_step at 2. cbn [mbind option_bind].
  destruct (_analysediffchunk gaps c annotated) as [newfixups|]; cbn.
  2:{ by rewrite diff_fold_None. }
  intros Hfold. apply IH in Hfold as (-> & new & -> & Had & Hnil & Hlen).
  split; [cbn [length]; lia|]. exists (newfixups ++ new).
  rewrite (assoc_L (++)). split; [done|].
  rewrite length_app. cbn [length].
  destruct newfixups as [|f newfixups].
  - rewrite bool_decide_eq_true_2 in * by done. cbn [app length].
    split; [lia|]. split; [|lia]. rewrite <- Hnil. lia.
  - rewrite bool_decide_eq_false_2 in * by done. cbn [app length].
    split; [lia|]. split; [|lia]. split; [lia|done].
Qed.

Section diffwith_bookkeeping.
Context {L : Type} `{!LineLog L}.

(** X14.  [diffwith] leaves the contents, the line log, the gap lines and
    the final contents as they are, stores the lines of the target,
    appends its fixups to the recorded ones, and counts in [chunkstats]
    every diff chunk once and as adopted exactly those chunks that gave a
    fixup. *)
Theorem diffwith_bookkeeping (st st' : filefixupstate L) (target : string) :
  diffwith st target = Some st' →
  contents st' = contents st ∧ contentlines st' = contentlines st
  ∧ linelog st' = linelog st ∧ gap_lines st' = gap_lines st
  ∧ finalcontents st' = finalcontents st
  ∧ targetlines st' = Mdiff.splitnewlines target
  ∧ ∃ new, fixups st' = fixups st ++ new
           ∧ 0 ≤ (chunkstats st').1 - (chunkstats st).1
               ≤ (chunkstats st').2 - (chunkstats st).2
           ∧ ((chunkstats st').1 = (chunkstats st).1 ↔ new = [])
           ∧ (chunkstats st').1 - (chunkstats st).1 ≤ Z.of_nat (length new).
Proof.
  unfold diffwith.
  destruct (Py.index (contents st) (-1)) as [a|]; [|done].
  destruct (Py.index (contentlines st) (-1)) as [alines|]; [|done].
  cbn [mbind option_bind].
  destruct (fix_last_line _) as [annotated|]; [|done].
  cbn [mbind option_bind]. case_bool_decide; [|done].
  destruct (fold_left _ _ _) as [[[adopted total] fs]|] eqn:Hfold; [|done].
  cbn [mbind option_bind]. intros [= <-].
  cbn [contents contentlines linelog gap_lines finalcontents targetlines
       fixups chunkstats fst snd].
  apply diff_fold_stats in Hfold as (-> & new & -> & Had & Hnil & Hlen).
  repeat (split; [done|]). exists new. split; [done|].
  split; [lia|]. split; [done|lia].
Qed.

End diffwith_bookkeeping.

Lemma diffwith_bookkeeping_witness :
  ∃ st' : filefixupstate IntLineLog.t,
    targetlines st' = Mdiff.splitnewlines "b"
    ∧ linelog st' = IntLineLog.Make [IntLineLog.Entry 1 0 None] 1.
Proof.
  eexists.
  pose proof (diffwith_bookkeeping
    (FileFixupState ["a"%string] [["a"%string]]
       (IntLineLog.Make [IntLineLog.Entry 1 0 None] 1) [] (0, 0) [] [] [])
    _ "b" eq_refl) as (_ & _ & Hlog & _ & _ & Htarget & _).
  split; [exact Htarget|exact Hlog].
Defined.

(** ** [diffwith] on every built state *)

Lemma diff_fold_inside (gaps : list Qc) (annotated : list lineinfo)
    (cs : list chunk) (lo n : Z) (acc : Z * Z * list fixup) :
  0 ≤ lo → chain lo cs n → n < Z.of_nat (length annotated) →
  is_Some (fold_left (diff_step gaps annotated) cs (Some acc)).
Proof.
  revert lo acc. induction cs as [|[[[a1 a2] b1] b2] cs IH];
    intros lo [[adopted total] fs] Hlo Hch Hn; [done|].
  cbn [chain] in Hch. destruct Hch as (Ha & Hb & Hch).
  pose proof (chain_bounds _ _ _ Hch).
  cbn [fold_left]. unfold diff_step at 2. cbn [mbind option_bind].
  unfold _analysediffchunk.
  destruct (new_fixups_inside gaps annotated a1 a2 b1 b2) as [new ->]; [lia..|].
  cbn. eapply IH; [|exact Hch|done]. lia.
Qed.

(** X15.  For every non-empty stack of contents and every target,
    [__init__] and [diffwith] succeed on the line log of the
    specification, and [chunkstats] counts the chunks of the diff between
    the newest content and the target; on an empty stack [diffwith] raises
    ([contents[-1]] is out of range). *)
Theorem diffwith_succeeds (older : list string) (newest target : string) :
  (∃ st st' : filefixupstate IntLineLog.t,
     init (older ++ [newest]) = Some st
     ∧ diffwith st target = Some st'
     ∧ (chunkstats st').2
       = Z.of_nat (length (_alldiffchunks newest target
                             (Mdiff.splitnewlines newest)
                             (Mdiff.splitnewlines target))))
  ∧ (∃ st : filefixupstate IntLineLog.t,
       init [] = Some st ∧ diffwith st target = None).
Proof.
  split; [|by eexists].
  unfold init, _buildlinelog.
  destruct (build_loop_settled 0
              (zip (older ++ [newest]) (Mdiff.splitnewlines <$> older ++ [newest]))
              (IntLineLog.Make [] 0) EmptyString [])
    as (llog & Hbuild & Hs & Hlen); [constructor|cbn; lia|done|].
  change (@linelog_new IntLineLog.t _) with (IntLineLog.Make [] 0).
  rewrite Hbuild. cbn [mbind option_bind].
  rewrite snd_zip in Hlen by (by rewrite length_fmap).
  rewrite fmap_app in Hlen.
  change (Mdiff.splitnewlines <$> [newest])
    with [Mdiff.splitnewlines newest] in Hlen.
  rewrite last_snoc in Hlen. cbn [default] in Hlen. unfold id in Hlen.
  eexists _. 
  destruct (fix_last_line_length
              (checkout_lines llog (max_rev llog) None))
    as (annotated & Hfix & Hann).
  assert (length annotated = S (length (Mdiff.splitnewlines newest))) as Hlen'.
  { rewrite Hann.
    change (checkout_lines llog (max_rev llog) None)
      with (IntLineLog.checkout llog (IntLineLog.maxrev llog) None).
    rewrite checkout_length.
    rewrite (settled_live_visible _ _ _ Hs) by lia. lia. }
  destruct (alldiffchunks_chain newest target (Mdiff.splitnewlines newest)
              (Mdiff.splitnewlines target)) as [Hch _].
  destruct (diff_fold_inside (_calculate_gap_lines llog) annotated _ 0 _
              (0, 0, []) ltac:(lia) Hch ltac:(lia))
    as [[[adopted total] fs] Hfold].
  pose proof Hfold as Hstats.
  apply diff_fold_stats in Hstats as (-> & _).
  eexists. split; [reflexivity|]. unfold diffwith.
  cbn [contents contentlines linelog gap_lines chunkstats fixups finalcontents].
  rewrite index_last, fmap_app.
  change (Mdiff.splitnewlines <$> [newest]) with [Mdiff.splitnewlines newest].
  rewrite index_last. cbn [mbind option_bind].
  rewrite Hfix. cbn [mbind option_bind].
  rewrite bool_decide_eq_true_2 by lia.
  cbn [fst snd]. rewrite Hfold. cbn [mbind option_bind].
  split; [reflexivity|]. cbn [chunkstats snd]. lia.
Qed.

(** ** The diff chunks turn the old lines into the new ones *)

Lemma script_transforms (xs ys : list string) :
  transforms (Mdiff.script xs ys) xs ys.
Proof.
  revert ys. induction xs as [|x xs IHx]; intros ys.
  - rewrite script_nil_l. induction ys as [|y ys IH]; [done|]. exact IH.
  - induction ys as [|y ys IHy].
    + rewrite script_nil_r. clear IHx. revert x.
      induction xs as [|z xs IH]; intros x; [done|]. exact (IH z).
    + rewrite script_cons. cbn zeta.
      destruct (decide (x = y)) as [->|_]; [|case_match].
      * split; [done|apply IHx].
      * apply IHx.
      * exact IHy.
Qed.

(** One step of a script: the lines that it reads and the lines that it
    writes. *)
Lemma transforms_cons (o : Mdiff.op) (s : list Mdiff.op) (ra rb : list string) :
  transforms (o :: s) ra rb →
  ∃ ba bb ra' rb',
    ra = ba ++ ra' ∧ rb = bb ++ rb' ∧ transforms s ra' rb'
    ∧ Z.of_nat (length ba) = match o with Mdiff.Insert => 0 | _ => 1 end
    ∧ Z.of_nat (length bb) = match o with Mdiff.Delete => 0 | _ => 1 end
    ∧ (Mdiff.is_keep o = true → ba = bb).
Proof.
  destruct o; cbn [transforms].
  - destruct ra as [|x ra]; [done|]. destruct rb as [|y rb]; [done|].
    intros [-> Hs]. by exists [y], [y], ra, rb.
  - destruct ra as [|x ra]; [done|]. intros Hs. by exists [x], [], ra, rb.
  - destruct rb as [|y rb]; [done|]. intros Hs. by exists [], [y], ra, rb.
Qed.

Lemma splice_app {A} (pa ba r new : list A) (a1 a2 : Z) :
  a1 = Z.of_nat (length pa) → a2 = a1 + Z.of_nat (length ba) →
  splice (pa ++ ba ++ r) a1 a2 new = pa ++ new ++ r.
Proof.
  intros -> ->. unfold splice. rewrite Nat2Z.id.
  rewrite take_app_length. f_equal. f_equal.
  rewrite (assoc_L (++)). apply drop_app_length'.
  rewrite length_app. lia.
Qed.

Lemma slice_app {A} (pb bb rb : list A) (b1 b2 : Z) :
  b1 = Z.of_nat (length pb) → b2 = b1 + Z.of_nat (length bb) →
  Py.slice (pb ++ bb ++ rb) b1 b2 = bb.
Proof.
  intros -> ->. rewrite slice_inside by (rewrite ?length_app; lia).
  rewrite Nat2Z.id, drop_app_length.
  apply take_app_length'. lia.
Qed.

Lemma patched_app {A} (new : Z → Z → list A) (cs1 cs2 : list chunk)
    (xs : list A) :
  patched new (cs1 ++ cs2) xs = patched new cs1 (patched new cs2 xs).
Proof. apply foldr_app. Qed.

(** The block that is being collected, when it is closed. *)
Lemma close_patch (same : bool) (pa ba r pb bb rb : list string)
    (a1 a2 b1 b2 : Z) :
  a1 = Z.of_nat (length pa) → a2 = a1 + Z.of_nat (length ba) →
  b1 = Z.of_nat (length pb) → b2 = b1 + Z.of_nat (length bb) →
  (same = true → ba = bb) →
  patched (Py.slice (pb ++ bb ++ rb))
    (changed (Mdiff.close same a1 a2 b1 b2)) (pa ++ ba ++ r)
  = pa ++ bb ++ r
  ∧ Forall (targets_inside (Z.of_nat (length (pb ++ bb ++ rb))))
      (changed (Mdiff.close same a1 a2 b1 b2)).
Proof.
  intros Ha1 Ha2 Hb1 Hb2 Hsame. unfold Mdiff.close, changed.
  destruct ((a1 =? a2) && (b1 =? b2)) eqn:E.
  - apply andb_prop in E as [E1%Z.eqb_eq E2%Z.eqb_eq]. cbn.
    assert (ba = []) as -> by (destruct ba; [done|cbn in *; lia]).
    assert (bb = []) as -> by (destruct bb; [done|cbn in *; lia]).
    done.
  - destruct same.
    + rewrite filter_cons_False by (cbn; discriminate). cbn.
      by rewrite Hsame.
    + rewrite filter_cons_True by done. cbn [fmap list_fmap fst patched foldr].
      split.
      * rewrite (slice_app pb bb rb) by done. by apply splice_app.
      * repeat constructor; rewrite ?length_app; lia.
Qed.

(** The chunks of the blocks of a script, applied to the old lines, give
    the new lines from the start of the block that is being collected. *)
Lemma blocks_patch (s : list Mdiff.op) :
  ∀ (same : bool) (xs ys pa ba ra pb bb rb : list string) (a1 a2 b1 b2 : Z),
    xs = pa ++ ba ++ ra → ys = pb ++ bb ++ rb →
    a1 = Z.of_nat (length pa) → a2 = a1 + Z.of_nat (length ba) →
    b1 = Z.of_nat (length pb) → b2 = b1 + Z.of_nat (length bb) →
    transforms s ra rb → (same = true → ba = bb) →
    patched (Py.slice ys) (changed (Mdiff.blocks s same a1 a2 b1 b2)) xs
    = pa ++ bb ++ rb
    ∧ Forall (targets_inside (Z.of_nat (length ys)))
        (changed (Mdiff.blocks s same a1 a2 b1 b2)).
Proof.
  induction s as [|o s IH];
    intros same xs ys pa ba ra pb bb rb a1 a2 b1 b2 -> -> Ha1 Ha2 Hb1 Hb2 Hs Hsame.
  - destruct Hs as [-> ->]. cbn [Mdiff.blocks].
    by apply close_patch.
  - apply transforms_cons in Hs
      as (ba' & bb' & ra' & rb' & -> & -> & Hs & Hla & Hlb & Hkeep).
    cbn [Mdiff.blocks]. case_bool_decide as Hk.
    + replace (pa ++ ba ++ ba' ++ ra') with (pa ++ (ba ++ ba') ++ ra')
        by (by rewrite <- !(assoc_L (++))).
      replace (pb ++ bb ++ bb' ++ rb') with (pb ++ (bb ++ bb') ++ rb')
        by (by rewrite <- !(assoc_L (++))).
      destruct (IH same _ _ pa (ba ++ ba') ra' pb (bb ++ bb') rb'
                  a1 (match o with Mdiff.Insert => a2 | _ => a2 + 1 end)
                  b1 (match o with Mdiff.Delete => b2 | _ => b2 + 1 end)
                  eq_refl eq_refl Ha1) as [H1 H2].
      * rewrite length_app. destruct o; lia.
      * done.
      * rewrite length_app. destruct o; lia.
      * done.
      * intros ->. rewrite Hsame, Hkeep by done. done.
      * split; [|exact H2]. rewrite H1. by rewrite <- !(assoc_L (++)).
    + unfold changed. rewrite filter_app, fmap_app. fold (changed (Mdiff.close same a1 a2 b1 b2)).
      fold (changed (Mdiff.blocks s (Mdiff.is_keep o) a2
              (match o with Mdiff.Insert => a2 | _ => a2 + 1 end) b2
              (match o with Mdiff.Delete => b2 | _ => b2 + 1 end))).
      rewrite patched_app.
      destruct (IH (Mdiff.is_keep o) _ _ (pa ++ ba) ba' ra' (pb ++ bb) bb' rb'
                  a2 (match o with Mdiff.Insert => a2 | _ => a2 + 1 end)
                  b2 (match o with Mdiff.Delete => b2 | _ => b2 + 1 end)
                  eq_refl eq_refl) as [H1 H2].
      * rewrite length_app. lia.
      * destruct o; lia.
      * rewrite length_app. lia.
      * destruct o; lia.
      * done.
      * done.
      * rewrite <- !app_assoc in H1. rewrite <- !app_assoc in H2. rewrite H1.
        destruct (close_patch same pa ba (bb' ++ rb') pb bb (bb' ++ rb')
                    a1 a2 b1 b2 Ha1 Ha2 Hb1 Hb2 Hsame) as [H3 H4].
        rewrite H3.
        split; [done|]. apply Forall_app. split; [exact H4|exact H2].
Qed.

(** Applying the chunks of [_alldiffchunks], from the last one to the
    first, to the old lines gives the new lines. *)
Lemma alldiffchunks_patch (a b : string) (alines blines : list string) :
  patched (Py.slice blines) (_alldiffchunks a b alines blines) alines = blines
  ∧ Forall (targets_inside (Z.of_nat (length blines)))
      (_alldiffchunks a b alines blines).
Proof.
  unfold _alldiffchunks, Mdiff.allblocks.
  fold (changed (Mdiff.blocks (Mdiff.script alines blines) true 0 0 0 0)).
  apply (blocks_patch _ true alines blines [] [] alines [] [] blines);
    try done. apply script_transforms.
Qed.

(** ** What an edit does to the contents of the revisions *)

Lemma edit_entries (l l' : IntLineLog.t) (a_rev a1 a2 b_rev b1 b2 : Z) :
  IntLineLog.edit l a_rev a1 a2 b_rev b1 b2 = Some l' →
  IntLineLog.entries l'
  = IntLineLog.edit_walk a_rev a1 a2 b_rev
      (IntLineLog.inserted b_rev b1 b2) 0 (IntLineLog.entries l)
  ∧ IntLineLog.maxrev l' = Z.max (IntLineLog.maxrev l) b_rev.
Proof. unfold IntLineLog.edit. case_match; [done|]. by intros [= <-]. Qed.

Lemma visible_delete_from_below (r b_rev : Z) (e : IntLineLog.entry) :
  r < b_rev →
  IntLineLog.visible r (IntLineLog.delete_from b_rev e) = IntLineLog.visible r e.
Proof.
  intros Hr. unfold IntLineLog.visible, IntLineLog.delete_from.
  cbn [IntLineLog.e_rev IntLineLog.e_del]. f_equal.
  destruct (IntLineLog.e_del e) as [d|].
  - destruct (Z.ltb_spec r (Z.min d b_rev)), (Z.ltb_spec r d); (done || lia).
  - apply Z.ltb_lt. lia.
Qed.

Lemma content_at_cons (r : Z) (e : IntLineLog.entry)
    (es : list IntLineLog.entry) :
  content_at r (e :: es)
  = if IntLineLog.visible r e then key e :: content_at r es
    else content_at r es.
Proof.
  unfold content_at. rewrite filter_cons.
  destruct (IntLineLog.visible r e); [by rewrite decide_True|].
  by rewrite decide_False.
Qed.

Lemma content_at_app (r : Z) (es1 es2 : list IntLineLog.entry) :
  content_at r (es1 ++ es2) = content_at r es1 ++ content_at r es2.
Proof. unfold content_at. by rewrite filter_app, fmap_app. Qed.

(** An edit that targets a revision above [r] does not change the content
    of revision [r]. *)
Lemma edit_walk_below (r a_rev a1 a2 b_rev k : Z)
    (new es : list IntLineLog.entry) :
  r < b_rev → Forall (λ e, r < IntLineLog.e_rev e) new →
  content_at r (IntLineLog.edit_walk a_rev a1 a2 b_rev new k es)
  = content_at r es.
Proof.
  intros Hr Hnew.
  assert (content_at r new = []) as Hnil.
  { induction Hnew as [|e new He _ IH]; [done|].
    rewrite content_at_cons. unfold IntLineLog.visible.
    by rewrite (proj2 (Z.leb_gt _ _) He). }
  revert k. induction es as [|e es IH]; intros k; cbn [IntLineLog.edit_walk].
  - by destruct (k =? a1).
  - destruct (IntLineLog.visible a_rev e).
    + rewrite content_at_app.
      replace (content_at r (if k =? a1 then new else [])) with (@nil (Z * Z))
        by (by destruct (k =? a1)).
      cbn [app]. rewrite !content_at_cons, IH.
      destruct ((a1 <=? k) && (k <? a2)); [|done].
      by rewrite visible_delete_from_below.
    + by rewrite !content_at_cons, IH.
Qed.

Lemma edit_below (l l' : IntLineLog.t) (r a_rev a1 a2 b_rev b1 b2 : Z) :
  IntLineLog.edit l a_rev a1 a2 b_rev b1 b2 = Some l' → r < b_rev →
  content_at r (IntLineLog.entries l') = content_at r (IntLineLog.entries l).
Proof.
  intros [-> _]%edit_entries Hr. apply edit_walk_below; [done|].
  unfold IntLineLog.inserted. apply Forall_fmap, Forall_forall. by intros j _.
Qed.

Lemma live_all (new : list IntLineLog.entry) :
  Forall (λ e, IntLineLog.e_del e = None) new → live new = new.
Proof.
  induction 1 as [|e new He _ IH]; [done|].
  by rewrite live_cons_kept, IH.
Qed.

(** Behind line [a1], the walk drops the lines up to [a2]. *)
Lemma edit_walk_live_behind (a_rev a1 a2 b_rev k : Z)
    (new es : list IntLineLog.entry) :
  Forall (λ e, IntLineLog.visible a_rev e
               = bool_decide (IntLineLog.e_del e = None)) es →
  a1 < k →
  live (IntLineLog.edit_walk a_rev a1 a2 b_rev new k es)
  = drop (Z.to_nat (a2 - k)) (live es).
Proof.
  intros Hv. revert k.
  induction Hv as [|e es He _ IH]; intros k Hk; cbn [IntLineLog.edit_walk].
  - rewrite (proj2 (Z.eqb_neq k a1)) by lia.
    change (live []) with (@nil IntLineLog.entry). by rewrite drop_nil.
  - rewrite He. case_bool_decide as Hd.
    + rewrite (live_cons_kept e es Hd).
      rewrite (proj2 (Z.eqb_neq k a1)) by lia. cbn [app].
      rewrite (proj2 (Z.leb_le a1 k)) by lia. cbn [andb].
      destruct (Z.ltb_spec k a2).
      * rewrite live_delete_from, IH by lia.
        replace (Z.to_nat (a2 - k)) with (S (Z.to_nat (a2 - (k + 1)))) by lia.
        done.
      * rewrite (live_cons_kept e _ Hd), IH by lia.
        replace (Z.to_nat (a2 - (k + 1))) with 0%nat by lia.
        replace (Z.to_nat (a2 - k)) with 0%nat by lia. done.
    + rewrite !(live_cons_deleted e _ Hd). by apply IH.
Qed.

(** The walk replaces the lines [a1 .. a2 - 1] of the content by the new
    ones. *)
Lemma edit_walk_live (a_rev a1 a2 b_rev k : Z)
    (new es : list IntLineLog.entry) :
  Forall (λ e, IntLineLog.visible a_rev e
               = bool_decide (IntLineLog.e_del e = None)) es →
  Forall (λ e, IntLineLog.e_del e = None) new →
  k ≤ a1 ≤ a2 → a2 ≤ k + Z.of_nat (length (live es)) →
  live (IntLineLog.edit_walk a_rev a1 a2 b_rev new k es)
  = take (Z.to_nat (a1 - k)) (live es) ++ new
    ++ drop (Z.to_nat (a2 - k)) (live es).
Proof.
  intros Hv Hnew. revert k.
  induction Hv as [|e es He Hv IH]; intros k Hk Ha2; cbn [IntLineLog.edit_walk].
  - cbn in Ha2. rewrite (proj2 (Z.eqb_eq k a1)) by lia.
    rewrite live_all by done.
    change (live []) with (@nil IntLineLog.entry).
    by rewrite take_nil, drop_nil, app_nil_r.
  - rewrite He. case_bool_decide as Hd.
    + rewrite (live_cons_kept e es Hd) in Ha2 |- *.
      cbn [length] in Ha2. rewrite Nat2Z.inj_succ in Ha2.
      destruct (Z.eqb_spec k a1) as [->|Hne].
      * rewrite live_app, live_all by done.
        rewrite (proj2 (Z.leb_le a1 a1)) by lia. cbn [andb].
        rewrite Z.sub_diag. change (Z.to_nat 0) with 0%nat.
        rewrite take_0. cbn [app]. f_equal.
        destruct (Z.ltb_spec a1 a2).
        -- rewrite live_delete_from.
           rewrite edit_walk_live_behind by (done || lia).
           replace (Z.to_nat (a2 - a1)) with (S (Z.to_nat (a2 - (a1 + 1))))
             by lia. done.
        -- rewrite (live_cons_kept e _ Hd).
           rewrite edit_walk_live_behind by (done || lia).
           replace (Z.to_nat (a2 - (a1 + 1))) with 0%nat by lia.
           replace (Z.to_nat (a2 - a1)) with 0%nat by lia. done.
      * cbn [app]. rewrite (proj2 (Z.leb_gt a1 k)) by lia. cbn [andb].
        rewrite (live_cons_kept e _ Hd), IH by lia.
        replace (Z.to_nat (a1 - k)) with (S (Z.to_nat (a1 - (k + 1)))) by lia.
        replace (Z.to_nat (a2 - k)) with (S (Z.to_nat (a2 - (k + 1)))) by lia.
        done.
    + rewrite (live_cons_deleted e es Hd) in Ha2 |- *.
      rewrite (live_cons_deleted e _ Hd). by apply IH.
Qed.

Lemma inserted_live (b_rev b1 b2 : Z) :
  Forall (λ e, IntLineLog.e_del e = None) (IntLineLog.inserted b_rev b1 b2).
Proof.
  unfold IntLineLog.inserted. apply Forall_fmap, Forall_forall. by intros j _.
Qed.

(** The chunks of one content, edited from the last one to the first: the
    new content is the old one with the chunks applied, and the contents
    of the revisions below stay as they are. *)
Lemma build_chunks_views (llrev : Z) (cs : list chunk) (l : IntLineLog.t) :
  settled (IntLineLog.maxrev l) (IntLineLog.entries l) →
  IntLineLog.maxrev l ≤ llrev →
  chain 0 cs (Z.of_nat (length (live (IntLineLog.entries l)))) →
  ∃ l',
    build_chunks llrev (reverse cs) l = Some l'
    ∧ settled (IntLineLog.maxrev l') (IntLineLog.entries l')
    ∧ IntLineLog.maxrev l' ≤ llrev
    ∧ live (IntLineLog.entries l')
      = patched (IntLineLog.inserted llrev) cs (live (IntLineLog.entries l))
    ∧ (∀ r, r < llrev →
            content_at r (IntLineLog.entries l')
            = content_at r (IntLineLog.entries l))
    ∧ ∀ P : IntLineLog.entry → Prop,
        (∀ e, P e → P (IntLineLog.delete_from llrev e)) →
        Forall (λ c : chunk, Forall P (IntLineLog.inserted llrev c.1.2 c.2)) cs →
        Forall P (IntLineLog.entries l) → Forall P (IntLineLog.entries l').
Proof.
  revert l. induction cs as [|[[[a1 a2] b1] b2] cs IH] using rev_ind;
    intros l Hs Hrev Hch.
  - exists l. cbn. done.
  - apply chain_snoc in Hch as (Hcs & Ha & Hb & Ha2).
    pose proof (chain_bounds _ _ _ Hcs) as Hlo.
    destruct (edit_settled l llrev a1 a2 b1 b2 Hs Hrev ltac:(lia) Ha2 Hb)
      as (l1 & Hedit & Hs1 & Hm1 & Hlen1).
    pose proof (edit_entries _ _ _ _ _ _ _ _ Hedit) as [Hent _].
    assert (live (IntLineLog.entries l1)
            = splice (live (IntLineLog.entries l)) a1 a2
                (IntLineLog.inserted llrev b1 b2)) as Hlive.
    { rewrite Hent. rewrite edit_walk_live.
      - unfold splice. by rewrite !Z.sub_0_r.
      - by eapply settled_visible.
      - apply inserted_live.
      - lia.
      - lia. }
    destruct (IH l1 Hs1 ltac:(lia))
      as (l' & Hbuild & Hs' & Hm' & Hlive' & Hlow & HP).
    { eapply chain_weaken; [exact Hcs|lia|lia]. }
    exists l'. rewrite reverse_snoc. cbn [build_chunks].
    change (edit_chunk l llrev a1 a2 llrev b1 b2)
      with (IntLineLog.edit l llrev a1 a2 llrev b1 b2).
    rewrite Hedit. cbn [mbind option_bind].
    split; [exact Hbuild|]. split; [done|]. split; [done|].
    split; [|split].
    + rewrite Hlive', Hlive. unfold patched. by rewrite foldr_app.
    + intros r Hr. rewrite (Hlow r Hr). by eapply edit_below.
    + intros P Hdel Hnew Hl. apply Forall_app in Hnew as [Hnew Hc].
      apply Forall_inv in Hc. cbn [fst snd] in Hc.
      apply HP; [done|done|]. rewrite Hent.
      by apply edit_walk_Forall.
Qed.

(** ** The built log holds every content *)

Lemma line_text_content (cl : list (list string)) (tl lines : list string)
    (i j : Z) :
  0 ≤ i → 0 ≤ j → cl !! Z.to_nat i = Some lines →
  line_text cl tl (i * 2 + 1, j) = lines !! Z.to_nat j.
Proof.
  intros Hi Hj Hlines. unfold line_text. cbn [fst snd].
  change 1 with (Z.ones 1) at 2. rewrite Z.land_ones by lia.
  change (2 ^ 1) with 2.
  rewrite (Z.add_comm (i * 2) 1), Z.mod_add, Z.div_add by lia.
  change (1 `mod` 2 =? 0) with false. change (1 `div` 2 + i) with i. cbn match.
  rewrite index_nonneg, Hlines by done. cbn. by rewrite index_nonneg.
Qed.

Lemma inserted_text (cl : list (list string)) (tl blines : list string)
    (i b1 b2 : Z) :
  0 ≤ i → cl !! Z.to_nat i = Some blines →
  0 ≤ b1 ≤ b2 → b2 ≤ Z.of_nat (length blines) →
  holds cl tl (key <$> IntLineLog.inserted (i * 2 + 1) b1 b2)
    (Py.slice blines b1 b2).
Proof.
  intros Hi Hlines Hb Hb2. apply Forall2_same_length_lookup_2.
  - rewrite slice_inside by lia. unfold IntLineLog.inserted, Py.range.
    rewrite !length_fmap, length_seqZ, length_take, length_drop. lia.
  - intros k tag s Htag Hs.
    apply slice_lookup in Hs as [Hk Hs]; [|lia..].
    unfold IntLineLog.inserted, Py.range in Htag.
    rewrite !list_lookup_fmap in Htag.
    rewrite lookup_seqZ_lt in Htag by lia. cbn in Htag. injection Htag as <-.
    unfold key. cbn [IntLineLog.e_rev IntLineLog.e_linenum].
    rewrite (line_text_content cl tl blines) by (done || lia).
    by rewrite index_nonneg in Hs by lia.
Qed.

Lemma patched_fmap {A B} (f : A → B) (new : Z → Z → list A)
    (cs : list chunk) (xs : list A) :
  f <$> patched new cs xs
  = patched (λ b1 b2, f <$> new b1 b2) cs (f <$> xs).
Proof.
  induction cs as [|[[[a1 a2] b1] b2] cs IH]; [done|].
  cbn [patched foldr]. fold (patched new cs xs).
  fold (patched (λ b1 b2, f <$> new b1 b2) cs (f <$> xs)).
  rewrite <- IH. unfold splice.
  by rewrite !fmap_app, fmap_take, fmap_drop.
Qed.

Lemma patched_Forall2 {A B} (R : A → B → Prop) (new : Z → Z → list A)
    (new' : Z → Z → list B) (cs : list chunk) (xs : list A) (ys : list B) :
  Forall (λ c : chunk, Forall2 R (new c.1.2 c.2) (new' c.1.2 c.2)) cs →
  Forall2 R xs ys →
  Forall2 R (patched new cs xs) (patched new' cs ys).
Proof.
  intros Hcs Hxs. induction Hcs as [|[[[a1 a2] b1] b2] cs Hc _ IH]; [done|].
  cbn [patched foldr]. fold (patched new cs xs). fold (patched new' cs ys).
  unfold splice. apply Forall2_app; [by apply Forall2_take|].
  apply Forall2_app; [exact Hc|by apply Forall2_drop].
Qed.

Lemma holds_has_text (cl : list (list string)) (tl : list string)
    (es : list IntLineLog.entry) (lines : list string) :
  holds cl tl (key <$> es) lines → Forall (has_text cl tl) es.
Proof.
  intros H. apply Forall2_fmap_l in H.
  eapply Forall2_Forall_l; [exact H|].
  apply Forall_forall. intros s _ e He. unfold has_text. by rewrite He.
Qed.

(** After the contents in front of index [i], the log holds each of them
    at its revision; the loop adds the others. *)
Lemma build_loop_views (cl : list (list string)) (tl : list string)
    (items : list (string * list string)) :
  ∀ (i : Z) (l : IntLineLog.t) (a : string) (alines : list string)
    (done : list (list string)),
    0 ≤ i → length done = Z.to_nat i → cl = done ++ (snd <$> items) →
    settled (IntLineLog.maxrev l) (IntLineLog.entries l) →
    IntLineLog.maxrev l ≤ 2 * i →
    (∀ (j : nat) lines, done !! j = Some lines →
       holds cl tl (content_at (2 * Z.of_nat j + 2) (IntLineLog.entries l))
         lines) →
    holds cl tl (key <$> live (IntLineLog.entries l)) alines →
    Forall (has_text cl tl) (IntLineLog.entries l) →
    ∃ l',
      build_loop i items l a alines = Some l'
      ∧ settled (IntLineLog.maxrev l') (IntLineLog.entries l')
      ∧ IntLineLog.maxrev l' ≤ 2 * (i + Z.of_nat (length items))
      ∧ (∀ (j : nat) lines, cl !! j = Some lines →
           holds cl tl (content_at (2 * Z.of_nat j + 2) (IntLineLog.entries l'))
             lines)
      ∧ holds cl tl (key <$> live (IntLineLog.entries l'))
          (default alines (last (snd <$> items)))
      ∧ Forall (has_text cl tl) (IntLineLog.entries l').
Proof.
  induction items as [|[b blines] items IH];
    intros i l a alines done Hi Hdone Hcl Hs Hrev Hviews Hlive Htext.
  { exists l. cbn [build_loop length]. split; [done|]. split; [done|].
    split; [lia|]. cbn [fmap list_fmap last default] in Hcl |- *.
    rewrite app_nil_r in Hcl. subst done.
    split; [done|]. split; [done|done]. }
  cbn [build_loop].
  assert (cl !! Z.to_nat i = Some blines) as Hb.
  { rewrite Hcl, fmap_cons. cbn [snd]. by apply list_lookup_middle. }
  assert (length (live (IntLineLog.entries l)) = length alines) as Hlen.
  { apply Forall2_length in Hlive. by rewrite length_fmap in Hlive. }
  destruct (alldiffchunks_chain a b alines blines) as [Hch _].
  rewrite <- Hlen in Hch.
  destruct (build_chunks_views (i * 2 + 1) _ l Hs ltac:(lia) Hch)
    as (l1 & Hbuild & Hs1 & Hm1 & Hlive1 & Hlow & HP).
  rewrite Hbuild. cbn [mbind option_bind].
  destruct (alldiffchunks_patch a b alines blines) as [Hpatch Hin].
  assert (Forall (λ c : chunk,
            holds cl tl (key <$> IntLineLog.inserted (i * 2 + 1) c.1.2 c.2)
              (Py.slice blines c.1.2 c.2))
            (_alldiffchunks a b alines blines)) as Hnew.
  { eapply Forall_impl; [exact Hin|].
    intros [[[a1 a2] b1] b2] [Hb1 Hb2]. cbn [fst snd].
    by apply inserted_text. }
  assert (holds cl tl (key <$> live (IntLineLog.entries l1)) blines) as Hlive1'.
  { rewrite Hlive1, patched_fmap. rewrite <- Hpatch at 2.
    by apply patched_Forall2. }
  destruct (IH (i + 1) l1 b blines (done ++ [blines]))
    as (l' & Hloop & Hs' & Hm' & Hviews' & Hlive' & Htext');
    [lia|..|done| |].
  - rewrite length_app. cbn [length]. lia.
  - rewrite Hcl, fmap_cons. cbn [snd]. by rewrite <- (assoc_L (++)).
  - done.
  - lia.
  - intros j lines Hj.
    apply lookup_app_Some in Hj as [Hj|[Hlen' Hj]].
    + rewrite Hlow; [by apply Hviews|].
      apply lookup_lt_Some in Hj. lia.
    + destruct (j - length done)%nat as [|?] eqn:E; [|done].
      injection Hj as <-.
      unfold content_at.
      rewrite (settled_live_visible _ _ _ Hs1) by lia. done.
  - apply (HP (has_text cl tl)); [done| |done].
    eapply Forall_impl; [exact Hnew|]. intros c Hc.
    eapply holds_has_text, Hc.
  - exists l'. split; [done|]. split; [done|].
    split; [cbn [length]; lia|]. split; [done|]. split; [|done].
    rewrite fmap_cons. cbn [snd].
    destruct items as [|item items]; [done|].
    rewrite !fmap_cons, last_cons_cons. rewrite !fmap_cons in Hlive'.
    destruct (last _) eqn:E; [done|]. by apply last_None in E.
Qed.

(** ** Checking the contents out *)

Lemma checkout_tags (l : IntLineLog.t) (rev : Z) :
  ∃ infos,
    IntLineLog.checkout l rev None
    = infos ++ [IntLineLog.end_line (Z.of_nat (length (IntLineLog.entries l)))]
    ∧ (λ info, (li_rev info, li_linenum info)) <$> infos
      = content_at rev (IntLineLog.entries l).
Proof.
  unfold IntLineLog.checkout. eexists. split; [reflexivity|].
  unfold content_at. rewrite <- list_fmap_compose.
  assert (∀ (es : list IntLineLog.entry) (f : nat → Z),
            (λ p : Z * IntLineLog.entry,
               (IntLineLog.e_rev p.2, IntLineLog.e_linenum p.2))
              <$> filter (λ p : Z * IntLineLog.entry,
                            IntLineLog.visible rev p.2 = true)
                    (imap (λ i e, (f i, e)) es)
            = key <$> filter (λ e, IntLineLog.visible rev e = true) es) as H.
  { induction es as [|e es IH]; intros f; [done|]. cbn [imap].
    destruct (IntLineLog.visible rev e) eqn:Hv.
    - rewrite !filter_cons_True by done. rewrite !fmap_cons.
      f_equal. apply (IH (f ∘ S)).
    - rewrite !filter_cons_False by (cbn; congruence). apply (IH (f ∘ S)). }
  apply (H _ Z.of_nat).
Qed.

Lemma slice_but_last {A} (l : list A) (x : A) :
  Py.slice (l ++ [x]) 0 (-1) = l.
Proof.
  unfold Py.slice, Py.bound. rewrite length_app. cbn [length].
  change (0 <? 0) with false. change (-1 <? 0) with true. cbn match.
  rewrite Z.min_l by lia. rewrite Z.max_r by lia.
  cbn [Z.to_nat drop].
  apply take_app_length'. lia.
Qed.

Lemma concat_cons (x : string) (xs : list string) :
  String.concat EmptyString (x :: xs)
  = (x ++ String.concat EmptyString xs)%string.
Proof.
  destruct xs as [|y xs]; cbn [String.concat]; [|done].
  induction x as [|c x IH]; [done|].
  change (String c x = String c (x ++ EmptyString)%string). by rewrite <- IH.
Qed.

(** Joining the lines of a content gives the content back. *)
Lemma concat_splitnewlines (text : string) :
  String.concat EmptyString (Mdiff.splitnewlines text) = text.
Proof.
  induction text as [|c rest IH]; [done|]. cbn [Mdiff.splitnewlines].
  destruct (decide (c = Mdiff.newline)) as [_|_].
  - rewrite concat_cons, IH. done.
  - destruct (Mdiff.splitnewlines rest) as [|line lines].
    + cbn in IH. by rewrite <- IH.
    + rewrite concat_cons in IH. rewrite concat_cons.
      change (String c (line ++ String.concat EmptyString lines)%string
              = String c rest). by rewrite IH.
Qed.

(** One content checked out of a log that holds it. *)
Lemma checkout_content (st : filefixupstate IntLineLog.t) (rev : Z)
    (lines : list string) :
  holds (contentlines st) (targetlines st)
    (content_at rev (IntLineLog.entries (linelog st))) lines →
  mapM (_getline st) (Py.slice (checkout_lines (linelog st) rev None) 0 (-1))
  = Some lines.
Proof.
  intros Hholds.
  change (checkout_lines (linelog st) rev None)
    with (IntLineLog.checkout (linelog st) rev None).
  destruct (checkout_tags (linelog st) rev) as (infos & -> & Htags).
  rewrite slice_but_last. apply mapM_Some.
  rewrite <- Htags in Hholds. by apply Forall2_fmap_l in Hholds.
Qed.

(** X16.  On the line log and diff modelled from the spec, the log that
    [__init__] builds holds every content: [__init__] succeeds and
    [_checkoutlinelog] returns the contents it was built from (the
    assertion that [__init__] makes in debug mode). *)
Theorem init_checkout_roundtrip (fctxs : list string) :
  ∃ st : filefixupstate IntLineLog.t,
    init fctxs = Some st ∧ _checkoutlinelog st = Some fctxs.
Proof.
  unfold init, _buildlinelog.
  destruct (build_loop_views (Mdiff.splitnewlines <$> fctxs) []
              (zip fctxs (Mdiff.splitnewlines <$> fctxs))
              0 (IntLineLog.Make [] 0) EmptyString [] [])
    as (llog & Hbuild & Hs & Hm & Hviews & _);
    [lia|done| |constructor|cbn; lia|done|constructor|constructor|].
  { by rewrite snd_zip by (by rewrite length_fmap). }
  change (@linelog_new IntLineLog.t _) with (IntLineLog.Make [] 0).
  rewrite Hbuild. cbn [mbind option_bind].
  eexists. split; [reflexivity|].
  unfold _checkoutlinelog. cbn [contents]. apply mapM_Some.
  apply Forall2_same_length_lookup_2.
  { unfold Py.range. rewrite length_seqZ. lia. }
  intros k i text Hi Htext. unfold Py.range in Hi.
  apply lookup_seqZ in Hi as [-> Hk].
  rewrite (checkout_content _ _ (Mdiff.splitnewlines text)).
  - cbn. by rewrite concat_splitnewlines.
  - cbn [contentlines targetlines linelog].
    replace ((0 + Z.of_nat k + 1) * 2) with (2 * Z.of_nat k + 2) by lia.
    apply Hviews. by rewrite list_lookup_fmap, Htext.
Qed.

(** ** The fixups that [diffwith] records *)

Lemma chain_app (lo mid n : Z) (cs1 cs2 : list chunk) :
  chain lo cs1 mid → chain mid cs2 n → chain lo (cs1 ++ cs2) n.
Proof.
  revert lo. induction cs1 as [|[[[a1 a2] b1] b2] cs1 IH]; intros lo; cbn.
  - intros Hlo Hcs2. eapply chain_weaken; [exact Hcs2|lia|lia].
  - intros (? & ? & H) Hcs2. split; [done|]. split; [done|]. by apply IH.
Qed.

(** The fixups of all chunks follow each other inside the old content,
    and their target lines lie inside the target. *)
Lemma diff_fold_fixups (gaps : list Qc) (annotated : list lineinfo)
    (cs : list chunk) (lo n tlen : Z) (adopted total adopted' total' : Z)
    (fs fs' : list fixup) :
  chain lo cs n → Forall (targets_inside tlen) cs →
  fold_left (diff_step gaps annotated) cs (Some (adopted, total, fs))
  = Some (adopted', total', fs') →
  ∃ new, fs' = fs ++ new
         ∧ chain lo (chunk_of <$> new) n
         ∧ Forall (targets_within 0 tlen) new.
Proof.
  revert lo adopted total fs.
  induction cs as [|[[[a1 a2] b1] b2] cs IH]; intros lo adopted total fs Hch Hin;
    cbn [fold_left].
  { intros [= <- <- <-]. exists []. rewrite app_nil_r. done. }
  cbn [chain] in Hch. destruct Hch as (Ha & Hb & Hch).
  apply Forall_cons in Hin as [[Hb1 Hb2] Hin].
  unfold diff_step at 2. cbn [mbind option_bind]. unfold _analysediffchunk.
  destruct (new_fixups gaps (a1, a2, b1, b2) annotated) as [new|] eqn:Hnew; cbn.
  2:{ by rewrite diff_fold_None. }
  intros Hfold.
  destruct (new_fixups_chain _ _ _ _ _ _ _ (proj2 Ha) Hb Hnew) as [Hnch Hall].
  apply (IH a2) in Hfold as (rest & -> & Hrest & Hrin); [|done|done].
  exists (_optimizefixups gaps new ++ rest). rewrite (assoc_L (++)).
  split; [done|]. split.
  - rewrite fmap_app. eapply chain_app; [|exact Hrest].
    eapply chain_weaken; [|exact (proj1 Ha)|reflexivity].
    apply optimizefixups_chain; [|done].
    eapply Forall_impl; [exact Hall|]. by intros f [? _].
  - apply Forall_app. split; [|done].
    apply optimizefixups_closed.
    + intros current c. apply merged_targets_within.
    + split; cbn; lia.
    + eapply Forall_impl; [exact Hall|]. intros f [_ [? Hf]].
      split; [done|]. intros Hlt. specialize (Hf Hlt). lia.
Qed.

(** ** Applying the fixups *)

Lemma content_at_length (r : Z) (es : list IntLineLog.entry) :
  length (content_at r es)
  = length (filter (λ e, IntLineLog.visible r e = true) es).
Proof. unfold content_at. by rewrite length_fmap. Qed.

(** The walk leaves the lines in front of line [a1] in place. *)
Lemma edit_walk_prefix (a_rev a1 a2 b_rev k : Z)
    (new es : list IntLineLog.entry) :
  k ≤ a1 →
  a1 - k ≤ Z.of_nat (length (content_at a_rev es)) →
  a1 - k ≤ Z.of_nat (length (content_at a_rev
                               (IntLineLog.edit_walk a_rev a1 a2 b_rev new k es))).
Proof.
  revert k. induction es as [|e es IH]; intros k Hk Hlen;
    cbn [IntLineLog.edit_walk].
  - cbn in Hlen. lia.
  - rewrite content_at_cons in Hlen.
    destruct (IntLineLog.visible a_rev e) eqn:Hv.
    + destruct (Z.eqb_spec k a1) as [->|Hne]; [lia|].
      cbn [app]. rewrite (proj2 (Z.leb_gt a1 k)) by lia. cbn [andb].
      rewrite content_at_cons, Hv. cbn [length] in Hlen |- *.
      specialize (IH (k + 1)). lia.
    + rewrite content_at_cons, Hv. by apply IH.
Qed.

(** The fixups, edited from the last one to the first: every edit is in
    range, the contents of the revisions below all targets stay as they
    are, and what holds of the old and of the new lines holds of all. *)
Lemma apply_loop_views (max_rev : Z) (fs : list fixup) (l : IntLineLog.t)
    (n : Z) :
  chain 0 (chunk_of <$> fs) n →
  n ≤ Z.of_nat (length (content_at max_rev (IntLineLog.entries l))) →
  ∃ l',
    apply_loop max_rev (reverse fs) l = Some l'
    ∧ (∀ r, Forall (λ f, r < f_rev f) fs →
            content_at r (IntLineLog.entries l')
            = content_at r (IntLineLog.entries l))
    ∧ ∀ P : IntLineLog.entry → Prop,
        (∀ b_rev e, P e → P (IntLineLog.delete_from b_rev e)) →
        Forall (λ f, Forall P (IntLineLog.inserted (f_rev f) (f_b1 f) (f_b2 f)))
          fs →
        Forall P (IntLineLog.entries l) → Forall P (IntLineLog.entries l').
Proof.
  revert l n. induction fs as [|f fs IH] using rev_ind; intros l n Hch Hn.
  { exists l. cbn. done. }
  rewrite fmap_app in Hch. cbn [fmap list_fmap] in Hch. unfold chunk_of at 2 in Hch.
  apply chain_snoc in Hch as (Hfs & Ha & Hb & Ha2).
  pose proof (chain_bounds _ _ _ Hfs) as Hlo.
  destruct (IntLineLog.edit l max_rev (f_a1 f) (f_a2 f) (f_rev f) (f_b1 f) (f_b2 f))
    as [l1|] eqn:Hedit.
  2:{ exfalso. unfold IntLineLog.edit in Hedit.
      rewrite <- content_at_length in Hedit.
      rewrite (proj2 (Z.ltb_ge (f_a1 f) 0)), (proj2 (Z.ltb_ge (f_a2 f) (f_a1 f))),
        (proj2 (Z.ltb_ge (f_b2 f) (f_b1 f))), (proj2 (Z.ltb_ge _ (f_a2 f)))
        in Hedit by lia.
      done. }
  pose proof (edit_entries _ _ _ _ _ _ _ _ Hedit) as [Hent _].
  destruct (IH l1 (f_a1 f) Hfs) as (l' & Hloop & Hlow & HP).
  { rewrite Hent.
    pose proof (edit_walk_prefix max_rev (f_a1 f) (f_a2 f) (f_rev f) 0
                  (IntLineLog.inserted (f_rev f) (f_b1 f) (f_b2 f))
                  (IntLineLog.entries l)). lia. }
  exists l'. rewrite reverse_snoc. cbn [apply_loop].
  change (edit_chunk l max_rev (f_a1 f) (f_a2 f) (f_rev f) (f_b1 f) (f_b2 f))
    with (IntLineLog.edit l max_rev (f_a1 f) (f_a2 f) (f_rev f) (f_b1 f) (f_b2 f)).
  rewrite Hedit. cbn [mbind option_bind].
  split; [exact Hloop|]. split.
  - intros r Hr. apply Forall_app in Hr as [Hr Hf]. apply Forall_inv in Hf.
    rewrite (Hlow r Hr). by eapply edit_below.
  - intros P Hdel Hnew Hl. apply Forall_app in Hnew as [Hnew Hf].
    apply Forall_inv in Hf. apply HP; [done|done|].
    rewrite Hent. apply edit_walk_Forall; [apply Hdel|done|done].
Qed.

(** [_checkoutlinelog] returns when [_getline] finds a text for every
    line of the log. *)
Lemma checkoutlinelog_is_Some (st : filefixupstate IntLineLog.t) :
  Forall (has_text (contentlines st) (targetlines st))
    (IntLineLog.entries (linelog st)) →
  is_Some (_checkoutlinelog st).
Proof.
  intros Htext. unfold _checkoutlinelog.
  apply mapM_is_Some, Forall_forall. intros i _. cbn.
  change (checkout_lines (linelog st) ((i + 1) * 2) None)
    with (IntLineLog.checkout (linelog st) ((i + 1) * 2) None).
  destruct (checkout_tags (linelog st) ((i + 1) * 2)) as (infos & -> & Htags).
  rewrite slice_but_last.
  assert (is_Some (mapM (_getline st) infos)) as [lines ->]; [|done].
  apply mapM_is_Some, Forall_forall. intros info Hinfo. cbn.
  assert ((li_rev info, li_linenum info)
          ∈ content_at ((i + 1) * 2) (IntLineLog.entries (linelog st))) as Hin.
  { rewrite <- Htags. apply list_elem_of_fmap. by exists info. }
  unfold content_at in Hin.
  apply list_elem_of_fmap in Hin as (e & Hkey & He).
  apply list_elem_of_filter in He as [_ He].
  rewrite Forall_forall in Htext. specialize (Htext e He).
  unfold has_text in Htext. by rewrite <- Hkey in Htext.
Qed.

(** ** The recorded fixups are apart from each other *)

Lemma gapped_weaken (lo lo' : Z) (cs : list chunk) :
  gapped lo cs → lo' ≤ lo → gapped lo' cs.
Proof.
  destruct cs as [|[[[a1 a2] b1] b2] cs]; [done|].
  cbn. intros [H1 H2] Hlo. split; [lia|done].
Qed.

(** The change hunks of the diff are separated by blocks of equal lines. *)
Lemma blocks_gapped (s : list Mdiff.op) :
  ∀ (same : bool) (a1 a2 b1 b2 : Z),
    gapped (if same then a2 else a1)
      (changed (Mdiff.blocks s same a1 a2 b1 b2)).
Proof.
  assert (∀ a1 a2 b1 b2 bs,
            changed (Mdiff.close true a1 a2 b1 b2 ++ bs) = changed bs) as Hsame.
  { intros a1 a2 b1 b2 bs. unfold Mdiff.close, changed.
    by destruct ((a1 =? a2) && (b1 =? b2)). }
  assert (∀ a1 a2 b1 b2 bs,
            gapped (a2 + 1) (changed bs) →
            gapped a1 (changed (Mdiff.close false a1 a2 b1 b2 ++ bs))) as Hdiff.
  { intros a1 a2 b1 b2 bs Hbs. unfold Mdiff.close.
    destruct ((a1 =? a2) && (b1 =? b2)) eqn:E.
    - apply andb_prop in E as [E%Z.eqb_eq _]. cbn [app].
      eapply gapped_weaken; [exact Hbs|lia].
    - unfold changed. cbn. split; [lia|exact Hbs]. }
  induction s as [|o s IH]; intros same a1 a2 b1 b2.
  - cbn [Mdiff.blocks]. rewrite <- (app_nil_r (Mdiff.close _ _ _ _ _)).
    destruct same; [by rewrite Hsame|]. by apply Hdiff.
  - cbn [Mdiff.blocks]. cbn zeta.
    destruct same, o; cbn [Mdiff.is_keep];
      try rewrite bool_decide_eq_true_2 by done;
      try rewrite bool_decide_eq_false_2 by done.
    + eapply gapped_weaken; [apply (IH true)|lia].
    + rewrite Hsame. apply (IH false).
    + rewrite Hsame. apply (IH false).
    + apply Hdiff. apply (IH true).
    + apply (IH false).
    + apply (IH false).
Qed.

Lemma alldiffchunks_gapped (a b : string) (alines blines : list string) :
  gapped 0 (_alldiffchunks a b alines blines).
Proof. apply (blocks_gapped _ true 0 0 0 0). Qed.

Lemma chain_inside (lo hi : Z) (fs : list fixup) :
  chain lo (chunk_of <$> fs) hi →
  Forall (λ f, lo ≤ f_a1 f ∧ f_a1 f ≤ f_a2 f ∧ f_a2 f ≤ hi) fs.
Proof.
  revert lo. induction fs as [|f fs IH]; intros lo; [constructor|].
  cbn. intros (Ha & _ & Hch). pose proof (chain_bounds _ _ _ Hch).
  constructor; [lia|]. eapply Forall_impl; [exact (IH _ Hch)|].
  cbn. intros g. lia.
Qed.

(** Fixups that follow each other and replace at least one line each start
    behind each other. *)
Lemma chain_separated (lo hi : Z) (fs : list fixup) :
  chain lo (chunk_of <$> fs) hi →
  Forall (λ f, f_a1 f < f_a2 f) fs → separated fs.
Proof.
  revert lo. induction fs as [|f fs IH]; intros lo; [constructor|].
  cbn. intros (Ha & _ & Hch) [Hf Hfs]%Forall_cons.
  constructor; [by eapply IH|].
  eapply Forall_impl; [exact (chain_inside _ _ _ Hch)|].
  cbn. intros g. lia.
Qed.

Lemma line_fixups_proper (annotated : list lineinfo) (a1 b1 b2 : Z)
    (l : list Z) (fs : list fixup) :
  mjoin <$> mapM (line_fixup annotated a1 b1 b2) l = Some fs →
  Forall (λ f, f_a1 f < f_a2 f) fs.
Proof.
  destruct (mapM _ _) as [k|] eqn:Hk; [|done]. cbn. intros [= <-].
  apply mapM_Some_1 in Hk.
  apply Forall_forall. intros f (out & Hf & Hout)%list_elem_of_join.
  apply list_elem_of_lookup in Hout as [n Hn].
  destruct (Forall2_lookup_r _ _ _ _ _ Hk Hn) as (i & _ & Hi).
  unfold line_fixup in Hi.
  destruct (Py.index annotated i) as [r|]; [|done]. cbn in Hi.
  destruct (1 <? li_rev r); injection Hi as <-.
  - apply list_elem_of_singleton in Hf as ->. cbn. lia.
  - by apply elem_of_nil in Hf.
Qed.

(** The fixups that are returned for one hunk. *)
Lemma analysed_separated (gaps : list Qc) (annotated : list lineinfo)
    (a1 a2 b1 b2 : Z) (new : list fixup) :
  a1 ≤ a2 → b1 ≤ b2 →
  new_fixups gaps (a1, a2, b1, b2) annotated = Some new →
  separated (_optimizefixups gaps new).
Proof.
  intros Ha Hb Hnew.
  destruct (new_fixups_chain _ _ _ _ _ _ _ Ha Hb Hnew) as [Hch Hall].
  assert (Forall (λ f, 0 ≤ f_rev f) new) as Hrevs.
  { eapply Forall_impl; [exact Hall|]. by intros f [? _]. }
  unfold new_fixups in Hnew.
  destruct (involved_lines annotated a1 a2) as [involved|]; [|done].
  cbn [mbind option_bind] in Hnew. case_match.
  - destruct (involved_revs involved !! 0%nat) as [rev|]; [|done].
    cbn in Hnew. destruct (Z.ltb_spec 1 rev); injection Hnew as <-.
    + rewrite optimizefixups_single by (cbn; lia).
      repeat constructor.
    + constructor.
  - case_match; [|injection Hnew as <-; constructor].
    apply line_fixups_proper in Hnew.
    apply (chain_separated a1 a2).
    + by apply optimizefixups_chain.
    + assert (Forall (λ f, 0 ≤ f_rev f → f_a1 f < f_a2 f)
                (_optimizefixups gaps new)) as Hprop.
      { apply optimizefixups_closed.
        - intros current c Hcur Hc (Hma & _ & Hmr)%mergeable_spec.
          unfold merged. cbn [f_rev f_a1 f_a2]. lia.
        - cbn. lia.
        - eapply Forall_impl; [exact Hnew|]. by intros f ? _. }
      pose proof (optimizefixups_revisions (λ r, 0 ≤ r) gaps new Hrevs) as Hr.
      rewrite Forall_forall in Hprop, Hr.
      apply Forall_forall. intros f Hf. apply Hprop; [done|by apply Hr].
Qed.

(** The fixups that [diffwith] records start behind each other, and none
    starts before the end of the one before it. *)
Lemma diff_fold_separated (gaps : list Qc) (annotated : list lineinfo)
    (cs : list chunk) :
  ∀ (lo0 lo n : Z) (adopted total adopted' total' : Z) (fs fs' : list fixup),
    chain lo0 cs n → gapped lo cs →
    separated fs → Forall (λ f, f_a1 f ≤ f_a2 f ∧ f_a2 f < lo) fs →
    fold_left (diff_step gaps annotated) cs (Some (adopted, total, fs))
    = Some (adopted', total', fs') →
    separated fs'.
Proof.
  induction cs as [|[[[a1 a2] b1] b2] cs IH];
    intros lo0 lo n adopted total adopted' total' fs fs' Hch Hgap Hsep Hfs;
    cbn [fold_left].
  { by intros [= <- <- <-]. }
  cbn [chain] in Hch. destruct Hch as (Ha & Hb & Hch).
  cbn [gapped] in Hgap. destruct Hgap as [Hlo Hgap].
  unfold diff_step at 2. cbn [mbind option_bind]. unfold _analysediffchunk.
  destruct (new_fixups gaps (a1, a2, b1, b2) annotated) as [new|] eqn:Hnew; cbn.
  2:{ by rewrite diff_fold_None. }
  destruct (new_fixups_chain _ _ _ _ _ _ _ (proj2 Ha) Hb Hnew) as [Hnch Hall].
  assert (Forall (λ f, a1 ≤ f_a1 f ∧ f_a1 f ≤ f_a2 f ∧ f_a2 f ≤ a2)
            (_optimizefixups gaps new)) as Hin.
  { apply chain_inside, optimizefixups_chain; [|done].
    eapply Forall_impl; [exact Hall|]. by intros f [? _]. }
  apply (IH a2 (a2 + 1) n); [done|done| |].
  - apply StronglySorted_app_2; [|done|].
    + intros f g Hf Hg. rewrite Forall_forall in Hfs, Hin.
      specialize (Hfs f Hf). specialize (Hin g Hg). lia.
    + by eapply analysed_separated; [exact (proj2 Ha)|exact Hb|].
  - apply Forall_app. split.
    + eapply Forall_impl; [exact Hfs|]. cbn. intros f. lia.
    + eapply Forall_impl; [exact Hin|]. cbn. intros f. lia.
Qed.

(** ** The whole run on one file *)

(** The log that [__init__] builds, with what it holds. *)
Lemma built_log (fctxs : list string) (tl : list string) :
  ∃ llog : IntLineLog.t,
    _buildlinelog fctxs (Mdiff.splitnewlines <$> fctxs) = Some llog
    ∧ settled (IntLineLog.maxrev llog) (IntLineLog.entries llog)
    ∧ (∀ (j : nat) lines,
         (Mdiff.splitnewlines <$> fctxs) !! j = Some lines →
         holds (Mdiff.splitnewlines <$> fctxs) tl
           (content_at (2 * Z.of_nat j + 2) (IntLineLog.entries llog)) lines)
    ∧ length (live (IntLineLog.entries llog))
      = length (default [] (last (Mdiff.splitnewlines <$> fctxs)))
    ∧ Forall (has_text (Mdiff.splitnewlines <$> fctxs) tl)
        (IntLineLog.entries llog)
    ∧ Forall (λ e, Z.odd (IntLineLog.e_rev e) = true) (IntLineLog.entries llog)
    ∧ IntLineLog.maxrev llog ≤ 2 * Z.of_nat (length fctxs).
Proof.
  unfold _buildlinelog.
  change (@linelog_new IntLineLog.t _) with (IntLineLog.Make [] 0).
  destruct (build_loop_views (Mdiff.splitnewlines <$> fctxs) tl
              (zip fctxs (Mdiff.splitnewlines <$> fctxs))
              0 (IntLineLog.Make [] 0) EmptyString [] [])
    as (llog & Hbuild & Hs & Hm & Hviews & Hlive & Htext);
    [lia|done| |constructor|cbn; lia|done|constructor|constructor|].
  { by rewrite snd_zip by (by rewrite length_fmap). }
  exists llog. split; [done|]. split; [done|]. split; [done|].
  rewrite snd_zip in Hlive by (by rewrite length_fmap).
  split; [|split; [done|split]].
  - apply Forall2_length in Hlive. by rewrite length_fmap in Hlive.
  - eapply build_loop_odd; [exact Hbuild|constructor].
  - rewrite length_zip, length_fmap in Hm. lia.
Qed.

Lemma even_line_text (cl : list (list string)) (tl : list string)
    (rev j : Z) :
  Z.even rev = true → 0 ≤ j < Z.of_nat (length tl) →
  line_text cl tl (rev, j) = tl !! Z.to_nat j.
Proof.
  intros Hrev Hj. unfold line_text. cbn [fst snd].
  change 1 with (Z.ones 1) at 1. rewrite Z.land_ones by lia.
  change (2 ^ 1) with 2. rewrite Zmod_even, Hrev. cbn.
  by rewrite index_nonneg by lia.
Qed.

Lemma inserted_has_text (cl : list (list string)) (tl : list string)
    (f : fixup) :
  Z.even (f_rev f) = true → targets_within 0 (Z.of_nat (length tl)) f →
  Forall (has_text cl tl) (IntLineLog.inserted (f_rev f) (f_b1 f) (f_b2 f)).
Proof.
  intros Hrev [Hle Hin]. unfold IntLineLog.inserted, Py.range.
  apply Forall_fmap, Forall_forall. intros j Hj%elem_of_seqZ.
  unfold has_text, key. cbn.
  rewrite even_line_text by (done || lia).
  apply lookup_lt_is_Some_2. lia.
Qed.

(** [__init__] and [diffwith] on a stack of contents, with what the log
    holds and what the recorded fixups look like. *)
Lemma diffwith_built (older : list string) (newest target : string) :
  ∃ (llog : IntLineLog.t) (annotated : list lineinfo) (adopted total : Z)
    (fs : list fixup),
    init (older ++ [newest])
    = Some (FileFixupState (older ++ [newest])
              (Mdiff.splitnewlines <$> older ++ [newest]) llog
              (_calculate_gap_lines llog) (0, 0) [] [] [])
    ∧ diffwith (FileFixupState (older ++ [newest])
                  (Mdiff.splitnewlines <$> older ++ [newest]) llog
                  (_calculate_gap_lines llog) (0, 0) [] [] []) target
      = Some (FileFixupState (older ++ [newest])
                (Mdiff.splitnewlines <$> older ++ [newest]) llog
                (_calculate_gap_lines llog) (adopted, total)
                (Mdiff.splitnewlines target) fs [])
    ∧ fold_left (diff_step (_calculate_gap_lines llog) annotated)
        (_alldiffchunks newest target (Mdiff.splitnewlines newest)
           (Mdiff.splitnewlines target))
        (Some (0, 0, []))
      = Some (adopted, total, fs)
    ∧ (∀ (j : nat) lines,
         (Mdiff.splitnewlines <$> older ++ [newest]) !! j = Some lines →
         holds (Mdiff.splitnewlines <$> older ++ [newest])
           (Mdiff.splitnewlines target)
           (content_at (2 * Z.of_nat j + 2) (IntLineLog.entries llog)) lines)
    ∧ Forall (has_text (Mdiff.splitnewlines <$> older ++ [newest])
                (Mdiff.splitnewlines target)) (IntLineLog.entries llog)
    ∧ chain 0 (chunk_of <$> fs)
        (Z.of_nat (length (content_at (IntLineLog.maxrev llog)
                             (IntLineLog.entries llog))))
    ∧ Forall (targets_within 0 (Z.of_nat (length (Mdiff.splitnewlines target))))
        fs
    ∧ Forall (λ f, Z.even (f_rev f) = true ∧ 4 ≤ f_rev f) fs
    ∧ Forall (λ f, f_rev f ≤ 2 * Z.of_nat (length (older ++ [newest]))) fs
    ∧ chain 0 (chunk_of <$> fs)
        (Z.of_nat (length (Mdiff.splitnewlines newest)))
    ∧ separated fs
    ∧ fix_last_line (checkout_lines llog (max_rev llog) None) = Some annotated.
Proof.
  destruct (built_log (older ++ [newest]) (Mdiff.splitnewlines target))
    as (llog & Hbuild & Hs & Hviews & Hlen & Htext & Hodd & Hmax).
  rewrite fmap_app in Hlen.
  change (Mdiff.splitnewlines <$> [newest])
    with [Mdiff.splitnewlines newest] in Hlen.
  rewrite last_snoc in Hlen. cbn [default] in Hlen.
  destruct (fix_last_line_length
              (checkout_lines llog (max_rev llog) None))
    as (annotated & Hfix & Hann).
  assert (length (content_at (IntLineLog.maxrev llog) (IntLineLog.entries llog))
          = length (Mdiff.splitnewlines newest)) as Hcnt.
  { rewrite content_at_length.
    by rewrite (settled_live_visible _ _ _ Hs) by lia. }
  assert (length annotated = S (length (Mdiff.splitnewlines newest))) as Hlen'.
  { rewrite Hann.
    change (checkout_lines llog (max_rev llog) None)
      with (IntLineLog.checkout llog (IntLineLog.maxrev llog) None).
    rewrite checkout_length, <- content_at_length. lia. }
  destruct (alldiffchunks_chain newest target (Mdiff.splitnewlines newest)
              (Mdiff.splitnewlines target)) as [Hch _].
  destruct (alldiffchunks_patch newest target (Mdiff.splitnewlines newest)
              (Mdiff.splitnewlines target)) as [_ Hin].
  destruct (diff_fold_inside (_calculate_gap_lines llog) annotated _ 0 _
              (0, 0, []) ltac:(lia) Hch ltac:(lia))
    as [[[adopted total] fs] Hfold].
  exists llog, annotated, adopted, total, fs.
  split; [|split; [|split; [done|split; [done|split; [done|]]]]].
  - unfold init. rewrite Hbuild. done.
  - unfold diffwith.
    cbn [contents contentlines linelog gap_lines chunkstats fixups finalcontents].
    rewrite index_last, fmap_app.
    change (Mdiff.splitnewlines <$> [newest]) with [Mdiff.splitnewlines newest].
    rewrite index_last. cbn [mbind option_bind].
    rewrite Hfix. cbn [mbind option_bind].
    rewrite bool_decide_eq_true_2 by lia.
    cbn [fst snd]. rewrite Hfold. done.
  - destruct (diff_fold_fixups _ _ _ _ _ _ _ _ _ _ _ _ Hch Hin Hfold)
      as (new & Hnew & Hnch & Hnin).
    cbn [app] in Hnew. subst new. rewrite Hcnt.
    split; [done|]. split; [done|].
    assert (Forall (λ f, (Z.even (f_rev f) = true ∧ 4 ≤ f_rev f)
                         ∧ f_rev f ≤ 2 * Z.of_nat (length (older ++ [newest])))
              fs) as Hrevs.
    { eapply (diff_fold_revisions
                (λ rev, (Z.even rev = true ∧ 4 ≤ rev)
                        ∧ rev ≤ 2 * Z.of_nat (length (older ++ [newest]))));
        [|exact Hfold|constructor].
      intros r Hr Hlt.
      assert (Forall (λ r, 1 < li_rev r →
                           Z.odd (li_rev r) = true
                           ∧ li_rev r ≤ IntLineLog.maxrev llog) annotated)
        as Hall.
      { eapply (fix_last_line_Forall
                  (λ rev, 1 < rev →
                          Z.odd rev = true ∧ rev ≤ IntLineLog.maxrev llog));
          [exact Hfix|].
        apply Forall_forall.
        intros r' [H0|(e & He & ->)]%checkout_elem_of; [lia|].
        intros _. unfold settled in Hs. rewrite Forall_forall in Hodd, Hs.
        split; [by apply Hodd|by apply Hs]. }
      rewrite Forall_forall in Hall.
      destruct (Hall r Hr Hlt) as [Hr_odd Hr_max].
      split; [split|].
      + by rewrite Z.add_1_r, Z.even_succ.
      + apply Z.odd_spec in Hr_odd as [m Hm]. lia.
      + apply Z.odd_spec in Hr_odd as [m Hm]. lia. }
    split; [|split; [|split; [done|split; [|exact Hfix]]]].
    + eapply Forall_impl; [exact Hrevs|]. by intros f [? _].
    + eapply Forall_impl; [exact Hrevs|]. by intros f [_ ?].
    + eapply (diff_fold_separated _ _ _ 0 0);
        [exact Hch|apply alldiffchunks_gapped|constructor|constructor
        |exact Hfold].
Qed.

(** The whole run returns, and the final log differs from the built one
    only at the revisions that the fixups target. *)
Lemma absorb_file_returns (older : list string) (newest target : string) :
  ∃ (st : filefixupstate IntLineLog.t) (llog : IntLineLog.t)
    (annotated : list lineinfo),
    absorb_file (older ++ [newest]) target = Some st
    ∧ contents st = older ++ [newest]
    ∧ _checkoutlinelog st = Some (finalcontents st)
    ∧ fold_left (diff_step (_calculate_gap_lines llog) annotated)
        (_alldiffchunks newest target (Mdiff.splitnewlines newest)
           (Mdiff.splitnewlines target))
        (Some (0, 0, []))
      = Some (chunkstats st, fixups st)
    ∧ Forall (λ f, Z.even (f_rev f) = true ∧ 4 ≤ f_rev f) (fixups st)
    ∧ (∀ (j : nat) lines,
         Forall (λ f, 2 * Z.of_nat j + 2 < f_rev f) (fixups st) →
         (Mdiff.splitnewlines <$> older ++ [newest]) !! j = Some lines →
         holds (contentlines st) (targetlines st)
           (content_at (2 * Z.of_nat j + 2)
              (IntLineLog.entries (linelog st))) lines).
Proof.
  destruct (diffwith_built older newest target)
    as (llog & annotated & adopted & total & fs & Hinit & Hdiff & Hfold
        & Hviews & Htext & Hch & Hin & Hrevs & _).
  destruct (apply_loop_views (IntLineLog.maxrev llog) fs llog _ Hch ltac:(lia))
    as (llog' & Hloop & Hlow & HP).
  assert (Forall (has_text (Mdiff.splitnewlines <$> older ++ [newest])
                    (Mdiff.splitnewlines target))
            (IntLineLog.entries llog')) as Htext'.
  { apply HP; [by intros b_rev e| |done].
    apply Forall_forall. intros f Hf.
    rewrite Forall_forall in Hin, Hrevs.
    apply inserted_has_text; [by apply Hrevs|by apply Hin]. }
  destruct (checkoutlinelog_is_Some
              (FileFixupState (older ++ [newest])
                 (Mdiff.splitnewlines <$> older ++ [newest]) llog'
                 (_calculate_gap_lines llog) (adopted, total)
                 (Mdiff.splitnewlines target) fs []) Htext') as [final Hfinal].
  exists (FileFixupState (older ++ [newest])
            (Mdiff.splitnewlines <$> older ++ [newest]) llog'
            (_calculate_gap_lines llog) (adopted, total)
            (Mdiff.splitnewlines target) fs final), llog, annotated.
  split; [|split; [done|split; [exact Hfinal|split; [exact Hfold|]]]].
  - unfold absorb_file. rewrite Hinit. cbn [mbind option_bind].
    rewrite Hdiff. cbn [mbind option_bind]. unfold apply.
    cbn [contents contentlines linelog gap_lines chunkstats targetlines
         fixups finalcontents].
    change (max_rev llog) with (IntLineLog.maxrev llog).
    rewrite Hloop. cbn [mbind option_bind]. by rewrite Hfinal.
  - split; [done|]. intros j lines Hj Hlines.
    cbn [contentlines targetlines linelog fixups] in Hj |- *.
    rewrite (Hlow _ Hj). by apply Hviews.
Qed.

(** The final content of index [i], from what the final log holds at
    revision [2 i + 2]. *)
Lemma final_content (st : filefixupstate IntLineLog.t) (i : nat)
    (lines : list string) :
  _checkoutlinelog st = Some (finalcontents st) →
  (i < length (contents st))%nat →
  holds (contentlines st) (targetlines st)
    (content_at (2 * Z.of_nat i + 2) (IntLineLog.entries (linelog st))) lines →
  finalcontents st !! i = Some (String.concat EmptyString lines).
Proof.
  intros Hfinal Hi Hholds. unfold _checkoutlinelog in Hfinal.
  apply mapM_Some in Hfinal.
  assert (Py.range 0 (Z.of_nat (length (contents st))) !! i
          = Some (Z.of_nat i)) as Hrange.
  { unfold Py.range. by rewrite lookup_seqZ_lt by lia. }
  destruct (Forall2_lookup_l _ _ _ _ _ Hfinal Hrange) as (text & Htext & Hout).
  cbn beta zeta in Hout. rewrite Htext. f_equal.
  replace ((Z.of_nat i + 1) * 2) with (2 * Z.of_nat i + 2) in Hout by lia.
  rewrite (checkout_content st _ lines Hholds) in Hout. cbn in Hout.
  by injection Hout.
Qed.

(** X17.  On the line log and diff modelled from the spec, the whole run
    on one file ([__init__], [diffwith], [apply]) never raises for a
    non-empty stack of contents, whatever the target is, and leaves one
    final content for every content of the stack. *)
Theorem absorb_file_never_raises (older : list string) (newest target : string) :
  ∃ st : filefixupstate IntLineLog.t,
    absorb_file (older ++ [newest]) target = Some st
    ∧ contents st = older ++ [newest]
    ∧ length (finalcontents st) = length (older ++ [newest]).
Proof.
  destruct (absorb_file_returns older newest target)
    as (st & llog & annotated & Hrun & Hcontents & Hfinal & _).
  exists st. split; [done|]. split; [done|].
  unfold _checkoutlinelog in Hfinal.
  apply mapM_Some_1, Forall2_length in Hfinal.
  unfold Py.range in Hfinal. rewrite length_seqZ in Hfinal.
  rewrite <- Hcontents. lia.
Qed.

(** X18.  The run never changes a content below the revisions that the
    fixups target: if every recorded fixup has a revision above
    [2 i + 2], the final content of index [i] is the content of index
    [i].  In particular the oldest content, which [__init__] calls
    immutable, always stays as it is. *)
Theorem absorb_file_keeps_older (older : list string) (newest target : string) :
  ∃ st : filefixupstate IntLineLog.t,
    absorb_file (older ++ [newest]) target = Some st
    ∧ (∀ (i : nat) (text : string),
         Forall (λ f, 2 * Z.of_nat i + 2 < f_rev f) (fixups st) →
         (older ++ [newest]) !! i = Some text →
         finalcontents st !! i = Some text)
    ∧ finalcontents st !! 0%nat = (older ++ [newest]) !! 0%nat.
Proof.
  destruct (absorb_file_returns older newest target)
    as (st & llog & annotated & Hrun & Hcontents & Hfinal & _ & Hrevs & Hviews).
  exists st. split; [done|].
  assert (∀ (i : nat) (text : string),
            Forall (λ f, 2 * Z.of_nat i + 2 < f_rev f) (fixups st) →
            (older ++ [newest]) !! i = Some text →
            finalcontents st !! i = Some text) as Hkeep.
  { intros i text Hi Htext.
    rewrite (final_content st i (Mdiff.splitnewlines text)).
    - by rewrite concat_splitnewlines.
    - done.
    - rewrite Hcontents. by eapply lookup_lt_Some.
    - apply Hviews; [done|]. by rewrite list_lookup_fmap, Htext. }
  split; [done|].
  destruct ((older ++ [newest]) !! 0%nat) as [text|] eqn:Htext.
  - apply Hkeep; [|done]. eapply Forall_impl; [exact Hrevs|].
    intros f [_ Hf]. cbn. lia.
  - apply lookup_ge_None in Htext. rewrite length_app in Htext.
    cbn in Htext. lia.
Qed.

(** X19.  Absorbing a target that equals the newest content records no
    fixup and leaves every content as it is. *)
Theorem absorb_file_unchanged_target (older : list string) (newest : string) :
  ∃ st : filefixupstate IntLineLog.t,
    absorb_file (older ++ [newest]) newest = Some st
    ∧ fixups st = []
    ∧ finalcontents st = older ++ [newest].
Proof.
  destruct (absorb_file_returns older newest newest)
    as (st & llog & annotated & Hrun & Hcontents & Hfinal & Hfold & _ & Hviews).
  rewrite alldiffchunks_same in Hfold. cbn [fold_left] in Hfold.
  injection Hfold as Hstats Hfixups.
  exists st. split; [done|]. split; [done|].
  assert (length (finalcontents st) = length (older ++ [newest])) as Hlen.
  { pose proof Hfinal as Hl. unfold _checkoutlinelog in Hl.
    apply mapM_Some_1, Forall2_length in Hl. unfold Py.range in Hl.
    rewrite length_seqZ in Hl. rewrite <- Hcontents. lia. }
  apply list_eq. intros i.
  destruct ((older ++ [newest]) !! i) as [text|] eqn:Htext.
  - rewrite (final_content st i (Mdiff.splitnewlines text)).
    + by rewrite concat_splitnewlines.
    + done.
    + rewrite Hcontents. by eapply lookup_lt_Some.
    + apply Hviews; [by rewrite <- Hfixups|].
      by rewrite list_lookup_fmap, Htext.
  - apply lookup_ge_None. apply lookup_ge_None in Htext. lia.
Qed.

(** ** [getfilestack] *)

Section uniq_more.
Context {A : Type} `{!EqDecision A, !countable.Countable A}.
Implicit Types (l : list A).

Lemma uniq_length l : (length (uniq l) ≤ length l)%nat.
Proof.
  induction l as [|y l IH] using rev_ind; [done|].
  rewrite uniq_snoc, length_app. cbn [length].
  destruct (decide (y ∈ l)); [lia|]. rewrite length_app. cbn [length]. lia.
Qed.

Lemma uniq_head l x : head (uniq (x :: l)) = Some x.
Proof.
  induction l as [|y l IH] using rev_ind; [done|].
  rewrite app_comm_cons, uniq_snoc.
  destruct (decide (y ∈ x :: l)); [done|].
  by destruct (uniq (x :: l)).
Qed.

End uniq_more.

Section getfilestack_properties.
Context {C F : Type} `{!ChangeCtx C, !FileCtx C F}.
Context `{!EqDecision C, !countable.Countable C}.
Context `{!EqDecision F, !countable.Countable F}.

(** What the loop appends: at most one file context for each changeset,
    never the dummy one, first the file of the first changeset; and what
    it maps: changesets of the stack to file contexts that it appended. *)
Lemma filestack_loop_spec (seen : gmap.gset F) (ctxs : list C) :
  ∀ (path : string) (fctxs : list (option F)) (fctxmap : gmap.gmap C F)
    (pctx : option C),
  ∃ path' new fctxmap' pctx',
    filestack_loop seen ctxs path fctxs fctxmap pctx
    = (path', fctxs ++ new, fctxmap', pctx')
    ∧ (length new ≤ length ctxs)%nat
    ∧ Forall is_Some new
    ∧ (∀ ctx f, fctxmap' !! ctx = Some f →
         fctxmap !! ctx = Some f ∨ (ctx ∈ ctxs ∧ Some f ∈ new))
    ∧ (∀ c cs, ctxs = c :: cs → has_path c path = true →
         head new = Some (Some (filectx c path))).
Proof.
  induction ctxs as [|ctx ctxs IH]; intros path fctxs fctxmap pctx;
    cbn [filestack_loop].
  { exists path, [], fctxmap, pctx. rewrite app_nil_r.
    split; [done|]. split; [done|]. split; [done|]. split; [by left|done]. }
  destruct (has_path ctx path) eqn:Hpath; cbn [negb].
  2:{ exists path, [], fctxmap, (Some ctx). rewrite app_nil_r.
      split; [done|]. split; [cbn; lia|]. split; [done|].
      split; [by left|]. intros c cs [= <- <-]. congruence. }
  destruct (decide (filectx ctx path ∈ seen)) as [Hseen|Hseen].
  { exists path, [Some (filectx ctx path)], fctxmap, None.
    split; [done|]. split; [cbn; lia|].
    split; [by repeat constructor|]. split; [by left|].
    by intros c cs [= <- <-] _. }
  assert (∀ ctx' f,
            <[ctx := filectx ctx path]> fctxmap !! ctx' = Some f →
            fctxmap !! ctx' = Some f
            ∨ (ctx' ∈ ctx :: ctxs
               ∧ Some f ∈ [Some (filectx ctx path)])) as Hins.
  { intros ctx' f [[<- <-]|[_ Hf]]%fin_maps.lookup_insert_Some.
    - right. split; left.
    - by left. }
  assert (∀ path1,
            ∃ path' new fctxmap' pctx',
              filestack_loop seen ctxs path1 (fctxs ++ [Some (filectx ctx path)])
                (<[ctx := filectx ctx path]> fctxmap) pctx
              = (path', fctxs ++ new, fctxmap', pctx')
              ∧ (length new ≤ length (ctx :: ctxs))%nat
              ∧ Forall is_Some new
              ∧ (∀ ctx' f, fctxmap' !! ctx' = Some f →
                   fctxmap !! ctx' = Some f
                   ∨ (ctx' ∈ ctx :: ctxs ∧ Some f ∈ new))
              ∧ (∀ c cs, ctx :: ctxs = c :: cs → has_path c path = true →
                   head new = Some (Some (filectx c path)))) as Hrest.
  { intros path1.
    destruct (IH path1 (fctxs ++ [Some (filectx ctx path)])
                (<[ctx := filectx ctx path]> fctxmap) pctx)
      as (path' & new & fctxmap' & pctx' & -> & Hlen & Hreal & Hmap & _).
    exists path', (Some (filectx ctx path) :: new), fctxmap', pctx'.
    rewrite <- (assoc_L (++)). split; [done|]. split; [cbn; lia|].
    split; [by constructor|]. split.
    - intros ctx' f [Hf|[Hc Hf]]%Hmap.
      + apply Hins in Hf as [Hf|[Hc Hf]]; [by left|].
        right. split; [done|]. apply list_elem_of_singleton in Hf as ->. left.
      + right. split; by right.
    - by intros c cs [= <- <-] _. }
  destruct (renamed (filectx ctx path)) as [path1|]; [|apply Hrest].
  destruct (has_path ctx path1); [|apply Hrest].
  exists path1, [Some (filectx ctx path)],
    (<[ctx := filectx ctx path]> fctxmap), (Some (p1 ctx)).
  split; [done|]. split; [cbn; lia|]. split; [by repeat constructor|].
  split; [exact Hins|]. by intros c cs [= <- <-] _.
Qed.

(** X20.  [getfilestack] fails its assertion on an empty stack and
    returns an empty list and an empty map when the path is not in the
    top of the stack.  Otherwise it returns a list without repetition that
    holds the file of the top, has at most one entry more than the stack
    has changesets, and holds the dummy empty file at most as its first
    entry; the map sends changesets of the stack to file contexts of the
    list. *)
Theorem getfilestack_shape (stack : list C) (path : string)
    (seenfctxs : gmap.gset F) :
  (stack = [] → getfilestack stack path seenfctxs = None)
  ∧ (∀ top, last stack = Some top → has_path top path = false →
       getfilestack stack path seenfctxs = Some ([], ∅))
  ∧ (∀ top, last stack = Some top → has_path top path = true →
       ∃ fctxs fctxmap,
         getfilestack stack path seenfctxs = Some (fctxs, fctxmap)
         ∧ NoDup fctxs
         ∧ Some (filectx top path) ∈ fctxs
         ∧ (length fctxs ≤ length stack + 1)%nat
         ∧ (None ∈ fctxs → head fctxs = Some None)
         ∧ ∀ ctx f, fctxmap !! ctx = Some f → ctx ∈ stack ∧ Some f ∈ fctxs).
Proof.
  split; [by intros ->|]. split.
  - intros top Htop Hpath. unfold getfilestack. rewrite Htop.
    destruct (head stack) eqn:Hhead; [by rewrite Hpath|].
    apply head_None in Hhead. by subst.
  - intros top Htop Hpath. unfold getfilestack. rewrite Htop.
    destruct (head stack) as [bottom|] eqn:Hhead.
    2:{ apply head_None in Hhead. by subst. }
    rewrite Hpath. cbn [negb].
    apply last_Some in Htop as [older ->]. rewrite reverse_snoc.
    destruct (filestack_loop_spec seenfctxs (top :: reverse older) path [] ∅
                (Some (p1 bottom)))
      as (path' & new & fctxmap & pctx & -> & Hlen & Hreal & Hmap & Hfirst).
    cbn [app]. eexists _, _. split; [reflexivity|].
    specialize (Hfirst top (reverse older) eq_refl Hpath).
    assert (Some (filectx top path) ∈ new) as Htop_in.
    { destruct new as [|x new]; [done|]. injection Hfirst as ->. left. }
    cbn [length] in Hlen. rewrite length_reverse in Hlen.
    split; [apply uniq_NoDup|]. split; [|split; [|split]].
    + apply uniq_elem_of, elem_of_reverse.
      destruct pctx; [rewrite elem_of_app; by left|done].
    + etrans; [apply uniq_length|]. rewrite length_reverse, length_app.
      destruct pctx; rewrite ?length_app; cbn [length]; lia.
    + intros Hnone. rewrite uniq_elem_of, elem_of_reverse in Hnone.
      assert (None ∉ new) as Hnew.
      { intros Hin. rewrite Forall_forall in Hreal.
        by destruct (Hreal None Hin). }
      destruct pctx as [pctx|]; [|by destruct Hnew].
      apply elem_of_app in Hnone as [?|Hnone]; [done|].
      apply list_elem_of_singleton in Hnone as <-.
      rewrite reverse_snoc. apply uniq_head.
    + intros ctx f [Hf|[Hctx Hf]]%Hmap; [done|]. split.
      * rewrite <- reverse_snoc in Hctx. by rewrite elem_of_reverse in Hctx.
      * apply uniq_elem_of, elem_of_reverse.
        destruct pctx; [rewrite elem_of_app; by left|done].
Qed.

End getfilestack_properties.

(** ** The order of the patches *)

#[local] Instance Z_total_compare : TotalCompare Z.compare.
Proof.
  split.
  - apply Z.compare_eq.
  - apply Z.compare_refl.
  - intros x y. apply Z.compare_antisym.
  - intros x y z. rewrite !Z.compare_lt_iff. lia.
Qed.

Lemma ascii_compare_refl (a : ascii) : Ascii.compare a a = Eq.
Proof. unfold Ascii.compare. apply N.compare_refl. Qed.

Lemma ascii_compare_lt_trans (a b c : ascii) :
  Ascii.compare a b = Lt → Ascii.compare b c = Lt → Ascii.compare a c = Lt.
Proof. unfold Ascii.compare. rewrite !N.compare_lt_iff. lia. Qed.

#[local] Instance string_total_compare : TotalCompare String.compare.
Proof.
  split.
  - apply String.compare_eq_iff.
  - induction x as [|a x IH]; [done|]. cbn. by rewrite ascii_compare_refl.
  - intros x y. apply String.compare_antisym.
  - induction x as [|a x IH]; intros [|b y] [|c z]; cbn; try done.
    destruct (Ascii.compare a b) eqn:Hab; [|clear IH|done].
    + apply Ascii.compare_eq_iff in Hab as ->.
      destruct (Ascii.compare b c); [apply IH|done|done].
    + intros _. destruct (Ascii.compare b c) eqn:Hbc; [| |done].
      * apply Ascii.compare_eq_iff in Hbc as <-. by rewrite Hab.
      * by rewrite (ascii_compare_lt_trans a b c).
Qed.

#[local] Instance lex_total_compare {A} (cmp : A → A → comparison)
    `{!TotalCompare cmp} : TotalCompare (lex_compare cmp).
Proof.
  split.
  - induction x as [|a x IH]; intros [|b y]; cbn; try done.
    destruct (cmp a b) eqn:Hab; try done.
    apply compare_eq in Hab as ->. by intros ->%IH.
  - induction x as [|a x IH]; [done|]. cbn.
    by rewrite (@compare_refl A cmp _ a).
  - induction x as [|a x IH]; intros [|b y]; cbn; try done.
    rewrite (@compare_opp A cmp _ a b).
    destruct (cmp a b); cbn; [apply IH|done|done].
  - induction x as [|a x IH]; intros [|b y] [|c z]; cbn; try done.
    destruct (cmp a b) eqn:Hab; [|clear IH|done].
    + apply compare_eq in Hab as ->.
      destruct (cmp b c); [apply IH|done|done].
    + intros _. destruct (cmp b c) eqn:Hbc; [| |done].
      * apply compare_eq in Hbc as <-. by rewrite Hab.
      * by rewrite (@compare_lt_trans A cmp _ a b c Hab Hbc).
Qed.

#[local] Instance patch_total_compare : TotalCompare patch_compare.
Proof.
  split.
  - intros [[a1 a2] bl] [[c1 c2] cl]. unfold patch_compare. cbn [fst snd].
    destruct (a1 ?= c1) eqn:H1; try done.
    destruct (a2 ?= c2) eqn:H2; try done.
    intros H3. apply Z.compare_eq in H1, H2.
    apply (@compare_eq _ (lex_compare String.compare) _) in H3. by subst.
  - intros [[a1 a2] bl]. unfold patch_compare. cbn [fst snd].
    by rewrite !Z.compare_refl, (@compare_refl _ (lex_compare String.compare) _).
  - intros [[a1 a2] bl] [[c1 c2] cl]. unfold patch_compare. cbn [fst snd].
    rewrite (Z.compare_antisym a1 c1), (Z.compare_antisym a2 c2).
    destruct (a1 ?= c1); cbn; try done.
    destruct (a2 ?= c2); cbn; try done.
    apply (@compare_opp _ (lex_compare String.compare) _).
  - intros [[a1 a2] bl] [[c1 c2] cl] [[e1 e2] el].
    unfold patch_compare. cbn [fst snd].
    destruct (a1 ?= c1) eqn:H1; [| |done].
    + apply Z.compare_eq in H1 as ->.
      destruct (c1 ?= e1); [|done|done].
      destruct (a2 ?= c2) eqn:H2; [| |done].
      * apply Z.compare_eq in H2 as ->.
        destruct (c2 ?= e2); [|done|done].
        apply (@compare_lt_trans _ (lex_compare String.compare) _).
      * intros _. destruct (c2 ?= e2) eqn:H3; [| |done].
        -- apply Z.compare_eq in H3 as <-. by rewrite H2.
        -- intros _. by rewrite (@compare_lt_trans Z Z.compare _ a2 c2 e2).
    + intros _. destruct (c1 ?= e1) eqn:H3; [| |done].
      * apply Z.compare_eq in H3 as <-. by rewrite H1.
      * intros _. by rewrite (@compare_lt_trans Z Z.compare _ a1 c1 e1).
Qed.

#[local] Instance patch_ge_total : Total patch_ge.
Proof.
  intros p q. unfold patch_ge.
  rewrite (@compare_opp _ patch_compare _ p q).
  destruct (patch_compare p q); cbn; [by left|by right|by left].
Qed.

#[local] Instance patch_ge_trans : Transitive patch_ge.
Proof.
  intros p q r. unfold patch_ge. intros Hpq Hqr Hpr.
  destruct (patch_compare p q) eqn:E; [|done|].
  - apply (@compare_eq _ patch_compare _) in E as ->. done.
  - assert (patch_compare q p = Lt) as Hqp
      by (by rewrite (@compare_opp _ patch_compare _ p q), E).
    by rewrite (@compare_lt_trans _ patch_compare _ q p r) in Hqr.
Qed.

#[local] Instance patch_ge_antisym : AntiSymm (=) patch_ge.
Proof.
  intros p q. unfold patch_ge.
  rewrite (@compare_opp _ patch_compare _ p q).
  destruct (patch_compare p q) eqn:E; cbn; [|done|done].
  intros _ _. by apply (@compare_eq _ patch_compare _).
Qed.

(** Sorting does not depend on the order in which the patches come. *)
Lemma merge_sort_patches (ps qs : list patch) :
  ps ≡ₚ qs → merge_sort patch_ge ps = merge_sort patch_ge qs.
Proof.
  intros Hp. apply (Sorted_unique patch_ge).
  - apply Sorted_merge_sort, _.
  - apply Sorted_merge_sort, _.
  - by rewrite !merge_sort_Permutation.
Qed.

(** ** [overlaydiffcontext] *)

Lemma apply_patches_Permutation (ps qs : list patch) (lines : list string) :
  ps ≡ₚ qs → apply_patches ps lines = apply_patches qs lines.
Proof. intros Hp. unfold apply_patches. by rewrite (merge_sort_patches ps qs). Qed.

Lemma patches_of_cons (path : string) (c : parsed) (chunks : list parsed) :
  patches_of path (c :: chunks)
  = match c with
    | (Some p, Some info) =>
        if decide (p = path ∧ p ≠ EmptyString)
        then info :: patches_of path chunks else patches_of path chunks
    | _ => patches_of path chunks
    end.
Proof.
  unfold patches_of. destruct c as [[p|] [info|]]; cbn; try done.
  by destruct (decide (p = path ∧ p ≠ EmptyString)).
Qed.

(** The list that the first loop collects for a path. *)
Lemma patchmap_lookup (chunks : list parsed) (path : string)
    (patchmap : gmap.gmap string (list patch)) :
  fold_left patchmap_step chunks patchmap !! path
  = if decide (patches_of path chunks = []) then patchmap !! path
    else Some (default [] (patchmap !! path) ++ patches_of path chunks).
Proof.
  revert patchmap. induction chunks as [|c chunks IH]; intros patchmap; [done|].
  rewrite patches_of_cons. cbn [fold_left].
  destruct c as [[p|] [info|]]; cbn [patchmap_step]; try apply IH.
  destruct (decide (p = path ∧ p ≠ EmptyString)) as [[-> Hp]|Hsel].
  - rewrite (decide_False (P := path = EmptyString)) by done. rewrite IH.
    rewrite fin_maps.lookup_insert_eq. cbn [default].
    rewrite (decide_False (P := info :: _ = [])) by done.
    destruct (decide (patches_of path chunks = [])) as [->|_]; [done|].
    unfold id. by rewrite <- (assoc_L (++)).
  - destruct (decide (p = EmptyString)) as [->|Hp]; [apply IH|].
    rewrite IH. rewrite fin_maps.lookup_insert_ne; [done|].
    intros ->. by apply Hsel.
Qed.

Lemma overlay_lookup (data : string → option string) (chunks : list parsed)
    (path : string) :
  overlay_workingcopy data chunks !! path
  = match data path with
    | Some content =>
        if decide (patches_of path chunks = []) then None
        else Some (String.concat EmptyString
                     (apply_patches (patches_of path chunks)
                        (Mdiff.splitnewlines content)))
    | None => None
    end.
Proof.
  unfold overlay_workingcopy.
  rewrite fin_maps.map_lookup_imap, patchmap_lookup, fin_maps.lookup_empty.
  destruct (decide (patches_of path chunks = [])) as [Hnil|Hne].
  - cbn. by destruct (data path).
  - cbn. destruct (data path); [|done]. by rewrite decide_False.
Qed.

(** X21.  [overlaydiffcontext] writes a file of the working copy exactly
    for the paths that are not empty, are in [ctx], and have a hunk that
    [_parsechunk] parses; the content it writes is the join of the lines
    of [ctx[path]] with the patches of that path applied. *)
Theorem overlay_workingcopy_paths (data : string → option string)
    (chunks : list parsed) (path : string) :
  (is_Some (overlay_workingcopy data chunks !! path)
   ↔ path ≠ EmptyString ∧ is_Some (data path)
     ∧ ∃ info, (Some path, Some info) ∈ chunks)
  ∧ (∀ content text,
       data path = Some content →
       overlay_workingcopy data chunks !! path = Some text →
       text = String.concat EmptyString
                (apply_patches (patches_of path chunks)
                   (Mdiff.splitnewlines content))).
Proof.
  rewrite overlay_lookup.
  assert (patches_of path chunks ≠ []
          ↔ path ≠ EmptyString ∧ ∃ info, (Some path, Some info) ∈ chunks)
    as Hne.
  { split.
    - intros Hne. destruct (patches_of path chunks) as [|info ps] eqn:E; [done|].
      assert (info ∈ patches_of path chunks) as Hin by (rewrite E; left).
      unfold patches_of in Hin. apply list_elem_of_omap in Hin
        as ([[p|] [info'|]] & Hc & Hsel); try done.
      destruct (decide (p = path ∧ p ≠ EmptyString)) as [[-> ?]|]; [|done].
      injection Hsel as ->. split; [done|]. by exists info.
    - intros [Hpath [info Hin]] Hnil.
      assert (info ∈ patches_of path chunks) as Hin'.
      { unfold patches_of. apply list_elem_of_omap.
        exists (Some path, Some info). split; [done|].
        by rewrite decide_True. }
      rewrite Hnil in Hin'. by apply elem_of_nil in Hin'. }
  split.
  - destruct (data path) as [content|].
    + destruct (decide (patches_of path chunks = [])) as [Hnil|Hnn].
      * split; [by intros [? ?]|]. intros (Hp & _ & Hinfo).
        exfalso. by apply (proj2 Hne).
      * split; [|by eexists]. intros _.
        destruct (proj1 Hne Hnn) as [? ?]. split; [done|]. split; [by eexists|done].
    + split; [by intros [? ?]|]. by intros (_ & [? ?] & _).
  - intros content text ->.
    destruct (decide (patches_of path chunks = [])); [done|]. by intros [= <-].
Qed.

(** X22.  The working copy that [overlaydiffcontext] writes does not
    depend on the order in which the hunks are given: the patches of each
    file are sorted before they are applied. *)
Theorem overlay_workingcopy_order (data : string → option string)
    (chunks chunks' : list parsed) :
  chunks ≡ₚ chunks' →
  overlay_workingcopy data chunks = overlay_workingcopy data chunks'.
Proof.
  intros Hp. apply fin_maps.map_eq. intros path. rewrite !overlay_lookup.
  assert (patches_of path chunks ≡ₚ patches_of path chunks') as Hps.
  { unfold patches_of. by rewrite Hp. }
  destruct (data path) as [content|]; [|done].
  destruct (decide (patches_of path chunks = [])) as [Hnil|Hne].
  - rewrite Hnil in Hps. symmetry in Hps. apply Permutation_nil_r in Hps.
    by rewrite decide_True.
  - rewrite decide_False.
    + by rewrite (apply_patches_Permutation _ _ _ Hps).
    + intros Hnil. rewrite Hnil in Hps. by apply Permutation_nil_r in Hps.
Qed.

Lemma overlay_workingcopy_order_witness :
  overlay_workingcopy (λ _, Some "a") [(Some "f", Some (0, 0, ["x"]));
                                       (Some "f", Some (1, 1, ["y"]))]
  = overlay_workingcopy (λ _, Some "a") [(Some "f", Some (1, 1, ["y"]));
                                         (Some "f", Some (0, 0, ["x"]))].
Proof.
  apply overlay_workingcopy_order. apply Permutation_swap.
Defined.

(** Patches that follow each other are sorted by their position. *)
Lemma patch_chain_sorted (lo n : Z) (ps : list patch) :
  patch_chain lo ps n →
  Sorted (flip patch_ge) ps ∧ Forall (λ p : patch, lo ≤ p.1.1) ps.
Proof.
  revert lo. induction ps as [|p ps IH]; intros lo; cbn [patch_chain].
  { intros _. split; constructor. }
  intros [Hp Hch]. destruct (IH _ Hch) as [Hs Hlo]. split.
  - constructor; [done|]. destruct ps as [|q ps]; constructor.
    apply Forall_inv in Hlo. unfold flip, patch_ge, patch_compare.
    rewrite (proj2 (Z.compare_gt_iff q.1.1 p.1.1)) by (cbn beta in Hlo; lia).
    done.
  - constructor; [cbn beta; lia|]. eapply Forall_impl; [exact Hlo|].
    intros q Hq. cbn beta in Hq |- *. lia.
Qed.

(** Inside a list that is long enough, an assignment to a slice replaces
    the lines of the slice. *)
Lemma set_slice_splice {A} (lines : list A) (a1 a2 : Z) (blines : list A) :
  0 ≤ a1 ≤ a2 → a2 ≤ Z.of_nat (length lines) →
  set_slice lines a1 a2 blines = splice lines a1 a2 blines.
Proof.
  intros Ha Hlen. unfold set_slice, splice, Py.bound.
  rewrite (proj2 (Z.ltb_ge a1 0)), (proj2 (Z.ltb_ge a2 0)) by lia.
  by rewrite !Z.min_l, Z.max_r by lia.
Qed.

Lemma patch_chain_fold (lo n : Z) (ps : list patch) (lines : list string) :
  0 ≤ lo → patch_chain lo ps n → n = Z.of_nat (length lines) →
  foldr (λ (p : patch) acc, set_slice acc p.1.1 p.1.2 p.2) lines ps
  = foldr (λ (p : patch) acc, splice acc p.1.1 p.1.2 p.2) lines ps
  ∧ lo ≤ Z.of_nat
           (length (foldr (λ (p : patch) acc, splice acc p.1.1 p.1.2 p.2)
                      lines ps)).
Proof.
  intros Hlo Hch ->. revert lo Hlo Hch.
  induction ps as [|p ps IH]; intros lo Hlo; cbn [patch_chain foldr].
  { done. }
  intros [Hp Hch].
  destruct (IH (Z.max p.1.2 (p.1.1 + 1)) ltac:(lia) Hch) as [-> Hlen].
  split.
  - apply set_slice_splice; lia.
  - unfold splice at 1. rewrite !length_app, length_take. lia.
Qed.

(** X23.  For patches that follow each other inside the lines of the
    file, each starting behind the start of the one before,
    the loop of [overlaydiffcontext] replaces the lines [a1 .. a2 - 1] of
    each patch by its lines, in whatever order the patches are
    given. *)
Theorem apply_patches_separated (ps ps' : list patch) (lines : list string) :
  patch_chain 0 ps (Z.of_nat (length lines)) → ps' ≡ₚ ps →
  apply_patches ps' lines
  = foldr (λ (p : patch) acc, splice acc p.1.1 p.1.2 p.2) lines ps.
Proof.
  intros Hch Hp.
  assert (merge_sort patch_ge ps' = reverse ps) as Hsort.
  { apply (Sorted_unique patch_ge).
    - apply Sorted_merge_sort, _.
    - apply (Sorted_reverse (flip patch_ge)).
      by destruct (patch_chain_sorted _ _ _ Hch).
    - by rewrite merge_sort_Permutation, reverse_Permutation. }
  unfold apply_patches. rewrite Hsort.
  destruct (patch_chain_fold 0 _ ps lines ltac:(lia) Hch eq_refl) as [<- _].
  clear. induction ps as [|p ps IH]; [done|].
  rewrite reverse_cons, fold_left_app. cbn [fold_left foldr]. by rewrite IH.
Qed.

Lemma apply_patches_separated_witness :
  apply_patches [(2, 3, ["C"]); (0, 1, ["A"])] ["a"; "b"; "c"]
  = ["A"; "b"; "C"].
Proof.
  rewrite (apply_patches_separated [(0, 1, ["A"]); (2, 3, ["C"])]).
  - reflexivity.
  - cbn. lia.
  - apply Permutation_swap.
Defined.

(** ** What [apply] makes of the newest content *)

(** Behind the lines [a1 .. a2 - 1] the walk changes nothing. *)
Lemma edit_walk_past (a_rev a1 a2 b_rev k : Z)
    (new es : list IntLineLog.entry) :
  a1 < k → a2 ≤ k → IntLineLog.edit_walk a_rev a1 a2 b_rev new k es = es.
Proof.
  revert k. induction es as [|e es IH]; intros k Hk1 Hk2;
    cbn [IntLineLog.edit_walk].
  - by rewrite (proj2 (Z.eqb_neq k a1)) by lia.
  - rewrite (proj2 (Z.eqb_neq k a1)) by lia.
    rewrite (proj2 (Z.ltb_ge k a2)) by lia. rewrite andb_false_r.
    cbn [app]. rewrite IH by lia. rewrite IH by lia.
    by destruct (IntLineLog.visible a_rev e).
Qed.

(** The walk only reads the part of the log that holds the lines up to
    [a2]. *)
Lemma edit_walk_app (a_rev a1 a2 b_rev k : Z)
    (new P S : list IntLineLog.entry) :
  Forall (clean a_rev) P →
  a2 ≤ k + Z.of_nat (length (live P)) →
  a1 < k + Z.of_nat (length (live P)) ∨ S = [] →
  IntLineLog.edit_walk a_rev a1 a2 b_rev new k (P ++ S)
  = IntLineLog.edit_walk a_rev a1 a2 b_rev new k P ++ S.
Proof.
  intros HP Ha2 [Ha1| ->]; [|by rewrite !app_nil_r].
  revert k Ha2 Ha1. induction HP as [|e P He _ IH]; intros k Ha2 Ha1.
  - cbn in Ha1, Ha2. cbn [app IntLineLog.edit_walk].
    rewrite (proj2 (Z.eqb_neq k a1)) by lia.
    by rewrite edit_walk_past by lia.
  - cbn [app IntLineLog.edit_walk]. unfold clean in He. rewrite He.
    case_bool_decide as Hd.
    + rewrite (live_cons_kept e P Hd) in Ha1, Ha2.
      cbn [length] in Ha1, Ha2. rewrite IH by lia.
      by rewrite <- !(assoc_L (++)).
    + rewrite (live_cons_deleted e P Hd) in Ha1, Ha2. by rewrite IH by lia.
Qed.

(** The walk leaves the part of the log in front of line [a1] as it
    is. *)
Lemma edit_walk_split (a_rev a1 a2 b_rev k : Z)
    (new P : list IntLineLog.entry) :
  Forall (clean a_rev) P →
  k ≤ a1 → a1 ≤ k + Z.of_nat (length (live P)) →
  ∃ P1 P2 T,
    P = P1 ++ P2 ∧ Z.of_nat (length (live P1)) = a1 - k
    ∧ IntLineLog.edit_walk a_rev a1 a2 b_rev new k P = P1 ++ T.
Proof.
  intros HP. revert k. induction HP as [|e P He _ IH]; intros k Hk Ha1.
  { exists [], [], (IntLineLog.edit_walk a_rev a1 a2 b_rev new k []).
    cbn in Ha1 |- *. split; [done|]. split; [lia|done]. }
  destruct (decide (k = a1)) as [->|Hne].
  { exists [], (e :: P), (IntLineLog.edit_walk a_rev a1 a2 b_rev new a1 (e :: P)).
    cbn. split; [done|]. split; [lia|done]. }
  cbn [IntLineLog.edit_walk]. unfold clean in He. rewrite He.
  case_bool_decide as Hd.
  - rewrite (live_cons_kept e P Hd) in Ha1. cbn [length] in Ha1.
    destruct (IH (k + 1)) as (P1 & P2 & T & -> & Hlen & ->); [lia|lia|].
    exists (e :: P1), P2, T. split; [done|].
    rewrite (live_cons_kept e P1 Hd). cbn [length]. split; [lia|].
    rewrite (proj2 (Z.eqb_neq k a1)) by lia.
    by rewrite (proj2 (Z.leb_gt a1 k)) by lia.
  - rewrite (live_cons_deleted e P Hd) in Ha1.
    destruct (IH k) as (P1 & P2 & T & -> & Hlen & ->); [lia|lia|].
    exists (e :: P1), P2, T. split; [done|].
    by rewrite (live_cons_deleted e P1 Hd).
Qed.

Lemma clean_content_length (a_rev : Z) (P S : list IntLineLog.entry) :
  Forall (clean a_rev) P →
  (length (live P) ≤ length (content_at a_rev (P ++ S)))%nat.
Proof.
  intros HP. rewrite content_at_app, length_app.
  assert (length (content_at a_rev P) = length (live P)) as ->; [|lia].
  unfold content_at, live. rewrite length_fmap.
  induction HP as [|e P He _ IH]; [done|]. unfold clean in He.
  rewrite !filter_cons, He. case_bool_decide as Hd.
  - rewrite !decide_True by done. cbn [length]. by rewrite IH.
  - rewrite !decide_False by done. exact IH.
Qed.

Lemma splice_app_l {A} (xs ys new : list A) (a1 a2 : Z) :
  0 ≤ a1 ≤ a2 → a2 ≤ Z.of_nat (length xs) →
  splice xs a1 a2 new ++ ys = splice (xs ++ ys) a1 a2 new.
Proof.
  intros Ha Ha2. unfold splice.
  rewrite take_app_le, drop_app_le by lia. by rewrite <- !(assoc_L (++)).
Qed.

(** The fixups, edited from the last one to the first: the lines that no
    revision deleted are those of the built log with the fixups
    applied. *)
Lemma apply_loop_live (max_rev : Z) (fs : list fixup) :
  ∀ (l : IntLineLog.t) (n : Z) (P S : list IntLineLog.entry),
    IntLineLog.entries l = P ++ S →
    Forall (clean max_rev) P → Z.of_nat (length (live P)) = n →
    separated fs →
    Forall (λ f, 0 ≤ f_a1 f ≤ f_a2 f ∧ f_a2 f ≤ n ∧ f_b1 f ≤ f_b2 f
                 ∧ (f_a1 f < n ∨ S = [])) fs →
    ∃ l',
      apply_loop max_rev (reverse fs) l = Some l'
      ∧ live (IntLineLog.entries l')
        = applied (λ f, IntLineLog.inserted (f_rev f) (f_b1 f) (f_b2 f)) fs
            (live (IntLineLog.entries l))
      ∧ ∀ Q : IntLineLog.entry → Prop,
          (∀ f e, f ∈ fs → Q e → Q (IntLineLog.delete_from (f_rev f) e)) →
          Forall (λ f, Forall Q (IntLineLog.inserted (f_rev f) (f_b1 f) (f_b2 f)))
            fs →
          Forall Q (IntLineLog.entries l) → Forall Q (IntLineLog.entries l').
Proof.
  induction fs as [|f fs IH] using rev_ind; intros l n P S Hent HP Hn Hsep Hfs.
  { exists l. cbn. done. }
  apply StronglySorted_app in Hsep as (Hlast & Hsep & _).
  apply Forall_app in Hfs as [Hfs Hf]. apply Forall_inv in Hf.
  destruct Hf as (Ha & Ha2 & Hb & Hend).
  pose proof (clean_content_length max_rev P S HP) as Hcnt.
  rewrite <- Hent in Hcnt.
  destruct (IntLineLog.edit l max_rev (f_a1 f) (f_a2 f) (f_rev f) (f_b1 f) (f_b2 f))
    as [l1|] eqn:Hedit.
  2:{ exfalso. unfold IntLineLog.edit in Hedit.
      rewrite <- content_at_length in Hedit.
      rewrite (proj2 (Z.ltb_ge (f_a1 f) 0)), (proj2 (Z.ltb_ge (f_a2 f) (f_a1 f))),
        (proj2 (Z.ltb_ge (f_b2 f) (f_b1 f))), (proj2 (Z.ltb_ge _ (f_a2 f)))
        in Hedit by lia.
      done. }
  pose proof (edit_entries _ _ _ _ _ _ _ _ Hedit) as [Hent1 _].
  rewrite Hent in Hent1.
  rewrite edit_walk_app in Hent1;
    [|done|lia|destruct Hend; [left; lia|by right]].
  assert (live (IntLineLog.entries l1)
          = splice (live (IntLineLog.entries l)) (f_a1 f) (f_a2 f)
              (IntLineLog.inserted (f_rev f) (f_b1 f) (f_b2 f))) as Hlive.
  { rewrite Hent1, Hent, !live_app.
    rewrite edit_walk_live by (done || apply inserted_live || lia).
    rewrite !Z.sub_0_r.
    rewrite <- splice_app_l by lia. done. }
  destruct (edit_walk_split max_rev (f_a1 f) (f_a2 f) (f_rev f) 0
              (IntLineLog.inserted (f_rev f) (f_b1 f) (f_b2 f)) P HP)
    as (P1 & P2 & T & HP12 & Hlen1 & Hwalk); [lia|lia|].
  rewrite Hwalk, <- (assoc_L (++)) in Hent1.
  destruct (IH l1 (f_a1 f) P1 (T ++ S) Hent1) as (l' & Hloop & Hlive' & HQ).
  - rewrite HP12 in HP. by apply Forall_app in HP as [? _].
  - lia.
  - exact Hsep.
  - apply Forall_forall. intros x Hx.
    rewrite Forall_forall in Hfs. destruct (Hfs x Hx) as (? & ? & ? & _).
    destruct (Hlast x f Hx) as [? ?]; [left|].
    split; [done|]. split; [lia|]. split; [done|]. by left.
  - exists l'. rewrite reverse_snoc. cbn [apply_loop].
    change (edit_chunk l max_rev (f_a1 f) (f_a2 f) (f_rev f) (f_b1 f) (f_b2 f))
      with (IntLineLog.edit l max_rev (f_a1 f) (f_a2 f) (f_rev f) (f_b1 f) (f_b2 f)).
    rewrite Hedit. cbn [mbind option_bind].
    split; [exact Hloop|]. split.
    + rewrite Hlive', Hlive. unfold applied. by rewrite foldr_app.
    + intros Q Hdel Hnew Hl. apply Forall_app in Hnew as [Hnew Hf].
      apply Forall_inv in Hf. apply HQ.
      * intros x e Hx. apply Hdel. apply elem_of_app. by left.
      * done.
      * pose proof (edit_entries _ _ _ _ _ _ _ _ Hedit) as [-> _].
        apply edit_walk_Forall; [|done|done].
        intros e. apply Hdel. apply elem_of_app. right. left.
Qed.

Lemma applied_fmap {A B} (g : A → B) (new : fixup → list A)
    (fs : list fixup) (xs : list A) :
  g <$> applied new fs xs = applied (λ f, g <$> new f) fs (g <$> xs).
Proof.
  induction fs as [|f fs IH]; [done|].
  cbn [applied foldr]. fold (applied new fs xs).
  fold (applied (λ f, g <$> new f) fs (g <$> xs)).
  rewrite <- IH. unfold splice.
  by rewrite !fmap_app, fmap_take, fmap_drop.
Qed.

Lemma applied_Forall2 {A B} (R : A → B → Prop) (new : fixup → list A)
    (new' : fixup → list B) (fs : list fixup) (xs : list A) (ys : list B) :
  Forall (λ f, Forall2 R (new f) (new' f)) fs →
  Forall2 R xs ys →
  Forall2 R (applied new fs xs) (applied new' fs ys).
Proof.
  intros Hfs Hxs. induction Hfs as [|f fs Hf _ IH]; [done|].
  cbn [applied foldr]. fold (applied new fs xs). fold (applied new' fs ys).
  unfold splice. apply Forall2_app; [by apply Forall2_take|].
  apply Forall2_app; [exact Hf|by apply Forall2_drop].
Qed.

Lemma slice_empty {A} (l : list A) (b : Z) : Py.slice l b b = [].
Proof. unfold Py.slice. by rewrite Z.sub_diag. Qed.

(** The lines that a fixup inserts have the texts of its target lines. *)
Lemma inserted_target_text (cl : list (list string)) (tl : list string)
    (f : fixup) :
  Z.even (f_rev f) = true → targets_within 0 (Z.of_nat (length tl)) f →
  holds cl tl (key <$> IntLineLog.inserted (f_rev f) (f_b1 f) (f_b2 f))
    (Py.slice tl (f_b1 f) (f_b2 f)).
Proof.
  intros Hrev [Hle Hin].
  destruct (decide (f_b1 f = f_b2 f)) as [<-|Hne].
  { rewrite slice_empty. unfold IntLineLog.inserted, Py.range.
    rewrite Z.sub_diag. constructor. }
  destruct Hin as [Hb1 Hb2]; [lia|].
  apply Forall2_same_length_lookup_2.
  - rewrite slice_inside by lia. unfold IntLineLog.inserted, Py.range.
    rewrite !length_fmap, length_seqZ, length_take, length_drop. lia.
  - intros k tag s Htag Hs.
    apply slice_lookup in Hs as [Hk Hs]; [|lia..].
    unfold IntLineLog.inserted, Py.range in Htag.
    rewrite !list_lookup_fmap in Htag.
    rewrite lookup_seqZ_lt in Htag by lia. cbn in Htag. injection Htag as <-.
    unfold key. cbn [IntLineLog.e_rev IntLineLog.e_linenum].
    rewrite even_line_text by (done || lia).
    by rewrite index_nonneg in Hs by lia.
Qed.

(** [apply] on the log that [_buildlinelog] makes of the contents, for
    fixups that are apart from each other: the newest final content is the
    newest content with the lines of every fixup replaced. *)
Lemma apply_on_built (older : list string) (newest : string)
    (tl : list string) (fs : list fixup) (llog : IntLineLog.t)
    (gaps : list Qc) (stats : Z * Z) :
  _buildlinelog (older ++ [newest]) (Mdiff.splitnewlines <$> older ++ [newest])
  = Some llog →
  separated fs →
  Forall (λ f, 0 ≤ f_a1 f ≤ f_a2 f
               ∧ f_a2 f ≤ Z.of_nat (length (Mdiff.splitnewlines newest))
               ∧ Z.even (f_rev f) = true
               ∧ f_rev f ≤ 2 * Z.of_nat (length (older ++ [newest]))
               ∧ targets_within 0 (Z.of_nat (length tl)) f) fs →
  ∃ (llog' : IntLineLog.t) (final : list string),
    apply (FileFixupState (older ++ [newest])
             (Mdiff.splitnewlines <$> older ++ [newest]) llog gaps stats
             tl fs [])
    = Some (FileFixupState (older ++ [newest])
              (Mdiff.splitnewlines <$> older ++ [newest]) llog' gaps stats
              tl fs final)
    ∧ last final
      = Some (String.concat EmptyString
                (applied (λ f, Py.slice tl (f_b1 f) (f_b2 f)) fs
                   (Mdiff.splitnewlines newest))).
Proof.
  intros Hbuild0 Hsep Hfs.
  destruct (built_log (older ++ [newest]) tl)
    as (llog0 & Hbuild & Hs & Hviews & Hlen & Htext & _ & Hmax).
  rewrite Hbuild in Hbuild0. injection Hbuild0 as ->. clear Hbuild.
  set (cl := Mdiff.splitnewlines <$> older ++ [newest]) in *.
  set (n2 := 2 * Z.of_nat (length (older ++ [newest]))) in *.
  assert (cl !! length older = Some (Mdiff.splitnewlines newest)) as Hnewest.
  { unfold cl. rewrite fmap_app. apply list_lookup_middle.
    by rewrite length_fmap. }
  unfold cl in Hlen. rewrite fmap_app in Hlen.
  change (Mdiff.splitnewlines <$> [newest])
    with [Mdiff.splitnewlines newest] in Hlen.
  rewrite last_snoc in Hlen. cbn [default] in Hlen. fold cl in Hlen.
  assert (n2 = 2 * Z.of_nat (length older) + 2) as Hn2.
  { unfold n2. rewrite length_app. cbn [length]. lia. }
  destruct (apply_loop_live (IntLineLog.maxrev llog) fs llog
              (Z.of_nat (length (live (IntLineLog.entries llog))))
              (IntLineLog.entries llog) [])
    as (llog' & Hloop & Hlive & HQ).
  { by rewrite app_nil_r. }
  { apply (settled_visible _ _ _ Hs). lia. }
  { done. }
  { done. }
  { eapply Forall_impl; [exact Hfs|].
    intros f (Ha & Ha2 & _ & _ & Hb & _). rewrite Hlen.
    split; [done|]. split; [done|]. split; [done|by right]. }
  assert (Forall (has_text cl tl) (IntLineLog.entries llog')) as Htext'.
  { apply HQ; [by intros f e _| |done].
    eapply Forall_impl; [exact Hfs|].
    intros f (_ & _ & Heven & _ & Hin). by apply inserted_has_text. }
  assert (settled n2 (IntLineLog.entries llog')) as Hs'.
  { apply (HQ (λ e, IntLineLog.e_rev e ≤ n2
                    ∧ ∀ d, IntLineLog.e_del e = Some d → d ≤ n2)).
    - intros f [r ln d] Hf [Hr Hd]. cbn in *. split; [done|].
      rewrite Forall_forall in Hfs. destruct (Hfs f Hf) as (_ & _ & _ & Hrev & _).
      intros d' [= <-]. destruct d as [d|]; [|done].
      specialize (Hd d eq_refl). lia.
    - eapply Forall_impl; [exact Hfs|]. intros f (_ & _ & _ & Hrev & _).
      unfold IntLineLog.inserted. apply Forall_fmap, Forall_forall.
      intros j _. cbn. split; [done|done].
    - by apply (settled_weaken (IntLineLog.maxrev llog)). }
  destruct (checkoutlinelog_is_Some
              (FileFixupState (older ++ [newest]) cl llog' gaps stats tl fs [])
              Htext') as [final Hfinal].
  exists llog', final. split.
  - unfold apply.
    cbn [contents contentlines linelog gap_lines chunkstats targetlines
         fixups finalcontents].
    change (max_rev llog) with (IntLineLog.maxrev llog).
    rewrite Hloop. cbn [mbind option_bind]. by rewrite Hfinal.
  - assert (length final = S (length older)) as Hflen.
    { pose proof Hfinal as Hl. unfold _checkoutlinelog in Hl.
      apply mapM_Some_1, Forall2_length in Hl. unfold Py.range in Hl.
      rewrite length_seqZ in Hl. cbn [contents] in Hl.
      rewrite length_app in Hl. cbn [length] in Hl. lia. }
    rewrite last_lookup, Hflen. cbn [pred].
    apply (final_content
             (FileFixupState (older ++ [newest]) cl llog' gaps stats tl fs final)
             (length older)).
    + exact Hfinal.
    + cbn [contents]. rewrite length_app. cbn [length]. lia.
    + cbn [contentlines targetlines linelog]. rewrite <- Hn2.
      unfold content_at.
      rewrite (settled_live_visible n2 n2 _ Hs') by lia.
      rewrite Hlive, applied_fmap.
      apply applied_Forall2.
      * eapply Forall_impl; [exact Hfs|].
        intros f (_ & _ & Heven & _ & Hin). by apply inserted_target_text.
      * specialize (Hviews _ _ Hnewest). rewrite <- Hn2 in Hviews.
        unfold content_at in Hviews.
        by rewrite (settled_live_visible _ n2 _ Hs) in Hviews by lia.
Qed.

(** X24.  On the line log and diff modelled from the spec: for fixups
    with even revisions up to twice the number of contents, each ending
    in front of the start of the next and starting in front of it, inside
    the newest content and with target lines inside the target, [apply]
    succeeds on the built log, and the newest final content is the newest
    content with the lines [a1 .. a2 - 1] of every fixup replaced by the
    target lines [b1 .. b2 - 1]. *)
Theorem apply_newest_content (older : list string) (newest : string)
    (tl : list string) (fs : list fixup) :
  separated fs →
  Forall (λ f, 0 ≤ f_a1 f ≤ f_a2 f
               ∧ f_a2 f ≤ Z.of_nat (length (Mdiff.splitnewlines newest))
               ∧ Z.even (f_rev f) = true
               ∧ f_rev f ≤ 2 * Z.of_nat (length (older ++ [newest]))
               ∧ targets_within 0 (Z.of_nat (length tl)) f) fs →
  ∃ st0 st : filefixupstate IntLineLog.t,
    init (older ++ [newest]) = Some st0
    ∧ apply (FileFixupState (contents st0) (contentlines st0) (linelog st0)
               (gap_lines st0) (chunkstats st0) tl fs (finalcontents st0))
      = Some st
    ∧ last (finalcontents st)
      = Some (String.concat EmptyString
                (applied (λ f, Py.slice tl (f_b1 f) (f_b2 f)) fs
                   (Mdiff.splitnewlines newest))).
Proof.
  intros Hsep Hfs.
  destruct (built_log (older ++ [newest]) tl) as (llog & Hbuild & _).
  destruct (apply_on_built older newest tl fs llog (_calculate_gap_lines llog)
              (0, 0) Hbuild Hsep Hfs) as (llog' & final & Happly & Hlast).
  eexists _, _. split; [|split].
  - unfold init. rewrite Hbuild. reflexivity.
  - cbn [contents contentlines linelog gap_lines chunkstats finalcontents].
    exact Happly.
  - exact Hlast.
Qed.

Lemma apply_newest_content_witness :
  ∃ st0 st : filefixupstate IntLineLog.t,
    init (["a"] ++ ["b"]) = Some st0
    ∧ apply (FileFixupState (contents st0) (contentlines st0) (linelog st0)
               (gap_lines st0) (chunkstats st0) ["A"; "B"]
               [Fixup 4 0 1 0 1; Fixup 4 1 1 1 2] (finalcontents st0))
      = Some st
    ∧ last (finalcontents st) = Some "AB".
Proof.
  destruct (apply_newest_content ["a"] "b" ["A"; "B"]
              [Fixup 4 0 1 0 1; Fixup 4 1 1 1 2])
    as (st0 & st & Hinit & Happly & Hlast).
  - unfold separated. repeat constructor; cbn; lia.
  - unfold targets_within.
    repeat apply Forall_cons_2; [..|apply Forall_nil_2];
      cbn; repeat split; (reflexivity || lia).
  - exists st0, st. split; [exact Hinit|]. split; [exact Happly|exact Hlast].
Defined.

(** The whole run on a non-empty stack: what [diffwith] records and what
    [apply] makes of the newest content. *)
Lemma absorb_file_applied (older : list string) (newest target : string) :
  ∃ (st : filefixupstate IntLineLog.t) (llog : IntLineLog.t)
    (annotated : list lineinfo),
    absorb_file (older ++ [newest]) target = Some st
    ∧ _buildlinelog (older ++ [newest])
        (Mdiff.splitnewlines <$> older ++ [newest]) = Some llog
    ∧ fix_last_line (checkout_lines llog (max_rev llog) None) = Some annotated
    ∧ fold_left (diff_step (_calculate_gap_lines llog) annotated)
        (_alldiffchunks newest target (Mdiff.splitnewlines newest)
           (Mdiff.splitnewlines target))
        (Some (0, 0, []))
      = Some (chunkstats st, fixups st)
    ∧ separated (fixups st)
    ∧ last (finalcontents st)
      = Some (String.concat EmptyString
                (applied (λ f, Py.slice (Mdiff.splitnewlines target)
                                 (f_b1 f) (f_b2 f))
                   (fixups st) (Mdiff.splitnewlines newest))).
Proof.
  destruct (diffwith_built older newest target)
    as (llog & annotated & adopted & total & fs & Hinit & Hdiff & Hfold & _ & _
        & _ & Hin & Hrevs & Hmax & Hch & Hsep & Hfix).
  assert (_buildlinelog (older ++ [newest])
            (Mdiff.splitnewlines <$> older ++ [newest]) = Some llog) as Hbuild.
  { unfold init in Hinit. cbn zeta in Hinit.
    destruct (_buildlinelog _ _) as [l|]; [|done].
    cbn in Hinit. by injection Hinit as ->. }
  destruct (apply_on_built older newest (Mdiff.splitnewlines target) fs llog
              (_calculate_gap_lines llog) (adopted, total) Hbuild Hsep)
    as (llog' & final & Happly & Hlast).
  { apply chain_inside in Hch.
    rewrite Forall_forall in Hin, Hrevs, Hmax, Hch.
    apply Forall_forall. intros f Hf.
    destruct (Hch f Hf) as (? & ? & ?). destruct (Hrevs f Hf) as [? _].
    split; [lia|]. split; [done|]. split; [done|].
    split; [by apply Hmax|by apply Hin]. }
  eexists _, llog, annotated. split; [|split; [done|split; [done|]]].
  - unfold absorb_file. rewrite Hinit. cbn [mbind option_bind].
    rewrite Hdiff. cbn [mbind option_bind]. exact Happly.
  - cbn [chunkstats fixups finalcontents]. done.
Qed.

(** X25.  On the line log and diff modelled from the spec, for every
    non-empty stack of contents and every target: the fixups that
    [diffwith] records are apart from each other (each ends at or in front
    of the start of the next, and starts in front of it), and the newest
    final content that [apply] leaves is the newest content with the lines
    [a1 .. a2 - 1] of every recorded fixup replaced by the lines
    [b1 .. b2 - 1] of the target. *)
Theorem absorb_file_newest_content (older : list string)
    (newest target : string) :
  ∃ st : filefixupstate IntLineLog.t,
    absorb_file (older ++ [newest]) target = Some st
    ∧ separated (fixups st)
    ∧ last (finalcontents st)
      = Some (String.concat EmptyString
                (applied (λ f, Py.slice (Mdiff.splitnewlines target)
                                 (f_b1 f) (f_b2 f))
                   (fixups st) (Mdiff.splitnewlines newest))).
Proof.
  destruct (absorb_file_applied older newest target)
    as (st & _ & _ & Hrun & _ & _ & _ & Hsep & Hlast).
  by exists st.
Qed.

(** ** Hunks that are adopted whole, and a file that the stack adds *)

Lemma applied_patched {A} (new : Z → Z → list A) (fs : list fixup)
    (xs : list A) :
  applied (λ f, new (f_b1 f) (f_b2 f)) fs xs
  = patched new (chunk_of <$> fs) xs.
Proof.
  induction fs as [|f fs IH]; [done|].
  cbn [applied patched foldr fmap list_fmap chunk_of].
  fold (applied (λ f, new (f_b1 f) (f_b2 f)) fs xs).
  fold (patched new (chunk_of <$> fs) xs). by rewrite IH.
Qed.

Lemma blocks_inserts (ys : list string) :
  ∀ a1 a2 b1 b2 : Z,
    Mdiff.blocks ((λ _, Mdiff.Insert) <$> ys) false a1 a2 b1 b2
    = Mdiff.close false a1 a2 b1 (b2 + Z.of_nat (length ys)).
Proof.
  induction ys as [|y ys IH]; intros a1 a2 b1 b2.
  - cbn. by rewrite Z.add_0_r.
  - rewrite fmap_cons. cbn [Mdiff.blocks Mdiff.is_keep]. cbn zeta.
    rewrite bool_decide_eq_true_2 by done.
    rewrite IH. f_equal. cbn [length]. lia.
Qed.

(** The diff of an empty content and a non-empty one is one hunk. *)
Lemma alldiffchunks_added (a b : string) (blines : list string) :
  blines ≠ [] →
  _alldiffchunks a b [] blines = [(0, 0, 0, Z.of_nat (length blines))].
Proof.
  intros Hne. unfold _alldiffchunks, Mdiff.allblocks. rewrite script_nil_l.
  destruct blines as [|y ys]; [done|].
  rewrite fmap_cons. cbn [Mdiff.blocks Mdiff.is_keep]. cbn zeta.
  rewrite bool_decide_eq_false_2 by done.
  rewrite blocks_inserts. unfold Mdiff.close.
  change ((0 =? 0) && (0 =? 0)) with true. cbn [app].
  rewrite (proj2 (Z.eqb_neq 0 (0 + 1 + Z.of_nat (length ys)))) by lia.
  change ((0 =? 0) && false) with false. cbn iota.
  rewrite filter_cons_True by done. rewrite filter_nil.
  cbn [fmap list_fmap fst]. do 2 f_equal. cbn [length]. lia.
Qed.

Lemma splitnewlines_nil (text : string) :
  Mdiff.splitnewlines text = [] → text = EmptyString.
Proof.
  destruct text as [|c rest]; [done|]. cbn.
  destruct (decide (c = Mdiff.newline)); [done|].
  by destruct (Mdiff.splitnewlines rest).
Qed.

(** The log of a file that the only changeset of the stack adds: the lines
    of the content, all of revision 3. *)
Lemma added_file_log (c : string) :
  c ≠ EmptyString →
  _buildlinelog [EmptyString; c] (Mdiff.splitnewlines <$> [EmptyString; c])
  = Some (IntLineLog.Make
            (IntLineLog.inserted 3 0
               (Z.of_nat (length (Mdiff.splitnewlines c)))) 3).
Proof.
  intros Hc.
  assert (Mdiff.splitnewlines c ≠ []) as Hne.
  { intros E. by apply splitnewlines_nil in E. }
  unfold _buildlinelog. cbn [fmap list_fmap zip zip_with build_loop].
  change (Mdiff.splitnewlines EmptyString) with (@nil string).
  change (_alldiffchunks EmptyString EmptyString [] []) with (@nil chunk).
  change (reverse (@nil chunk)) with (@nil chunk).
  cbn [build_chunks mbind option_bind].
  rewrite alldiffchunks_added by done.
  change (reverse [(0, 0, 0, Z.of_nat (length (Mdiff.splitnewlines c)))])
    with [(0, 0, 0, Z.of_nat (length (Mdiff.splitnewlines c)))].
  cbn [build_chunks]. change (0 + 1) with 1. change (1 * 2 + 1) with 3.
  change (edit_chunk linelog_new 3 0 0 3 0
            (Z.of_nat (length (Mdiff.splitnewlines c))))
    with (IntLineLog.edit (IntLineLog.Make [] 0) 3 0 0 3 0
            (Z.of_nat (length (Mdiff.splitnewlines c)))).
  unfold IntLineLog.edit. cbn [IntLineLog.entries filter list_filter length].
  rewrite (proj2 (Z.ltb_ge (Z.of_nat (length (Mdiff.splitnewlines c))) 0))
    by lia.
  cbn. done.
Qed.

Lemma fix_last_line_snoc (body : list lineinfo) (p d : lineinfo) :
  fix_last_line ((body ++ [p]) ++ [d])
  = Some ((body ++ [p])
            ++ [LineInfo (li_rev p) (li_linenum p) (li_pc d) (li_deleted d)]).
Proof.
  unfold fix_last_line. rewrite index_last.
  assert (Py.index ((body ++ [p]) ++ [d]) (-2) = Some p) as ->.
  { unfold Py.index. rewrite !length_app. cbn [length].
    rewrite (proj2 (Z.leb_gt 0 (-2))) by lia.
    rewrite (proj2 (Z.leb_le 0 _)) by lia.
    rewrite lookup_app_l by (rewrite length_app; cbn [length]; lia).
    apply list_lookup_middle. lia. }
  rewrite !length_app. cbn [length].
  destruct (Nat.ltb_spec 1 (length body + 1 + 1)) as [_|?]; [|lia].
  cbn [mbind option_bind]. f_equal.
  replace (length body + 1 + 1 - 1)%nat
    with (length (body ++ [p]) + 0)%nat
    by (rewrite length_app; cbn [length]; lia).
  by rewrite insert_app_r.
Qed.

(** A checkout is the dummy line behind lines of the log. *)
Lemma checkout_body (l : IntLineLog.t) (rev : Z) (start : option Z) :
  ∃ body,
    IntLineLog.checkout l rev start
    = body ++ [IntLineLog.end_line (Z.of_nat (length (IntLineLog.entries l)))]
    ∧ Forall (λ r, ∃ e, e ∈ IntLineLog.entries l
                        ∧ li_rev r = IntLineLog.e_rev e
                        ∧ li_deleted r = negb (IntLineLog.visible rev e)) body.
Proof.
  unfold IntLineLog.checkout. eexists. split; [reflexivity|].
  apply Forall_forall. intros r Hr.
  apply list_elem_of_fmap in Hr as ([pc e] & -> & He).
  apply list_elem_of_filter in He as [_ He].
  apply elem_of_lookup_imap in He as (n & e' & [= -> ->] & He).
  exists e'. split; [by eapply list_elem_of_lookup_2|done].
Qed.

Lemma gap_lines_none (all_lines : list lineinfo) :
  Forall (λ r, li_deleted r = false) all_lines → gap_lines_of all_lines = [].
Proof.
  intros Hall. unfold gap_lines_of.
  assert (∀ st, (fold_left gap_step all_lines st).1.1 = st.1.1) as H.
  { induction Hall as [|r ls Hr _ IH]; intros [[gaps lineno] lastgap]; [done|].
    cbn [fold_left]. rewrite IH. unfold gap_step. by rewrite Hr. }
  by rewrite H.
Qed.

Lemma iscontinuous_nil (a1 a2 : Z) : _iscontinuous [] a1 a2 = true.
Proof.
  unfold _iscontinuous. destruct (a2 <=? a1); [done|]. cbn zeta.
  destruct (bisect_left_spec [] (Qc_of_Z a1)) as [Hr _]; [constructor|].
  cbn [length] in *. by destruct (bisect_left [] (Qc_of_Z a1)); [|lia].
Qed.

(** What [diffwith] annotates and which gaps it knows when no line of the
    log is deleted and all lines are of one revision. *)
Lemma annotated_uniform (l : IntLineLog.t) (rev : Z) :
  IntLineLog.entries l ≠ [] →
  Forall (λ e, IntLineLog.e_rev e = rev ∧ IntLineLog.e_del e = None)
    (IntLineLog.entries l) →
  rev ≤ IntLineLog.maxrev l →
  (∃ annotated,
     fix_last_line (checkout_lines l (max_rev l) None) = Some annotated
     ∧ Forall (λ r, li_rev r = rev) annotated
     ∧ length annotated = S (length (IntLineLog.entries l)))
  ∧ _calculate_gap_lines l = [].
Proof.
  intros Hne Hall Hmax.
  assert (Forall (λ e, IntLineLog.visible (IntLineLog.maxrev l) e = true)
            (IntLineLog.entries l)) as Hvis.
  { eapply Forall_impl; [exact Hall|]. intros [r n d] [Hr Hd].
    unfold IntLineLog.visible. cbn in *. subst.
    by rewrite (proj2 (Z.leb_le _ _) Hmax). }
  split.
  - change (checkout_lines l (max_rev l) None)
      with (IntLineLog.checkout l (IntLineLog.maxrev l) None).
    pose proof (checkout_length l (IntLineLog.maxrev l)) as Hlen.
    destruct (checkout_body l (IntLineLog.maxrev l) None)
      as (body & Hbody & Hrevs).
    rewrite Hbody in Hlen |- *. rewrite length_app in Hlen.
    cbn [length] in Hlen.
    assert (length body = length (IntLineLog.entries l)) as Hblen.
    { assert (filter (λ e, IntLineLog.visible (IntLineLog.maxrev l) e = true)
                (IntLineLog.entries l) = IntLineLog.entries l) as E.
      { clear -Hvis. induction Hvis as [|e es He _ IH]; [done|].
        by rewrite filter_cons_True, IH. }
      rewrite E in Hlen. lia. }
    assert (Forall (λ r, li_rev r = rev) body) as Hrev.
    { eapply Forall_impl; [exact Hrevs|].
      intros r (e & He & -> & _). rewrite Forall_forall in Hall.
      by apply Hall. }
    destruct body as [|p body _] using rev_ind.
    { destruct (IntLineLog.entries l); [done|cbn in Hblen; lia]. }
    rewrite fix_last_line_snoc. eexists. split; [reflexivity|]. split.
    + apply Forall_app. split; [done|].
      apply Forall_app in Hrev as [_ Hp]. apply Forall_inv in Hp.
      by repeat constructor.
    + rewrite length_app. cbn [length]. lia.
  - unfold _calculate_gap_lines.
    change (checkout_lines l (max_rev l) (Some 0))
      with (IntLineLog.checkout l (IntLineLog.maxrev l) (Some 0)).
    destruct (checkout_body l (IntLineLog.maxrev l) (Some 0))
      as (body & -> & Hrevs).
    apply gap_lines_none, Forall_app. split; [|by repeat constructor].
    eapply Forall_impl; [exact Hrevs|].
    intros r (e & He & _ & ->). rewrite Forall_forall in Hvis.
    by rewrite Hvis.
Qed.

(** A hunk inside lines that are all of one revision above 1 is adopted
    whole. *)
Lemma new_fixups_uniform (gaps : list Qc) (annotated : list lineinfo)
    (rev a1 a2 b1 b2 : Z) :
  Forall (λ r, li_rev r = rev) annotated → 1 < rev →
  0 ≤ a1 ≤ a2 → a2 < Z.of_nat (length annotated) →
  _iscontinuous gaps a1 (a2 - 1) = true →
  new_fixups gaps (a1, a2, b1, b2) annotated
  = Some [Fixup (rev + 1) a1 a2 b1 b2].
Proof.
  intros Hall Hrev Ha Hlen Hcont. unfold new_fixups.
  assert (∃ involved, involved_lines annotated a1 a2 = Some involved
                      ∧ involved ≠ []) as (involved & Hinv & Hne).
  { unfold involved_lines.
    destruct (bool_decide (Py.slice annotated a1 a2 = [])) eqn:Hs; cbn [andb].
    2:{ apply bool_decide_eq_false in Hs. eexists. split; [|exact Hs].
        reflexivity. }
    rewrite bool_decide_eq_false_2 by (intros ->; cbn in Hlen; lia).
    cbn [negb].
    assert (is_Some (mapM (Py.index annotated)
                       (Py.set_list [a2; Z.max 0 (a1 - 1)]))) as [nearby Hn].
    { apply mapM_is_Some, Forall_forall. intros i Hi.
      unfold Py.set_list in Hi. rewrite elem_of_remove_dups in Hi.
      apply index_inside. rewrite !elem_of_cons in Hi.
      destruct Hi as [->|[->|Hi]]; [lia|lia|by apply elem_of_nil in Hi]. }
    rewrite Hn. cbn [mbind option_bind]. eexists. split; [reflexivity|].
    assert (filter (λ r, li_rev r ≠ 1) nearby = nearby) as ->.
    { assert (Forall (λ r, li_rev r ≠ 1) nearby) as Hk.
      { apply mapM_index_elem_of in Hn. eapply Forall_impl; [exact Hn|].
        intros r Hr. rewrite Forall_forall in Hall.
        rewrite (Hall r Hr). lia. }
      clear -Hk. induction Hk as [|r rs Hr _ IH]; [done|].
      by rewrite filter_cons_True, IH. }
    intros ->. apply mapM_Some_1, Forall2_length in Hn.
    cbn [length] in Hn. unfold Py.set_list in Hn.
    destruct (decide (a2 = Z.max 0 (a1 - 1))) as [E|Hd].
    - by rewrite <- E, remove_dups_pair_same in Hn.
    - by rewrite remove_dups_pair_diff in Hn. }
  rewrite Hinv. cbn [mbind option_bind].
  assert (involved_revs involved = [rev]) as ->.
  { unfold involved_revs. apply set_list_constant.
    - by destruct involved.
    - apply Forall_fmap, Forall_forall. intros r Hr. cbn.
      rewrite Forall_forall in Hall. apply Hall.
      by eapply involved_lines_elem_of. }
  cbn [length]. rewrite Hcont. cbn.
  by rewrite (proj2 (Z.ltb_lt 1 rev)).
Qed.

Lemma diff_fold_uniform (gaps : list Qc) (annotated : list lineinfo)
    (rev : Z) (cs : list chunk) :
  ∀ (lo n adopted total adopted' total' : Z) (fs fs' : list fixup),
    Forall (λ r, li_rev r = rev) annotated → 1 < rev →
    (∀ a1 a2, _iscontinuous gaps a1 a2 = true) →
    0 ≤ lo → chain lo cs n → n < Z.of_nat (length annotated) →
    fold_left (diff_step gaps annotated) cs (Some (adopted, total, fs))
    = Some (adopted', total', fs') →
    chunk_of <$> fs' = (chunk_of <$> fs) ++ cs.
Proof.
  induction cs as [|[[[a1 a2] b1] b2] cs IH];
    intros lo n adopted total adopted' total' fs fs' Hall Hrev Hcont Hlo Hch Hn;
    cbn [fold_left].
  { intros [= <- <- <-]. by rewrite app_nil_r. }
  cbn [chain] in Hch. destruct Hch as (Ha & Hb & Hch).
  pose proof (chain_bounds _ _ _ Hch).
  unfold diff_step at 2. cbn [mbind option_bind]. unfold _analysediffchunk.
  rewrite (new_fixups_uniform gaps annotated rev) by (done || lia).
  cbn [fmap option_fmap option_map].
  rewrite optimizefixups_single by (cbn; lia).
  cbn [mbind option_bind]. intros Hfold.
  apply (IH a2 n) in Hfold; [|done|done|done|lia|done|done].
  rewrite Hfold, fmap_app, <- app_assoc. done.
Qed.

(** The run in which every hunk is adopted whole. *)
Lemma absorb_file_whole (older : list string) (newest target : string) :
  ∃ st : filefixupstate IntLineLog.t,
    absorb_file (older ++ [newest]) target = Some st
    ∧ (chunk_of <$> fixups st
       = _alldiffchunks newest target (Mdiff.splitnewlines newest)
           (Mdiff.splitnewlines target) →
       last (finalcontents st) = Some target).
Proof.
  destruct (absorb_file_applied older newest target)
    as (st & _ & _ & Hrun & _ & _ & _ & _ & Hlast).
  exists st. split; [done|]. intros Hwhole.
  rewrite Hlast, applied_patched, Hwhole.
  rewrite (proj1 (alldiffchunks_patch _ _ _ _)).
  by rewrite concat_splitnewlines.
Qed.

(** The run on a file that the only changeset of the stack adds. *)
Lemma added_file_run (c target : string) :
  c ≠ EmptyString →
  ∃ st : filefixupstate IntLineLog.t,
    absorb_file ([EmptyString] ++ [c]) target = Some st
    ∧ chunk_of <$> fixups st
      = _alldiffchunks c target (Mdiff.splitnewlines c)
          (Mdiff.splitnewlines target)
    ∧ length (finalcontents st) = 2%nat
    ∧ finalcontents st !! 0%nat = Some EmptyString.
Proof.
  intros Hc.
  assert (Mdiff.splitnewlines c ≠ []) as Hne.
  { intros E. by apply splitnewlines_nil in E. }
  destruct (absorb_file_applied [EmptyString] c target)
    as (st & llog & annotated & Hrun & Hbuild & Hfix & Hfold & _ & _).
  change ([EmptyString] ++ [c]) with [EmptyString; c] in Hbuild.
  rewrite (added_file_log c Hc) in Hbuild. injection Hbuild as <-.
  set (n := Z.of_nat (length (Mdiff.splitnewlines c))) in *.
  set (llog := IntLineLog.Make (IntLineLog.inserted 3 0 n) 3) in *.
  assert (length (IntLineLog.entries llog) = length (Mdiff.splitnewlines c))
    as Hlen.
  { unfold llog, IntLineLog.inserted, Py.range. cbn [IntLineLog.entries].
    rewrite length_fmap, length_seqZ. lia. }
  destruct (annotated_uniform llog 3)
    as [(annotated' & Hfix' & Hrevs & Hann) Hgaps].
  { intros E. rewrite E in Hlen. by destruct (Mdiff.splitnewlines c). }
  { unfold llog, IntLineLog.inserted. cbn [IntLineLog.entries].
    apply Forall_fmap, Forall_forall. by intros j _. }
  { cbn. lia. }
  rewrite Hfix' in Hfix. injection Hfix as <-.
  rewrite Hgaps in Hfold.
  destruct (alldiffchunks_chain c target (Mdiff.splitnewlines c)
              (Mdiff.splitnewlines target)) as [Hch _].
  exists st. split; [done|]. split.
  { destruct (chunkstats st) as [adopted total].
    assert (n < Z.of_nat (length annotated')) as Hn by lia.
    exact (diff_fold_uniform [] annotated' 3 _ 0 n 0 0 adopted total []
             (fixups st) Hrevs eq_refl iscontinuous_nil (Z.le_refl 0) Hch Hn
             Hfold). }
  destruct (absorb_file_returns [EmptyString] c target)
    as (st' & _ & _ & Hrun' & Hcontents & Hfinal & _ & Hfrevs & Hviews).
  rewrite Hrun in Hrun'. injection Hrun' as <-.
  split.
  - pose proof Hfinal as Hl. unfold _checkoutlinelog in Hl.
    apply mapM_Some_1, Forall2_length in Hl. unfold Py.range in Hl.
    rewrite length_seqZ, Hcontents in Hl. cbn [length app] in Hl. lia.
  - apply (final_content st 0 []); [done|by rewrite Hcontents; cbn; lia|].
    apply Hviews; [|done].
    eapply Forall_impl; [exact Hfrevs|]. cbn. intros f [_ ?]. lia.
Qed.

(** X26.  On the line log and diff modelled from the spec: when the
    fixups that [diffwith] recorded are exactly the hunks of the diff
    between the newest content and the target (every hunk was adopted
    whole), the newest final content that [apply] leaves is the target. *)
Theorem absorb_file_whole_hunks (older : list string) (newest target : string)
    (st : filefixupstate IntLineLog.t) :
  absorb_file (older ++ [newest]) target = Some st →
  chunk_of <$> fixups st
  = _alldiffchunks newest target (Mdiff.splitnewlines newest)
      (Mdiff.splitnewlines target) →
  last (finalcontents st) = Some target.
Proof.
  intros Hrun Hwhole.
  destruct (absorb_file_whole older newest target) as (st' & Hrun' & Hlast).
  rewrite Hrun in Hrun'. injection Hrun' as <-. by apply Hlast.
Qed.

Lemma absorb_file_whole_hunks_witness :
  ∃ st : filefixupstate IntLineLog.t,
    absorb_file ([EmptyString] ++ ["a"]) "b" = Some st
    ∧ last (finalcontents st) = Some "b".
Proof.
  destruct (added_file_run "a" "b") as (st & Hrun & Hwhole & _); [done|].
  exists st. split; [exact Hrun|].
  exact (absorb_file_whole_hunks [EmptyString] "a" "b" st Hrun Hwhole).
Defined.

(** X27.  On the line log and diff modelled from the spec: for a file
    that the only changeset of the stack adds (the contents are the empty
    content of the dummy parent and one non-empty content), the run
    [__init__], [diffwith], [apply] adopts every hunk and the final
    contents are the empty content and the target. *)
Theorem absorb_added_file (c target : string) :
  c ≠ EmptyString →
  ∃ st : filefixupstate IntLineLog.t,
    absorb_file [EmptyString; c] target = Some st
    ∧ chunk_of <$> fixups st
      = _alldiffchunks c target (Mdiff.splitnewlines c)
          (Mdiff.splitnewlines target)
    ∧ finalcontents st = [EmptyString; target].
Proof.
  intros Hc.
  destruct (added_file_run c target Hc) as (st & Hrun & Hwhole & Hlen & Hfirst).
  destruct (absorb_file_whole [EmptyString] c target) as (st' & Hrun' & Hlast).
  rewrite Hrun in Hrun'. injection Hrun' as <-.
  specialize (Hlast Hwhole).
  exists st. split; [exact Hrun|]. split; [exact Hwhole|].
  destruct (finalcontents st) as [|x [|y [|z final]]]; try done.
  cbn in Hfirst, Hlast. by injection Hfirst as ->; injection Hlast as ->.
Qed.

Lemma absorb_added_file_witness :
  ∃ st : filefixupstate IntLineLog.t,
    absorb_file [EmptyString; "a"] "b" = Some st
    ∧ finalcontents st = [EmptyString; "b"].
Proof.
  destruct (absorb_added_file "a" "b") as (st & Hrun & _ & Hfinal); [done|].
  by exists st.
Defined.
